(** * bravado.mapping.model: models synthesized from a Swagger [definitions] section

    A shallow embedding of [bravado/mapping/model.py] (Python 2), the
    properties of it that the specification states (C1 to C10) and further
    properties read off the code (marked X): error and edge behaviour,
    invariants, and how the functions compose.

    Python values are modelled by the inductive type [value]: [None], booleans,
    integers, strings, lists, plain dicts (the JSON documents of the schema are
    values of this kind) and instances of the synthesized model classes.
    Floats, tuples and other host objects are outside the modelled universe.
    A dict is an association list in its iteration order; Python keeps the
    keys of a dict unique, which is the predicate [nodup_keys].  Strings are
    byte strings ([str]), on which [str()] and [format] are the identity.

    Exceptions are values of [exn]: the exception class together with the
    format string and the arguments of the message, as the source writes
    them ([fmt % args]). *)

From Stdlib Require Import List String Ascii ZArith Bool Arith Lia.
From Stdlib Require Import Sorted Permutation.
From Stdlib Require OrderedTypeEx.
Import ListNotations.
Open Scope string_scope.
Open Scope list_scope.

(** ** Python values *)

Unset Elimination Schemes.

Inductive value : Type :=
| VNone
| VBool (b : bool)
| VInt (n : Z)
| VStr (s : string)
| VList (items : list value)
| VDict (items : list (string * value))
| VInst (cls : model_type) (attrs : list (string * value))
with model_type : Type :=
| ModelType (name : string) (swagger_types : list (string * value)) (required : value).

Set Elimination Schemes.

(** A dict in iteration order. *)
Definition dict : Type := list (string * value).

Definition type_name (t : model_type) : string :=
  match t with ModelType n _ _ => n end.
Definition _swagger_types (t : model_type) : dict :=
  match t with ModelType _ ts _ => ts end.
Definition _required (t : model_type) : value :=
  match t with ModelType _ _ r => r end.

(** ** Exceptions and results *)

Inductive exn_class : Type := AttributeError | KeyError | TypeError.

Record exn : Type := Exn {
  exn_cls : exn_class;
  exn_fmt : string;
  exn_args : list value
}.

Inductive outcome (A : Type) : Type :=
| Ok (a : A)
| Raise (e : exn).
Arguments Ok {A} a.
Arguments Raise {A} e.

Definition bind {A B : Type} (m : outcome A) (f : A -> outcome B) : outcome B :=
  match m with
  | Ok a => f a
  | Raise e => Raise e
  end.

Notation "x <- m ;; k" := (bind m (fun x => k))
  (at level 61, m at next level, right associativity).

Definition is_ok {A : Type} (m : outcome A) : bool :=
  match m with Ok _ => true | Raise _ => false end.

(** ** Dict operations *)

(** [d.get(k)]; also decides [k in d]. *)
Fixpoint dict_get {V : Type} (k : string) (d : list (string * V)) : option V :=
  match d with
  | [] => None
  | (k', v) :: rest => if String.eqb k k' then Some v else dict_get k rest
  end.

Definition dict_mem {V : Type} (k : string) (d : list (string * V)) : bool :=
  match dict_get k d with Some _ => true | None => false end.

Definition dict_keys {V : Type} (d : list (string * V)) : list string := map fst d.

(** [d[k] = v]: an existing key keeps its place, a new key is added (the
    model puts it last; nothing proved here depends on that place). *)
Fixpoint dict_set {V : Type} (k : string) (v : V) (d : list (string * V))
  : list (string * V) :=
  match d with
  | [] => [(k, v)]
  | (k', v') :: rest =>
      if String.eqb k k' then (k', v) :: rest else (k', v') :: dict_set k v rest
  end.

Fixpoint dict_remove {V : Type} (k : string) (d : list (string * V))
  : list (string * V) :=
  match d with
  | [] => []
  | (k', v') :: rest =>
      if String.eqb k k' then rest else (k', v') :: dict_remove k rest
  end.

(** [d.pop(k)], for its effect on [d]: [KeyError] when [k] is missing. *)
Definition dict_pop (k : string) (d : dict) : outcome dict :=
  if dict_mem k d then Ok (dict_remove k d)
  else Raise (Exn KeyError "%s" [VStr k]).

Fixpoint mem_string (k : string) (l : list string) : bool :=
  match l with
  | [] => false
  | k' :: rest => String.eqb k k' || mem_string k rest
  end.

(** The keys of a Python dict are pairwise distinct. *)
Fixpoint nodup_keys {V : Type} (d : list (string * V)) : bool :=
  match d with
  | [] => true
  | (k, _) :: rest => negb (dict_mem k rest) && nodup_keys rest
  end.

(** ** Python's [==], truth value and [in] on the modelled values *)

Definition list_eqb (eqv : value -> value -> bool) : list value -> list value -> bool :=
  fix go (xs ys : list value) : bool :=
    match xs, ys with
    | [], [] => true
    | x :: xs', y :: ys' => eqv x y && go xs' ys'
    | _, _ => false
    end.

(** dict [==]: the same number of keys, and every key of the first is a key
    of the second with an equal value. *)
Definition dict_eqb (eqv : value -> value -> bool) (d1 d2 : dict) : bool :=
  Nat.eqb (List.length d1) (List.length d2)
  && forallb (fun kv => match dict_get (fst kv) d2 with
                        | Some v' => eqv (snd kv) v'
                        | None => false
                        end) d1.

(** [norm_dict] of [compare]: the dict without its ['_raw'] key. *)
Definition norm_dict (d : dict) : dict :=
  filter (fun kv => negb (String.eqb (fst kv) "_raw")) d.

(** [a == b].  An instance of a synthesized class answers with its
    [__eq__], which is [compare]: that case is [compare]'s body with the
    filter of [norm_dict] folded into the traversal of the first dict (see
    [py_eq_inst] below, which states it in [compare]'s own terms). *)
Fixpoint py_eq (a b : value) {struct a} : bool :=
  match a, b with
  | VNone, VNone => true
  | VBool x, VBool y => Bool.eqb x y
  | VBool x, VInt n => Z.eqb (Z.b2z x) n
  | VInt n, VBool x => Z.eqb n (Z.b2z x)
  | VInt m, VInt n => Z.eqb m n
  | VStr s, VStr t => String.eqb s t
  | VList xs, VList ys => list_eqb py_eq xs ys
  | VDict d1, VDict d2 => dict_eqb py_eq d1 d2
  | VInst _ d1, VInst _ d2 =>
      Nat.eqb (List.length (norm_dict d1)) (List.length (norm_dict d2))
      && forallb (fun kv =>
                    if String.eqb (fst kv) "_raw" then true
                    else match dict_get (fst kv) (norm_dict d2) with
                         | Some v' => py_eq (snd kv) v'
                         | None => false
                         end) d1
  | _, _ => false
  end.

(** [bool(v)]; the synthesized classes define neither [__nonzero__] nor
    [__len__], so their instances are true. *)
Definition py_bool (v : value) : bool :=
  match v with
  | VNone => false
  | VBool b => b
  | VInt n => negb (Z.eqb n 0)
  | VStr s => negb (String.eqb s "")
  | VList l => match l with [] => false | _ => true end
  | VDict d => match d with [] => false | _ => true end
  | VInst _ _ => true
  end.

Definition is_substring (k s : string) : bool :=
  match String.index 0 k s with Some _ => true | None => false end.

Definition py_type_name (v : value) : string :=
  match v with
  | VNone => "NoneType"
  | VBool _ => "bool"
  | VInt _ => "int"
  | VStr _ => "str"
  | VList _ => "list"
  | VDict _ => "dict"
  | VInst cls _ => type_name cls
  end.

(** [k in c] for a string [k]. *)
Definition str_in (k : string) (c : value) : outcome bool :=
  match c with
  | VStr s => Ok (is_substring k s)
  | VList l => Ok (existsb (py_eq (VStr k)) l)
  | VDict d => Ok (dict_mem k d)
  | _ => Raise (Exn TypeError "argument of type '%s' is not iterable"
                    [VStr (py_type_name c)])
  end.

(** [hasattr(v, '__dict__')] and [v.__dict__]. *)
Definition get__dict__ (v : value) : option dict :=
  match v with
  | VInst _ attrs => Some attrs
  | _ => None
  end.

Definition is_none (v : value) : bool :=
  match v with VNone => true | _ => false end.

(** [model._required]: the instance's own attribute of that name if it has
    one, the class attribute otherwise. *)
Definition getattr_required (cls : model_type) (attrs : dict) : value :=
  match dict_get "_required" attrs with
  | Some v => v
  | None => _required cls
  end.

(** [required and k in required], for [required = model._required]. *)
Definition is_required (required : value) (k : string) : outcome bool :=
  if py_bool required then str_in k required else Ok false.

(** ** [create_flat_dict] *)

(** [[create_flat_dict(x) for x in v if x is not None]] *)
Definition flat_list (rec : value -> outcome value) : list value -> outcome (list value) :=
  fix comp (xs : list value) : outcome (list value) :=
    match xs with
    | [] => Ok []
    | x :: xs' =>
        if is_none x then comp xs'
        else y <- rec x ;; ys <- comp xs' ;; Ok (y :: ys)
    end.

(** One turn of the loop over [model.__dict__.iteritems()]. *)
Definition flat_entry (rec : value -> outcome value) (required : value)
    (k : string) (v : value) (model_dict : dict) : outcome dict :=
  match v with
  | VList xs =>
      ys <- flat_list rec xs ;;
      Ok (dict_set k (VList ys) model_dict)
  | VNone =>
      required_k <- is_required required k ;;
      if (required_k : bool)
      then Raise (Exn AttributeError "Required field %s can not be None" [VStr k])
      else dict_pop k model_dict
  | _ =>
      y <- rec v ;;
      Ok (dict_set k y model_dict)
  end.

Definition flat_loop (rec : value -> outcome value) (required : value)
  : list (string * value) -> dict -> outcome dict :=
  fix loop (items : list (string * value)) (model_dict : dict) : outcome dict :=
    match items with
    | [] => Ok model_dict
    | (k, v) :: rest =>
        model_dict' <- flat_entry rec required k v model_dict ;;
        loop rest model_dict'
    end.

Fixpoint create_flat_dict (model : value) : outcome value :=
  match model with
  | VInst cls attrs =>
      (* model_dict = copy(model.__dict__) *)
      model_dict <- flat_loop create_flat_dict (getattr_required cls attrs) attrs attrs ;;
      Ok (VDict model_dict)
  | _ => Ok model
  end.

(** ** [compare] *)

Definition compare (first second : value) : bool :=
  match get__dict__ first, get__dict__ second with
  | Some d1, Some d2 => dict_eqb py_eq (norm_dict d1) (norm_dict d2)
  | _, _ => false
  end.

(** ** The collaborators of [bravado.swagger_type]

    The type mapper is consumed as a lookup service: total functions whose
    results are not constrained here.  Swagger types are the values that
    [get_swagger_types] puts in the dict it returns.  [py_str] is Python's
    [str()] on the values that are not strings. *)

Class Collaborators : Type := {
  py_type : Type;
  get_swagger_types : value -> dict;
  swagger_to_py_type : value -> py_type;
  get_instance : py_type -> value;
  py_str : value -> string
}.

(** [MODEL_MARKER] *)
Definition MODEL_MARKER : string := "x-model".

(** ** Subscripts and [get] *)

(** [d[k]] for a string [k]. *)
Definition getitem (d : value) (k : string) : outcome value :=
  match d with
  | VDict items =>
      match dict_get k items with
      | Some v => Ok v
      | None => Raise (Exn KeyError "%s" [VStr k])
      end
  | VList _ => Raise (Exn TypeError "list indices must be integers, not str" [])
  | VStr _ => Raise (Exn TypeError "string indices must be integers, not str" [])
  | _ => Raise (Exn TypeError "'%s' object has no attribute '__getitem__'"
                    [VStr (py_type_name d)])
  end.

(** [d.get(k)] *)
Definition py_get (d : value) (k : string) : outcome value :=
  match d with
  | VDict items =>
      Ok (match dict_get k items with Some v => v | None => VNone end)
  | _ => Raise (Exn AttributeError "'%s' object has no attribute 'get'"
                    [VStr (py_type_name d)])
  end.

(** ** [create_model_type] and [build_models]

    A synthesized class is an object with an identity: [type(...)] makes a
    new one at every call.  The classes live in a store, addressed by their
    position; the registry maps names to addresses.  The type mapper is a
    total function here: a schema whose [properties] it would reject is
    outside the model. *)

Definition create_model_type `{Collaborators}
    (model_name : string) (model_spec : value) : outcome model_type :=
  props <- getitem model_spec "properties" ;;
  required <- py_get model_spec "required" ;;
  Ok (ModelType model_name (get_swagger_types props) required).

Definition type_store : Type := list model_type.

Definition alloc_type (t : model_type) (s : type_store) : nat * type_store :=
  (List.length s, s ++ [t]).

Definition registry : Type := list (string * nat).

Definition canonical (model_name : string) : string :=
  "#/definitions/" ++ model_name.

Definition build_models_loop `{Collaborators}
  : list (string * value) -> registry -> type_store -> outcome (registry * type_store) :=
  fix loop (items : list (string * value)) (models : registry) (s : type_store) :=
    match items with
    | [] => Ok (models, s)
    | (model_name, model_spec) :: rest =>
        t <- create_model_type model_name model_spec ;;
        let (ref, s') := alloc_type t s in
        let models1 := dict_set model_name ref models in
        match dict_get model_name models1 with
        | Some r => loop rest (dict_set (canonical model_name) r models1) s'
        | None => Raise (Exn KeyError "%s" [VStr model_name])
        end
    end.

Definition build_models `{Collaborators}
    (definitions_spec : value) (s : type_store) : outcome (registry * type_store) :=
  match definitions_spec with
  | VDict items => build_models_loop items [] s
  | _ => Raise (Exn AttributeError "'%s' object has no attribute 'iteritems'"
                    [VStr (py_type_name definitions_spec)])
  end.

(** ** [set_props] and the construction call *)

(** [l.remove(k)], guarded in the source by [k in l]. *)
Fixpoint list_remove (k : string) (l : list string) : list string :=
  match l with
  | [] => []
  | k' :: rest => if String.eqb k k' then rest else k' :: list_remove k rest
  end.

(** [getattr(model, '_swagger_types')] *)
Definition getattr_swagger_types (cls : model_type) (attrs : dict) : value :=
  match dict_get "_swagger_types" attrs with
  | Some v => v
  | None => VDict (_swagger_types cls)
  end.

(** The loop of [set_props].  [setattr(model, prop_name, prop_value)] is
    the assignment to the instance's [__dict__], which is what it does for
    every name but the slots of the class and of [object] ([__class__],
    [__dict__], [__weakref__], [__doc__]); what is proved of the attributes
    that a call assigns is stated for declared properties none of which has
    a name of the form [__x]. *)
Definition set_props_loop `{Collaborators} (kwargs : dict)
  : list (string * value) -> list string -> dict -> outcome (list string * dict) :=
  fix loop (types : list (string * value)) (arg_keys : list string) (attrs : dict) :=
    match types with
    | [] => Ok (arg_keys, attrs)
    | (prop_name, prop_swagger_type) :: rest =>
        let python_type := swagger_to_py_type prop_swagger_type in
        if mem_string prop_name arg_keys then
          prop_value <- getitem (VDict kwargs) prop_name ;;
          loop rest (list_remove prop_name arg_keys) (dict_set prop_name prop_value attrs)
        else
          loop rest arg_keys (dict_set prop_name (get_instance python_type) attrs)
    end.

(** The model after the call, or the exception raised. *)
Definition set_props `{Collaborators} (model : value) (kwargs : dict) : outcome value :=
  match model with
  | VInst cls attrs =>
      match getattr_swagger_types cls attrs with
      | VDict types =>
          r <- set_props_loop kwargs types (dict_keys kwargs) attrs ;;
          match fst r with
          | [] => Ok (VInst cls (snd r))
          | _ :: _ =>
              Raise (Exn AttributeError " %s are not defined for %s."
                         [VList (map VStr (fst r)); VInst cls (snd r)])
          end
      | v => Raise (Exn AttributeError "'%s' object has no attribute 'iteritems'"
                        [VStr (py_type_name v)])
      end
  | _ => Raise (Exn AttributeError "'%s' object has no attribute '_swagger_types'"
                    [VStr (py_type_name model)])
  end.

(** Passing [**kwargs] to a function whose positional parameter [param] is
    already bound: a keyword of that name is a [TypeError]. *)
Definition bind_keywords (fname param : string) (kwargs : dict) : outcome dict :=
  if dict_mem param kwargs
  then Raise (Exn TypeError "%s() got multiple values for keyword argument '%s'"
                  [VStr fname; VStr param])
  else Ok kwargs.

(** A call of the class with keyword arguments [kwargs]: a new instance
    with an empty [__dict__], then [__init__], the lambda of parameters
    [self, **kwargs] that calls [set_props] with [self] and the same
    keywords; [set_props] has the parameters [model, **kwargs]. *)
Definition construct `{Collaborators} (cls : model_type) (kwargs : dict) : outcome value :=
  kw1 <- bind_keywords "<lambda>" "self" kwargs ;;
  kw2 <- bind_keywords "set_props" "model" kw1 ;;
  set_props (VInst cls []) kw2.

(** ** [tag_models] and [is_model]

    Both passes over the schema change the document in place; here the
    document is the state, and each function returns the document after the
    call.  When a call raises, the definitions visited before the failing
    one have already been changed in the source; the outcome here keeps the
    exception only. *)

Definition tag_model (model_name : string) (model_spec : value) : outcome value :=
  match model_spec with
  | VDict d =>
      let model_type := match dict_get "type" d with Some v => v | None => VNone end in
      let defaulted :=
        if is_none model_type
        then (VStr "object", dict_set "type" (VStr "object") d)
        else (model_type, d) in
      if py_eq (fst defaulted) (VStr "object")
      then Ok (VDict (dict_set MODEL_MARKER (VStr model_name) (snd defaulted)))
      else Ok (VDict (snd defaulted))
  | _ => Raise (Exn AttributeError "'%s' object has no attribute 'get'"
                    [VStr (py_type_name model_spec)])
  end.

Fixpoint tag_models_loop (items : list (string * value)) : outcome dict :=
  match items with
  | [] => Ok []
  | (model_name, model_spec) :: rest =>
      model_spec' <- tag_model model_name model_spec ;;
      rest' <- tag_models_loop rest ;;
      Ok ((model_name, model_spec') :: rest')
  end.

Definition tag_models (spec_dict : value) : outcome value :=
  match spec_dict with
  | VDict sd =>
      match dict_get "definitions" sd with
      | None => Ok spec_dict
      | Some (VDict models_dict) =>
          models_dict' <- tag_models_loop models_dict ;;
          Ok (VDict (dict_set "definitions" (VDict models_dict') sd))
      | Some v => Raise (Exn AttributeError "'%s' object has no attribute 'iteritems'"
                             [VStr (py_type_name v)])
      end
  | _ => Raise (Exn AttributeError "'%s' object has no attribute 'get'"
                    [VStr (py_type_name spec_dict)])
  end.

Definition is_model (spec : value) : outcome bool := str_in MODEL_MARKER spec.

(** ** [fix_malformed_model_refs] *)

(** Modelled from the spec: [is_dict_like] of [bravado.swagger_type], which
    is not part of this file's source; the normalizer descends into literal
    nested mappings only. *)
Definition is_dict_like (spec : value) : bool :=
  match spec with VDict _ => true | _ => false end.

(** Modelled from the spec: [is_list_like] of [bravado.swagger_type]; the
    normalizer descends into literal nested sequences only. *)
Definition is_list_like (spec : value) : bool :=
  match spec with VList _ => true | _ => false end.

Fixpoint chars (s : string) : list value :=
  match s with
  | EmptyString => []
  | String c rest => VStr (String c EmptyString) :: chars rest
  end.

(** The values that [for x in v] goes through. *)
Definition py_iter (v : value) : outcome (list value) :=
  match v with
  | VDict d => Ok (map VStr (dict_keys d))
  | VList l => Ok l
  | VStr s => Ok (chars s)
  | _ => Raise (Exn TypeError "'%s' object is not iterable" [VStr (py_type_name v)])
  end.

(** [v in l] for a list [l]. *)
Definition py_in (v : value) (l : list value) : bool := existsb (py_eq v) l.

(** ["{0}".format(v)] *)
Definition format0 `{Collaborators} (v : value) : string :=
  match v with
  | VStr s => s
  | _ => py_str v
  end.

(** The loop of [descend] over [fragment.iteritems()]; it works on the
    dict [fragment] itself.  [descend(v)] changes the object [v] in place,
    and [fragment] holds that object under [k] unless the assignment just
    before has replaced it. *)
Definition descend_items `{Collaborators} (rec : value -> value)
    (model_names : list value) : list (string * value) -> dict -> dict :=
  fix loop (items : list (string * value)) (fragment : dict) : dict :=
    match items with
    | [] => fragment
    | (k, v) :: rest =>
        if String.eqb k "$ref" && py_in v model_names
        then loop rest (dict_set k (VStr (canonical (format0 v))) fragment)
        else loop rest (dict_set k (rec v) fragment)
    end.

Fixpoint descend `{Collaborators} (model_names : list value) (fragment : value) : value :=
  match fragment with
  | VDict items =>
      if is_dict_like fragment
      then VDict (descend_items (descend model_names) model_names items items)
      else fragment
  | VList elements =>
      if is_list_like fragment then VList (map (descend model_names) elements)
      else fragment
  | _ => fragment
  end.

Definition fix_malformed_model_refs `{Collaborators} (spec : value) : outcome value :=
  match spec with
  | VDict sd =>
      model_names <- match dict_get "definitions" sd with
                     | Some v => py_iter v
                     | None => Ok []
                     end ;;
      Ok (descend model_names spec)
  | _ => Raise (Exn AttributeError "'%s' object has no attribute 'get'"
                    [VStr (py_type_name spec)])
  end.

(** ** Well-formed values, paths, and the normalizer as the specification words it *)

(** Every dict of the value has pairwise distinct keys. *)
Fixpoint wf_value (v : value) : bool :=
  match v with
  | VList l => forallb wf_value l
  | VDict d => nodup_keys d && forallb (fun kv => wf_value (snd kv)) d
  | VInst _ d => nodup_keys d && forallb (fun kv => wf_value (snd kv)) d
  | _ => true
  end.

(** A place in a document: the keys and indices that lead to it. *)
Inductive step : Type :=
| Key (k : string)
| Index (i : nat).

Fixpoint get_path (p : list step) (v : value) : option value :=
  match p with
  | [] => Some v
  | Key k :: p' =>
      match v with
      | VDict d =>
          match dict_get k d with
          | Some c => get_path p' c
          | None => None
          end
      | _ => None
      end
  | Index i :: p' =>
      match v with
      | VList l =>
          match nth_error l i with
          | Some c => get_path p' c
          | None => None
          end
      | _ => None
      end
  end.

(** What the normalizer does to the entry [(k, v)] of a mapping, in the
    words of the specification: a reference to a declared model name becomes
    the canonical pointer, anything else is normalized inside. *)
Definition is_bare_ref (model_names : list value) (k : string) (v : value) : bool :=
  String.eqb k "$ref" && py_in v model_names.

Fixpoint normalize `{Collaborators} (model_names : list value) (v : value) : value :=
  match v with
  | VDict items =>
      VDict (map (fun kv =>
                    (fst kv,
                     if is_bare_ref model_names (fst kv) (snd kv)
                     then VStr (canonical (format0 (snd kv)))
                     else normalize model_names (snd kv))) items)
  | VList l => VList (map (normalize model_names) l)
  | _ => v
  end.

(** ** [create_flat_dict] on a store of objects

    To speak of what a call changes, objects get addresses.  A store is the
    list of the objects allocated so far, an address is a position in it,
    and a value is an immediate or a reference.  An address outside the
    store stands for an object of some other kind, which has no [__dict__]
    and is not a list.  The class attributes are immutable data, kept as
    [value]s. *)

Inductive hval : Type :=
| HNone
| HBool (b : bool)
| HInt (n : Z)
| HStr (s : string)
| HRef (l : nat).

Inductive obj : Type :=
| OList (items : list hval)
| ODict (items : list (string * hval))
| OInst (cls : model_type) (attrs : list (string * hval)).

Definition heap : Type := list obj.

Definition heap_get (h : heap) (l : nat) : option obj := nth_error h l.

Definition heap_alloc (o : obj) (h : heap) : nat * heap := (List.length h, h ++ [o]).

Fixpoint heap_set (l : nat) (o : obj) (h : heap) : heap :=
  match h, l with
  | [], _ => []
  | _ :: t, O => o :: t
  | x :: t, S l' => x :: heap_set l' o t
  end.

(** The result of a run: the recursion went deeper than the fuel, an
    exception, or a result and the store after the call. *)
Inductive res (A : Type) : Type :=
| Diverge
| Fail (e : exn)
| Done (a : A) (h : heap).
Arguments Diverge {A}.
Arguments Fail {A} e.
Arguments Done {A} a h.

Definition h_is_none (v : hval) : bool :=
  match v with HNone => true | _ => false end.

Definition h_bool (h : heap) (v : hval) : bool :=
  match v with
  | HNone => false
  | HBool b => b
  | HInt n => negb (Z.eqb n 0)
  | HStr s => negb (String.eqb s "")
  | HRef l =>
      match heap_get h l with
      | Some (OList []) => false
      | Some (ODict []) => false
      | _ => true
      end
  end.

Definition h_str_eq (k : string) (v : hval) : bool :=
  match v with HStr s => String.eqb k s | _ => false end.

Definition h_type_name (h : heap) (v : hval) : string :=
  match v with
  | HNone => "NoneType"
  | HBool _ => "bool"
  | HInt _ => "int"
  | HStr _ => "str"
  | HRef l =>
      match heap_get h l with
      | Some (OList _) => "list"
      | Some (ODict _) => "dict"
      | Some (OInst cls _) => type_name cls
      | None => "object"
      end
  end.

Definition h_str_in (h : heap) (k : string) (c : hval) : outcome bool :=
  match c with
  | HStr s => Ok (is_substring k s)
  | HRef l =>
      match heap_get h l with
      | Some (OList xs) => Ok (existsb (h_str_eq k) xs)
      | Some (ODict d) => Ok (dict_mem k d)
      | _ => Raise (Exn TypeError "argument of type '%s' is not iterable"
                        [VStr (h_type_name h c)])
      end
  | _ => Raise (Exn TypeError "argument of type '%s' is not iterable"
                    [VStr (h_type_name h c)])
  end.

(** [model._required and k in model._required] *)
Definition h_is_required (h : heap) (cls : model_type) (attrs : list (string * hval))
    (k : string) : outcome bool :=
  match dict_get "_required" attrs with
  | Some r => if h_bool h r then h_str_in h k r else Ok false
  | None => is_required (_required cls) k
  end.

(** [model_dict[k] = v] and [model_dict.pop(k)] for the dict at [ld]. *)
Definition store_dict_set (ld : nat) (k : string) (v : hval) (h : heap) : heap :=
  match heap_get h ld with
  | Some (ODict d) => heap_set ld (ODict (dict_set k v d)) h
  | _ => h
  end.

Definition store_dict_pop (ld : nat) (k : string) (h : heap) : res unit :=
  match heap_get h ld with
  | Some (ODict d) =>
      if dict_mem k d then Done tt (heap_set ld (ODict (dict_remove k d)) h)
      else Fail (Exn KeyError "%s" [VStr k])
  | _ => Fail (Exn KeyError "%s" [VStr k])
  end.

Definition st_flat_list (rec : hval -> heap -> res hval)
  : list hval -> heap -> res (list hval) :=
  fix comp (xs : list hval) (h : heap) : res (list hval) :=
    match xs with
    | [] => Done [] h
    | x :: xs' =>
        if h_is_none x then comp xs' h
        else match rec x h with
             | Done y h1 =>
                 match comp xs' h1 with
                 | Done ys h2 => Done (y :: ys) h2
                 | Fail e => Fail e
                 | Diverge => Diverge
                 end
             | Fail e => Fail e
             | Diverge => Diverge
             end
    end.

Definition st_flat_entry (rec : hval -> heap -> res hval)
    (cls : model_type) (attrs : list (string * hval)) (ld : nat)
    (k : string) (v : hval) (h : heap) : res unit :=
  match v with
  | HNone =>
      match h_is_required h cls attrs k with
      | Ok true =>
          Fail (Exn AttributeError "Required field %s can not be None" [VStr k])
      | Ok false => store_dict_pop ld k h
      | Raise e => Fail e
      end
  | _ =>
      match (match v with HRef lv => heap_get h lv | _ => None end) with
      | Some (OList xs) =>
          match st_flat_list rec xs h with
          | Done ys h1 =>
              let (ly, h2) := heap_alloc (OList ys) h1 in
              Done tt (store_dict_set ld k (HRef ly) h2)
          | Fail e => Fail e
          | Diverge => Diverge
          end
      | _ =>
          match rec v h with
          | Done y h1 => Done tt (store_dict_set ld k y h1)
          | Fail e => Fail e
          | Diverge => Diverge
          end
      end
  end.

Definition st_flat_loop (rec : hval -> heap -> res hval)
    (cls : model_type) (attrs : list (string * hval)) (ld : nat)
  : list (string * hval) -> heap -> res unit :=
  fix loop (items : list (string * hval)) (h : heap) : res unit :=
    match items with
    | [] => Done tt h
    | (k, v) :: rest =>
        match st_flat_entry rec cls attrs ld k v h with
        | Done _ h1 => loop rest h1
        | Fail e => Fail e
        | Diverge => Diverge
        end
    end.

Fixpoint st_create_flat_dict (fuel : nat) (model : hval) (h : heap) : res hval :=
  match fuel with
  | O => Diverge
  | S fuel' =>
      match (match model with HRef l => heap_get h l | _ => None end) with
      | Some (OInst cls attrs) =>
          (* model_dict = copy(model.__dict__) *)
          let (ld, h1) := heap_alloc (ODict attrs) h in
          match st_flat_loop (st_create_flat_dict fuel') cls attrs ld attrs h1 with
          | Done _ h2 => Done (HRef ld) h2
          | Fail e => Fail e
          | Diverge => Diverge
          end
      | _ => Done model h
      end
  end.

(** ** Notions used to state the properties *)

(** What one turn of the loop of [create_flat_dict] computes for the
    attribute [(k, v)]: the flattened value to store, or [None] when the
    attribute is to be dropped. *)
Definition flat_value (rec : value -> outcome value) (required : value)
    (k : string) (v : value) : outcome (option value) :=
  match v with
  | VList xs => ys <- flat_list rec xs ;; Ok (Some (VList ys))
  | VNone =>
      required_k <- is_required required k ;;
      if (required_k : bool)
      then Raise (Exn AttributeError "Required field %s can not be None" [VStr k])
      else Ok None
  | _ => y <- rec v ;; Ok (Some y)
  end.



Definition not_none (v : value) : bool := negb (is_none v).

(** The keys still to be visited are keys of the dict being built. *)
Definition pending (items : list (string * value)) (md : dict) : Prop :=
  forall k, In k (dict_keys items) -> dict_mem k md = true.

(** Two lookups agree: both keys are missing, or both are present with
    values that [eqv] holds equal. *)
Definition attr_eq (eqv : value -> value -> bool) (a b : option value) : Prop :=
  match a, b with
  | Some x, Some y => eqv x y = true
  | None, None => True
  | _, _ => False
  end.

(** The [__dict__] of the value, if it has one, has distinct keys. *)
Definition attrs_nodup (v : value) : bool :=
  match get__dict__ v with
  | Some d => nodup_keys d
  | None => true
  end.

(** The type that a model schema declares ([None] when it declares none),
    and its type once the tagger has defaulted it. *)
Definition declared_type (d : dict) : value :=
  match dict_get "type" d with Some v => v | None => VNone end.

Definition effective_type (d : dict) : value :=
  if is_none (declared_type d) then VStr "object" else declared_type d.

Definition is_object (t : value) : bool :=
  match t with VStr s => String.eqb s "object" | _ => false end.

(** What the tagger does to the entry [name] of the definitions: [spec]
    before, [spec'] after. *)
Definition tagged (name : string) (spec spec' : value) : Prop :=
  exists d d',
    spec = VDict d /\ spec' = VDict d' /\
    dict_get "type" d' = Some (effective_type d) /\
    (forall k, k <> "type" -> k <> MODEL_MARKER -> dict_get k d' = dict_get k d) /\
    (if is_object (effective_type d)
     then dict_get MODEL_MARKER d' = Some (VStr name)
     else d' = d) /\
    is_model spec' = Ok (dict_mem MODEL_MARKER d').

Definition petstore_definitions : dict :=
  [("Pet", VDict [("properties", VDict [("name", VDict [("type", VStr "string")])])]);
   ("Name", VDict [("type", VStr "string")]);
   ("Tag", VDict [("type", VStr "object"); ("properties", VDict [])])].

(** What the normalizer leaves, in the words of the specification, at a
    place of the document that held [v], [last] being the last step of the
    path to the place: the canonical pointer when the place is the entry
    ['$ref'] of a mapping and [v] is a declared model name, the normalized
    [v] otherwise. *)
Definition normalized_at `{Collaborators} (model_names : list string)
    (last : option step) (v : value) : value :=
  match last, v with
  | Some (Key k), VStr n =>
      if String.eqb k "$ref" && mem_string n model_names
      then VStr (canonical n)
      else v
  | _, _ => normalize (map VStr model_names) v
  end.

(** The last step of a path, [last] for the empty path. *)
Definition last_step_from (last : option step) (p : list step) : option step :=
  fold_left (fun _ s => Some s) p last.

Definition last_step (p : list step) : option step := last_step_from None p.

(** The model names that a document declares. *)
Definition declared_names (sd : dict) : option (list string) :=
  match dict_get "definitions" sd with
  | None => Some []
  | Some (VDict defs) => Some (dict_keys defs)
  | Some _ => None
  end.

(** The place is the entry ['$ref'] of a mapping and holds a declared name. *)
Definition is_declared_ref (model_names : list string) (last : option step)
    (v : value) : bool :=
  match last, v with
  | Some (Key k), VStr n => String.eqb k "$ref" && mem_string n model_names
  | _, _ => false
  end.

Definition is_scalar (v : value) : bool :=
  negb (is_dict_like v) && negb (is_list_like v).

(** A document in which a definition is named like a canonical pointer. *)
Definition pointer_named_definition : value :=
  VDict [("definitions", VDict [("#/definitions/A", VDict [])]);
         ("x", VDict [("$ref", VStr "#/definitions/A")])].

(** The example of the specification: a reference to the declared model
    [Category] and a reference to a name that no model has. *)
Definition category_document : dict :=
  [("definitions", VDict [("Category", VDict [("properties", VDict [])])]);
   ("paths", VList [VDict [("$ref", VStr "Category")];
                    VDict [("$ref", VStr "Unknown")]])].

(** The model schema has a [properties] entry. *)
Definition has_properties (model_spec : value) : bool :=
  match model_spec with
  | VDict d => dict_mem "properties" d
  | _ => false
  end.

(** No key of the definitions is the canonical pointer of a key. *)
Definition pointer_free (defs : dict) : Prop :=
  forall name, dict_mem name defs = true -> dict_mem (canonical name) defs = false.

(** Definitions that all have [properties]: a model and an array. *)
Definition uniform_definitions : dict :=
  [("Pet", VDict [("properties", VDict [("name", VStr "string")]);
                  ("required", VList [VStr "name"])]);
   ("Ids", VDict [("type", VStr "array"); ("properties", VDict [])])].

(** Definitions one of which is named like the canonical pointer of the
    other, in both orders. *)
Definition clashing_definitions : dict :=
  [("Pet", VDict [("properties", VDict [])]);
   ("#/definitions/Pet", VDict [("properties", VDict [])])].

Definition clashing_definitions' : dict :=
  [("#/definitions/Pet", VDict [("properties", VDict [])]);
   ("Pet", VDict [("properties", VDict [])])].

(** The supplied names that are not declared properties, in the order of
    the supplied names. *)
Definition unknown_keys (types : dict) (arg_keys : list string) : list string :=
  filter (fun k => negb (dict_mem k types)) arg_keys.

(** The value that construction gives the property [prop_name] of swagger
    type [prop_swagger_type]. *)
Definition prop_value `{Collaborators} (kwargs : dict)
    (prop_name : string) (prop_swagger_type : value) : value :=
  match dict_get prop_name kwargs with
  | Some v => v
  | None => get_instance (swagger_to_py_type prop_swagger_type)
  end.

(** A model with a property called [model]. *)
Definition Car : model_type :=
  ModelType "Car" [("model", VStr "string"); ("year", VStr "integer")] VNone.

(** The store [h] is [h0] with more objects after it: the objects of
    [h0] are where they were and as they were. *)
Definition heap_prefix (h0 h : heap) : Prop := exists ext, h = h0 ++ ext.

(** The dict being built is at [ld], outside the store [h0] of the caller. *)
Definition building (h0 : heap) (ld : nat) (h : heap) : Prop :=
  heap_prefix h0 h /\ List.length h0 <= ld /\
  exists d, heap_get h ld = Some (ODict d).

(** ** The two models of [create_flat_dict] side by side

    [repr P h hv v]: in the store [h], the stored value [hv] is the value
    [v], and reading it goes through addresses in [P] only. *)

Unset Elimination Schemes.

Inductive repr (P : nat -> Prop) (h : heap) : hval -> value -> Prop :=
| repr_none : repr P h HNone VNone
| repr_bool b : repr P h (HBool b) (VBool b)
| repr_int n : repr P h (HInt n) (VInt n)
| repr_str s : repr P h (HStr s) (VStr s)
| repr_list l xs vs :
    P l -> heap_get h l = Some (OList xs) ->
    Forall2 (repr P h) xs vs ->
    repr P h (HRef l) (VList vs)
| repr_dict l d vd :
    P l -> heap_get h l = Some (ODict d) ->
    Forall2 (fun e ve => fst e = fst ve /\ repr P h (snd e) (snd ve)) d vd ->
    repr P h (HRef l) (VDict vd)
| repr_inst l cls a va :
    P l -> heap_get h l = Some (OInst cls a) ->
    Forall2 (fun e ve => fst e = fst ve /\ repr P h (snd e) (snd ve)) a va ->
    repr P h (HRef l) (VInst cls va).

Set Elimination Schemes.

(** The entries of a stored dict are those of a dict of values. *)
Definition repr_entries (P : nat -> Prop) (h : heap)
    (d : list (string * hval)) (vd : dict) : Prop :=
  Forall2 (fun e ve => fst e = fst ve /\ repr P h (snd e) (snd ve)) d vd.

(** How deep [create_flat_dict] recurses on a value, at most. *)
Fixpoint depth (v : value) : nat :=
  match v with
  | VList l => S (list_max (map depth l))
  | VDict d => S (list_max (map (fun kv => depth (snd kv)) d))
  | VInst _ d => S (list_max (map (fun kv => depth (snd kv)) d))
  | _ => O
  end.

(** The addresses in [P] and those from [n] on. *)
Definition or_from (P : nat -> Prop) (n : nat) : nat -> Prop :=
  fun l => P l \/ n <= l.

(** On the stored value [hv], which is the value [v], the store model with
    [fuel] does what the value model does: the same exception, or a result
    that is the result of the value model. *)
Definition simulates (fuel : nat) (P : nat -> Prop) (hv : hval) (h : heap)
    (v : value) : Prop :=
  match create_flat_dict v with
  | Ok v' =>
      exists r h',
        st_create_flat_dict fuel hv h = Done r h' /\
        repr (or_from P (List.length h)) h' r v'
  | Raise e => st_create_flat_dict fuel hv h = Fail e
  end.

(** The state of the loop of [create_flat_dict] entered on the store [h0]:
    the dict being built, at the first address after [h0], holds the
    entries of [md]. *)
Definition loop_state (h0 : heap) (P : nat -> Prop) (hc : heap) (md : dict) : Prop :=
  heap_prefix h0 hc /\
  exists d, heap_get hc (List.length h0) = Some (ODict d) /\
            repr_entries (or_from P (S (List.length h0))) hc d md.

(** Stand-ins for the collaborators, for the examples. *)
Definition sample_collaborators : Collaborators :=
  {| py_type := value;
     get_swagger_types := fun props =>
       match props with VDict d => d | _ => [] end;
     swagger_to_py_type := fun t => t;
     get_instance := fun _ => VNone;
     py_str := fun _ => "" |}.

(** ** Induction over values *)

Section ValueInd.
Variable P : value -> Prop.
Hypothesis HNone : P VNone.
Hypothesis HBool : forall b, P (VBool b).
Hypothesis HInt : forall n, P (VInt n).
Hypothesis HStr : forall s, P (VStr s).
Hypothesis HList : forall l, Forall P l -> P (VList l).
Hypothesis HDict : forall d, Forall (fun kv => P (snd kv)) d -> P (VDict d).
Hypothesis HInst : forall cls d, Forall (fun kv => P (snd kv)) d -> P (VInst cls d).

Fixpoint value_ind' (v : value) : P v :=
  match v with
  | VNone => HNone
  | VBool b => HBool b
  | VInt n => HInt n
  | VStr s => HStr s
  | VList l =>
      HList l ((fix all (l : list value) : Forall P l :=
                  match l with
                  | [] => Forall_nil _
                  | x :: l' => Forall_cons x (value_ind' x) (all l')
                  end) l)
  | VDict d =>
      HDict d ((fix all (d : list (string * value)) : Forall (fun kv => P (snd kv)) d :=
                  match d with
                  | [] => Forall_nil _
                  | kv :: d' => Forall_cons kv (value_ind' (snd kv)) (all d')
                  end) d)
  | VInst cls d =>
      HInst cls d
        ((fix all (d : list (string * value)) : Forall (fun kv => P (snd kv)) d :=
            match d with
            | [] => Forall_nil _
            | kv :: d' => Forall_cons kv (value_ind' (snd kv)) (all d')
            end) d)
  end.
End ValueInd.

(** ** Sample models *)

Definition Tag : model_type :=
  ModelType "Tag" [("id", VStr "integer"); ("name", VStr "string")] VNone.

Definition Pet : model_type :=
  ModelType "Pet"
    [("id", VStr "integer"); ("name", VStr "string"); ("tags", VStr "array:Tag")]
    (VList [VStr "name"]).

Definition tag (id : Z) (name : string) : value :=
  VInst Tag [("id", VInt id); ("name", VStr name)].

Definition pet_rex_attrs : dict :=
  [("id", VNone); ("name", VStr "Rex");
   ("tags", VList [tag 1 "a"; VNone; tag 2 "b"])].

Definition pet_unnamed_attrs : dict :=
  [("id", VInt 3); ("name", VNone); ("tags", VList [])].

(** A store with a tag, a list of tags with a null in it, and a pet whose
    [id] is null. *)
Definition pet_store : heap :=
  [OInst Tag [("id", HInt 1); ("name", HStr "a")];
   OList [HRef 0; HNone];
   OInst Pet [("id", HNone); ("name", HStr "Rex"); ("tags", HRef 1)]].

(** ** [create_model_repr]

    [%r] is Python's [repr], consumed as a service: it answers with a
    string or raises.  (On an instance of a synthesized class it is the
    class's [__repr__], [create_model_repr] itself.) *)

Class Printer : Type := {
  py_repr : value -> outcome string
}.

(** [sorted] on strings: ascending in the order of [str], which compares
    byte by byte.  The order is total, so that every sorting algorithm
    returns the same list ([py_sorted_unique] below). *)
Fixpoint insert_sorted (k : string) (l : list string) : list string :=
  match l with
  | [] => [k]
  | x :: rest => if String.leb k x then k :: l else x :: insert_sorted k rest
  end.

Definition py_sorted (l : list string) : list string :=
  fold_right insert_sorted [] l.

(** [sep.join(l)] *)
Definition join (sep : string) (l : list string) : string := String.concat sep l.

(** Names of the form [__x], among which are the slots of [object] and of
    the class ([__class__], [__dict__], [__doc__], ...), whose lookup does
    not go through the instance's [__dict__] first. *)
Definition is_dunder (name : string) : bool :=
  match name with
  | String "_" (String "_" _) => true
  | _ => false
  end.

(** [getattr(model, prop)] on an instance of a synthesized class, for a
    name that is no [__x]: the instance's own attribute; failing that, the
    attribute of the class, which has the three names [_swagger_types],
    [_required] and [_flat_dict] besides its [__x] names; failing that,
    [AttributeError].  The answer is [None] where the attribute is no value
    of the modelled universe: a bound method, or a slot. *)
Definition getattr_prop (cls : model_type) (attrs : dict) (prop : string)
  : option (outcome value) :=
  if is_dunder prop then None
  else match dict_get prop attrs with
       | Some v => Some (Ok v)
       | None =>
           if String.eqb prop "_swagger_types" then Some (Ok (VDict (_swagger_types cls)))
           else if String.eqb prop "_required" then Some (Ok (_required cls))
           else if String.eqb prop "_flat_dict" then None
           else Some (Raise (Exn AttributeError "'%s' object has no attribute '%s'"
                                 [VStr (type_name cls); VStr prop]))
       end.

(** ["%s=%r" % (prop, getattr(model, prop))] *)
Definition repr_prop `{Printer} (cls : model_type) (attrs : dict) (prop : string)
  : option (outcome string) :=
  match getattr_prop cls attrs prop with
  | None => None
  | Some (Raise e) => Some (Raise e)
  | Some (Ok v) => Some (r <- py_repr v ;; Ok (prop ++ "=" ++ r)%string)
  end.

(** The list comprehension, in the order of [props]. *)
Fixpoint repr_props `{Printer} (cls : model_type) (attrs : dict) (props : list string)
  : option (outcome (list string)) :=
  match props with
  | [] => Some (Ok [])
  | prop :: rest =>
      match repr_prop cls attrs prop with
      | None => None
      | Some (Raise e) => Some (Raise e)
      | Some (Ok shown) =>
          match repr_props cls attrs rest with
          | None => None
          | Some (Raise e) => Some (Raise e)
          | Some (Ok l) => Some (Ok (shown :: l))
          end
      end
  end.

(** The string that the call returns or the exception that it raises;
    [None] where the call leaves the modelled universe: an attribute
    lookup that does ([getattr_prop]), or an instance whose own attribute
    [_swagger_types] hides the class's, so that [sorted] is applied to an
    arbitrary value. *)
Definition create_model_repr `{Printer} (model : value) : option (outcome string) :=
  match model with
  | VInst cls attrs =>
      match dict_get "_swagger_types" attrs with
      | Some _ => None
      | None =>
          match repr_props cls attrs (py_sorted (dict_keys (_swagger_types cls))) with
          | None => None
          | Some (Raise e) => Some (Raise e)
          | Some (Ok l) =>
              Some (Ok (type_name cls ++ "(" ++ join ", " l ++ ")")%string)
          end
      end
  | _ => Some (Raise (Exn AttributeError "'%s' object has no attribute '_swagger_types'"
                          [VStr (py_type_name model)]))
  end.

(** ** Notions used by the further properties *)

(** What the normalizer makes of one entry of a mapping. *)
Definition normalize_entry `{Collaborators} (model_names : list value)
    (kv : string * value) : string * value :=
  (fst kv,
   if is_bare_ref model_names (fst kv) (snd kv)
   then VStr (canonical (format0 (snd kv)))
   else normalize model_names (snd kv)).

(** No model that flattening reaches has a required set: the instance
    itself, the instances that its attributes hold, and the instances in
    the lists that its attributes hold. *)
Fixpoint no_required_set (v : value) : bool :=
  match v with
  | VInst cls attrs =>
      negb (py_bool (getattr_required cls attrs))
      && forallb (fun kv =>
                    match snd kv with
                    | VList xs => forallb no_required_set xs
                    | _ => no_required_set (snd kv)
                    end) attrs
  | _ => true
  end.

(** The two exceptions of [create_flat_dict]: the one it raises itself
    for a required attribute that is [None], and the [TypeError] of
    [k in model._required] when the required set is not a container. *)
Definition flat_error (e : exn) : Prop :=
  (exists k, e = Exn AttributeError "Required field %s can not be None" [VStr k]) \/
  (exists t, e = Exn TypeError "argument of type '%s' is not iterable" [VStr t]).

(** An instance with a plain dict, a list of lists and a scalar among its
    attributes; the dict and the inner list hold an instance and a [None]. *)
Definition nested_attrs : dict :=
  [("meta", VDict [("owner", tag 1 "a"); ("note", VNone)]);
   ("rows", VList [VList [tag 2 "b"; VNone]; VNone; VInt 7]);
   ("id", VInt 3);
   ("name", VNone)].

(** Some ['$ref'] entry of a mapping of the value holds one of the
    [model_names]. *)
Fixpoint has_declared_ref (model_names : list value) (v : value) : bool :=
  match v with
  | VDict items =>
      existsb (fun kv => is_bare_ref model_names (fst kv) (snd kv)
                         || has_declared_ref model_names (snd kv)) items
  | VList l => existsb (has_declared_ref model_names) l
  | _ => false
  end.

(** A document that declares [Category] and refers to [Unknown] only. *)
Definition unreferenced_document : dict :=
  [("definitions", VDict [("Category", VDict [("properties", VDict [])])]);
   ("paths", VList [VDict [("$ref", VStr "Unknown")];
                    VDict [("ref", VStr "Category")]])].

(** A stand-in for [repr], for the examples. *)
Definition sample_printer : Printer :=
  {| py_repr := fun v =>
       match v with
       | VNone => Ok "None"
       | VBool true => Ok "True"
       | VBool false => Ok "False"
       | VStr s => Ok ("'" ++ s ++ "'")%string
       | _ => Ok "..."
       end |}.

(** [Pet] with its properties declared in another order. *)
Definition Pet' : model_type :=
  ModelType "Pet"
    [("tags", VStr "array:Tag"); ("name", VStr "string"); ("id", VStr "integer")]
    VNone.

(** A store with a dict and an instance that holds it. *)
Definition shared_store : heap :=
  [ODict [("owner", HStr "a")];
   OInst Tag [("id", HInt 1); ("meta", HRef 0)]].

(** Instances that are equal and of different classes, and a third one. *)
Definition pet_one : value :=
  VInst Pet [("id", VInt 1); ("name", VStr "x"); ("tags", VList [tag 1 "a"])].

Definition pet_one' : value :=
  VInst Tag [("tags", VList [tag 1 "a"]); ("_raw", VStr "{}");
             ("name", VStr "x"); ("id", VBool true)].

Definition pet_one'' : value :=
  VInst Pet [("name", VStr "x"); ("id", VInt 1); ("tags", VList [tag 1 "a"]);
             ("_raw", VNone)].

(** * Properties *)

(** ** Dicts *)

Section DictFacts.
Context {V : Type}.
Implicit Types (d : list (string * V)) (k : string) (v : V).

Lemma dict_get_set_same d k v : dict_get k (dict_set k v d) = Some v.
Proof.
  induction d as [|[k' v'] d IH]; simpl.
  - now rewrite String.eqb_refl.
  - destruct (String.eqb k k') eqn:E; simpl; rewrite E; auto.
Qed.

Lemma dict_get_set_other d k k' v :
  k' <> k -> dict_get k' (dict_set k v d) = dict_get k' d.
Proof.
  intros Hne. induction d as [|[k0 v0] d IH]; simpl.
  - destruct (String.eqb k' k) eqn:E; auto.
    apply String.eqb_eq in E. contradiction.
  - destruct (String.eqb k k0) eqn:E; simpl.
    + apply String.eqb_eq in E. subst k0.
      destruct (String.eqb k' k) eqn:E'; auto.
      apply String.eqb_eq in E'. contradiction.
    + now rewrite IH.
Qed.

Lemma dict_get_remove_other d k k' :
  k' <> k -> dict_get k' (dict_remove k d) = dict_get k' d.
Proof.
  intros Hne. induction d as [|[k0 v0] d IH]; simpl; auto.
  destruct (String.eqb k k0) eqn:E; simpl.
  - apply String.eqb_eq in E. subst k0.
    destruct (String.eqb k' k) eqn:E'; auto.
    apply String.eqb_eq in E'. contradiction.
  - now rewrite IH.
Qed.

Lemma dict_mem_cons d k k0 v0 :
  dict_mem k ((k0, v0) :: d) = String.eqb k k0 || dict_mem k d.
Proof. unfold dict_mem. simpl. now destruct (String.eqb k k0). Qed.

Lemma dict_mem_false_get d k : dict_mem k d = false -> dict_get k d = None.
Proof. unfold dict_mem. destruct (dict_get k d); congruence. Qed.

Lemma dict_get_remove_same d k :
  nodup_keys d = true -> dict_get k (dict_remove k d) = None.
Proof.
  induction d as [|[k0 v0] d IH]; simpl; auto.
  intros H. apply andb_true_iff in H as [H1 H2].
  destruct (String.eqb k k0) eqn:E; simpl.
  - apply String.eqb_eq in E. subst k0.
    apply dict_mem_false_get. now apply negb_true_iff.
  - rewrite E. auto.
Qed.

Lemma dict_mem_set d k k' v :
  dict_mem k' (dict_set k v d) = String.eqb k' k || dict_mem k' d.
Proof.
  unfold dict_mem. destruct (String.eqb k' k) eqn:E.
  - apply String.eqb_eq in E. subst. now rewrite dict_get_set_same.
  - rewrite dict_get_set_other; auto.
    intros ->. rewrite String.eqb_refl in E. discriminate.
Qed.

Lemma dict_mem_remove_other d k k' :
  k' <> k -> dict_mem k' (dict_remove k d) = dict_mem k' d.
Proof. intros. unfold dict_mem. now rewrite dict_get_remove_other. Qed.

Lemma nodup_keys_set d k v :
  nodup_keys d = true -> nodup_keys (dict_set k v d) = true.
Proof.
  induction d as [|[k0 v0] d IH]; simpl; auto.
  intros H. apply andb_true_iff in H as [H1 H2].
  destruct (String.eqb k k0) eqn:E; simpl.
  - now rewrite H1, H2.
  - rewrite IH by assumption. rewrite dict_mem_set.
    rewrite String.eqb_sym, E. simpl. now rewrite H1.
Qed.

Lemma nodup_keys_remove d k :
  nodup_keys d = true -> nodup_keys (dict_remove k d) = true.
Proof.
  induction d as [|[k0 v0] d IH]; simpl; auto.
  intros H. apply andb_true_iff in H as [H1 H2].
  destruct (String.eqb k k0) eqn:E; simpl; auto.
  rewrite IH by assumption.
  rewrite dict_mem_remove_other.
  - now rewrite H1.
  - intros ->. rewrite String.eqb_refl in E. discriminate.
Qed.

Lemma dict_get_In d k v : dict_get k d = Some v -> In (k, v) d.
Proof.
  induction d as [|[k0 v0] d IH]; simpl; try discriminate.
  destruct (String.eqb k k0) eqn:E.
  - apply String.eqb_eq in E. intros [= ->]. subst. now left.
  - intros. right. auto.
Qed.

Lemma In_dict_mem d k v : In (k, v) d -> dict_mem k d = true.
Proof.
  unfold dict_mem.
  induction d as [|[k0 v0] d IH]; simpl; [easy|].
  intros [[= -> ->]|H].
  - now rewrite String.eqb_refl.
  - destruct (String.eqb k k0); auto.
Qed.

Lemma In_dict_get d k v :
  nodup_keys d = true -> In (k, v) d -> dict_get k d = Some v.
Proof.
  induction d as [|[k0 v0] d IH]; simpl; [easy|].
  intros H. apply andb_true_iff in H as [H1 H2].
  intros [[= -> ->]|Hin].
  - now rewrite String.eqb_refl.
  - destruct (String.eqb k k0) eqn:E; auto.
    apply String.eqb_eq in E. subst k0.
    apply In_dict_mem in Hin. rewrite Hin in H1. discriminate.
Qed.

Lemma dict_mem_In_keys d k : dict_mem k d = true <-> In k (dict_keys d).
Proof.
  unfold dict_mem, dict_keys.
  induction d as [|[k0 v0] d IH]; simpl; [easy|].
  destruct (String.eqb k k0) eqn:E.
  - apply String.eqb_eq in E. subst. tauto.
  - rewrite IH. split; auto. intros [->|]; auto.
    rewrite String.eqb_refl in E. discriminate.
Qed.

Lemma dict_keys_set_mem d k v :
  dict_mem k d = true -> dict_keys (dict_set k v d) = dict_keys d.
Proof.
  unfold dict_mem, dict_keys.
  induction d as [|[k0 v0] d IH]; simpl; [discriminate|].
  destruct (String.eqb k k0) eqn:E; simpl; auto.
  intros. f_equal. auto.
Qed.
End DictFacts.

(** ** The loop of [create_flat_dict] *)

Section FlatLoop.
Variable rec : value -> outcome value.
Variable required : value.

Lemma flat_entry_value k v md :
  flat_entry rec required k v md =
  match flat_value rec required k v with
  | Ok (Some y) => Ok (dict_set k y md)
  | Ok None => dict_pop k md
  | Raise e => Raise e
  end.
Proof.
  destruct v; simpl; unfold bind; try solve [destruct (rec _); reflexivity].
  - destruct (is_required required k) as [[|]|]; reflexivity.
  - destruct (flat_list rec items); reflexivity.
Qed.

Lemma pending_step k v items md md1 :
  nodup_keys ((k, v) :: items) = true ->
  pending ((k, v) :: items) md ->
  flat_entry rec required k v md = Ok md1 ->
  pending items md1.
Proof.
  intros Hnd Hp He k' Hin.
  simpl in Hnd. apply andb_true_iff in Hnd as [Hk _].
  assert (Hne : k' <> k).
  { intros ->. apply dict_mem_In_keys in Hin. rewrite Hin in Hk. discriminate. }
  assert (Hm : dict_mem k' md = true) by (apply Hp; simpl; auto).
  rewrite flat_entry_value in He.
  destruct (flat_value rec required k v) as [[y|]|]; try discriminate.
  - injection He as <-. rewrite dict_mem_set, Hm. apply orb_true_r.
  - unfold dict_pop in He. destruct (dict_mem k md); try discriminate.
    injection He as <-. now rewrite dict_mem_remove_other.
Qed.

Lemma flat_loop_ok items : forall md md',
  nodup_keys items = true ->
  nodup_keys md = true ->
  pending items md ->
  flat_loop rec required items md = Ok md' ->
  nodup_keys md' = true /\
  (forall k v, In (k, v) items ->
     exists r, flat_value rec required k v = Ok r /\ dict_get k md' = r) /\
  (forall k, dict_mem k items = false -> dict_get k md' = dict_get k md).
Proof.
  induction items as [|[k0 v0] items IH]; intros md md' Hnd Hmd Hp Hl.
  - simpl in Hl. injection Hl as <-. repeat split; auto. intros ? ? [].
  - simpl in Hl.
    destruct (flat_entry rec required k0 v0 md) as [md1|] eqn:He;
      simpl in Hl; try discriminate.
    pose proof (pending_step _ _ _ _ _ Hnd Hp He) as Hp1.
    pose proof Hnd as Hnd'. simpl in Hnd'.
    apply andb_true_iff in Hnd' as [Hk0 Hnd'].
    apply negb_true_iff in Hk0.
    assert (Hmd1 : nodup_keys md1 = true /\
                   exists r, flat_value rec required k0 v0 = Ok r /\
                             dict_get k0 md1 = r /\
                             forall k, k <> k0 -> dict_get k md1 = dict_get k md).
    { rewrite flat_entry_value in He.
      destruct (flat_value rec required k0 v0) as [[y|]|]; try discriminate.
      - injection He as <-. split; [now apply nodup_keys_set|].
        exists (Some y). repeat split; auto using dict_get_set_same.
        intros. now apply dict_get_set_other.
      - unfold dict_pop in He. destruct (dict_mem k0 md); try discriminate.
        injection He as <-. split; [now apply nodup_keys_remove|].
        exists None. repeat split; auto using dict_get_remove_same.
        intros. now apply dict_get_remove_other. }
    destruct Hmd1 as [Hmd1 (r0 & Hr0 & Hg0 & Hother)].
    destruct (IH md1 md' Hnd' Hmd1 Hp1 Hl) as (Hmd' & Hitems & Hrest).
    split; [assumption|]. split.
    + intros k v [[= -> ->]|Hin].
      * exists r0. split; auto. rewrite Hrest by assumption. assumption.
      * now apply Hitems.
    + intros k Hk. unfold dict_mem in Hk. simpl in Hk.
      destruct (String.eqb k k0) eqn:E; try discriminate.
      rewrite Hrest by exact Hk. apply Hother.
      intros ->. rewrite String.eqb_refl in E. discriminate.
Qed.

Lemma flat_loop_total items : forall md,
  nodup_keys items = true ->
  pending items md ->
  (forall k v, In (k, v) items -> is_ok (flat_value rec required k v) = true) ->
  exists md', flat_loop rec required items md = Ok md'.
Proof.
  induction items as [|[k0 v0] items IH]; intros md Hnd Hp Hall.
  - now exists md.
  - simpl.
    assert (He : exists md1, flat_entry rec required k0 v0 md = Ok md1).
    { rewrite flat_entry_value.
      specialize (Hall k0 v0 (or_introl eq_refl)).
      destruct (flat_value rec required k0 v0) as [[y|]|]; try discriminate.
      - eauto.
      - unfold dict_pop. rewrite (Hp k0) by (simpl; auto). eauto. }
    destruct He as [md1 He]. rewrite He. simpl.
    apply IH.
    + simpl in Hnd. now apply andb_true_iff in Hnd as [_ Hnd].
    + eapply pending_step; eauto.
    + intros. apply Hall. now right.
Qed.


End FlatLoop.

Lemma pending_self (items : list (string * value)) : pending items items.
Proof. intros k Hk. now apply dict_mem_In_keys. Qed.

Lemma flat_list_Forall2 rec xs : forall ys,
  flat_list rec xs = Ok ys ->
  Forall2 (fun x y => rec x = Ok y) (filter not_none xs) ys.
Proof.
  induction xs as [|x xs IH]; intros ys H; simpl in H.
  - injection H as <-. constructor.
  - unfold not_none at 1. simpl. destruct (is_none x); simpl; auto.
    destruct (rec x) as [y|] eqn:Hx; simpl in H; try discriminate.
    destruct (flat_list rec xs) as [ys'|]; simpl in H; try discriminate.
    injection H as <-. constructor; auto.
Qed.

Lemma flat_list_total rec xs :
  (forall x, In x xs -> is_none x = false -> is_ok (rec x) = true) ->
  exists ys, flat_list rec xs = Ok ys.
Proof.
  induction xs as [|x xs IH]; intros H; simpl; eauto.
  destruct IH as [ys Hys]; [intros; apply H; simpl; auto|].
  destruct (is_none x) eqn:E; eauto.
  specialize (H x (or_introl eq_refl) E).
  destruct (rec x); try discriminate. simpl. rewrite Hys. simpl. eauto.
Qed.

(** ** Flattening: null properties and sequences *)

Lemma create_flat_dict_inst cls attrs :
  create_flat_dict (VInst cls attrs) =
  match flat_loop create_flat_dict (getattr_required cls attrs) attrs attrs with
  | Ok model_dict => Ok (VDict model_dict)
  | Raise e => Raise e
  end.
Proof. reflexivity. Qed.

Lemma create_flat_dict_not_none v : create_flat_dict v = Ok VNone -> v = VNone.
Proof.
  destruct v; simpl; try discriminate; auto.
  destruct (flat_loop _ _ _ _); discriminate.
Qed.


Lemma create_flat_dict_total cls attrs :
  nodup_keys attrs = true ->
  (forall k v, In (k, v) attrs ->
     is_ok (flat_value create_flat_dict (getattr_required cls attrs) k v) = true) ->
  exists d, create_flat_dict (VInst cls attrs) = Ok (VDict d).
Proof.
  intros Hnd Hall. rewrite create_flat_dict_inst.
  destruct (flat_loop_total create_flat_dict (getattr_required cls attrs)
              attrs attrs Hnd (pending_self attrs) Hall) as [md Hmd].
  rewrite Hmd. eauto.
Qed.

Lemma create_flat_dict_entries cls attrs out :
  nodup_keys attrs = true ->
  create_flat_dict (VInst cls attrs) = Ok out ->
  exists d, out = VDict d /\
    (forall k v, In (k, v) attrs ->
       exists r, flat_value create_flat_dict (getattr_required cls attrs) k v = Ok r /\
                 dict_get k d = r) /\
    (forall k, dict_mem k attrs = false -> dict_get k d = None).
Proof.
  intros Hnd H. rewrite create_flat_dict_inst in H.
  destruct (flat_loop _ _ _ _) as [md|] eqn:Hl; try discriminate.
  injection H as <-. exists md. split; [reflexivity|].
  destruct (flat_loop_ok _ _ _ _ _ Hnd Hnd (pending_self attrs) Hl) as (_ & H1 & H2).
  split; [exact H1|].
  intros k Hk. rewrite H2 by exact Hk. now apply dict_mem_false_get.
Qed.


(** C9.  Flattening an instance whose attribute [k] holds the list [xs]:
    in the mapping returned, [k] holds the list of the flattened non-null
    elements of [xs], in their order; for [xs = [T1; None; T2]] that is the
    two-element list of the flattened [T1] and [T2].  Flattening succeeds
    when every attribute can be flattened. *)
Theorem create_flat_dict_list_property (cls : model_type) (attrs : dict)
    (k : string) (xs : list value) :
  nodup_keys attrs = true ->
  dict_get k attrs = Some (VList xs) ->
  (forall out, create_flat_dict (VInst cls attrs) = Ok out ->
     exists d ys, out = VDict d /\ dict_get k d = Some (VList ys) /\
       Forall2 (fun x y => create_flat_dict x = Ok y) (filter not_none xs) ys)
  /\
  (forall T1 T2 out,
     xs = [T1; VNone; T2] -> is_none T1 = false -> is_none T2 = false ->
     create_flat_dict (VInst cls attrs) = Ok out ->
     exists d y1 y2, out = VDict d /\ dict_get k d = Some (VList [y1; y2]) /\
       create_flat_dict T1 = Ok y1 /\ create_flat_dict T2 = Ok y2)
  /\
  ((forall k' v', In (k', v') attrs ->
      is_ok (flat_value create_flat_dict (getattr_required cls attrs) k' v') = true) ->
   exists d, create_flat_dict (VInst cls attrs) = Ok (VDict d)).
Proof.
  intros Hnd Hk.
  assert (Hmain : forall out, create_flat_dict (VInst cls attrs) = Ok out ->
     exists d ys, out = VDict d /\ dict_get k d = Some (VList ys) /\
       Forall2 (fun x y => create_flat_dict x = Ok y) (filter not_none xs) ys).
  { intros out Hout.
    destruct (create_flat_dict_entries _ _ _ Hnd Hout) as (d & -> & Hin & _).
    destruct (Hin k (VList xs) (dict_get_In _ _ _ Hk)) as (r & Hr & Hd).
    simpl in Hr.
    destruct (flat_list create_flat_dict xs) as [ys|] eqn:Hys; simpl in Hr;
      try discriminate.
    injection Hr as <-. exists d, ys. repeat split; auto.
    now apply flat_list_Forall2. }
  split; [exact Hmain|]. split.
  - intros T1 T2 out -> H1 H2 Hout.
    destruct (Hmain out Hout) as (d & ys & -> & Hd & Hall).
    simpl in Hall. unfold not_none in Hall. rewrite H1, H2 in Hall. simpl in Hall.
    inversion Hall as [|? y1 ? ys1 Hy1 Hrest]; subst.
    inversion Hrest as [|? y2 ? ys2 Hy2 Hnil]; subst.
    inversion Hnil; subst.
    exists d, y1, y2. auto.
  - now apply create_flat_dict_total.
Qed.



Lemma create_flat_dict_list_property_witness :
  nodup_keys pet_rex_attrs = true /\
  dict_get "tags" pet_rex_attrs = Some (VList [tag 1 "a"; VNone; tag 2 "b"]) /\
  exists d y1 y2,
    create_flat_dict (VInst Pet pet_rex_attrs) = Ok (VDict d) /\
    dict_get "tags" d = Some (VList [y1; y2]) /\
    create_flat_dict (tag 1 "a") = Ok y1 /\
    create_flat_dict (tag 2 "b") = Ok y2.
Proof.
  split; [reflexivity|]. split; [reflexivity|].
  destruct (create_flat_dict_list_property Pet pet_rex_attrs "tags"
              [tag 1 "a"; VNone; tag 2 "b"] eq_refl eq_refl) as (_ & H & Htotal).
  destruct Htotal as [d Hd].
  - intros k' v' Hin. simpl in Hin.
    destruct Hin as [Hin|[Hin|[Hin|[]]]]; injection Hin as <- <-; reflexivity.
  - destruct (H (tag 1 "a") (tag 2 "b") _ eq_refl eq_refl eq_refl Hd)
      as (d' & y1 & y2 & Heq & Hg & H1 & H2).
    injection Heq as <-. exists d, y1, y2. auto.
Defined.

(** ** Equality *)

Lemma nodup_keys_NoDup {V : Type} (d : list (string * V)) :
  nodup_keys d = true <-> NoDup (dict_keys d).
Proof.
  induction d as [|[k v] d IH]; simpl.
  - split; [constructor|reflexivity].
  - rewrite andb_true_iff, negb_true_iff, IH. split.
    + intros [Hk Hd]. constructor; auto.
      intros Hin. apply dict_mem_In_keys in Hin. congruence.
    + intros H. inversion H as [|? ? Hk Hd]; subst. split; auto.
      destruct (dict_mem k d) eqn:E; auto.
      apply dict_mem_In_keys in E. contradiction.
Qed.

Lemma dict_get_norm (d : dict) k :
  dict_get k (norm_dict d) = if String.eqb k "_raw" then None else dict_get k d.
Proof.
  unfold norm_dict. induction d as [|[k0 v0] d IH]; simpl.
  - now destruct (String.eqb k "_raw").
  - destruct (String.eqb k0 "_raw") eqn:E0; simpl.
    + apply String.eqb_eq in E0. subst k0. rewrite IH.
      destruct (String.eqb k "_raw"); reflexivity.
    + rewrite IH. destruct (String.eqb k k0) eqn:E; auto.
      apply String.eqb_eq in E. subst k0. now rewrite E0.
Qed.

Lemma nodup_keys_norm (d : dict) :
  nodup_keys d = true -> nodup_keys (norm_dict d) = true.
Proof.
  unfold norm_dict. induction d as [|[k0 v0] d IH]; simpl; auto.
  intros H. apply andb_true_iff in H as [H1 H2].
  destruct (String.eqb k0 "_raw") eqn:E0; simpl; auto.
  rewrite IH by assumption. rewrite andb_true_r.
  apply negb_true_iff in H1. apply negb_true_iff.
  unfold dict_mem in *. fold (norm_dict d). rewrite dict_get_norm, E0.
  exact H1.
Qed.

Lemma dict_get_None_keys {V : Type} (d : list (string * V)) k :
  dict_get k d = None <-> ~ In k (dict_keys d).
Proof.
  rewrite <- dict_mem_In_keys. unfold dict_mem.
  destruct (dict_get k d); split; intros H; try congruence; try discriminate;
    try (exfalso; now apply H).
Qed.

Lemma dict_eqb_spec (eqv : value -> value -> bool) (d1 d2 : dict) :
  nodup_keys d1 = true -> nodup_keys d2 = true ->
  (dict_eqb eqv d1 d2 = true <->
   forall k, attr_eq eqv (dict_get k d1) (dict_get k d2)).
Proof.
  intros H1 H2. unfold dict_eqb.
  rewrite andb_true_iff, Nat.eqb_eq, forallb_forall.
  pose proof (proj1 (nodup_keys_NoDup d1) H1) as N1.
  pose proof (proj1 (nodup_keys_NoDup d2) H2) as N2.
  split.
  - intros [Hlen Hall] k.
    assert (Hincl : incl (dict_keys d1) (dict_keys d2)).
    { intros k' Hk'. apply dict_mem_In_keys in Hk'. unfold dict_mem in Hk'.
      destruct (dict_get k' d1) as [v|] eqn:E; try discriminate.
      specialize (Hall (k', v) (dict_get_In _ _ _ E)). simpl in Hall.
      apply dict_mem_In_keys. unfold dict_mem.
      destruct (dict_get k' d2); [reflexivity|discriminate]. }
    assert (Hincl' : incl (dict_keys d2) (dict_keys d1)).
    { apply NoDup_length_incl; auto.
      unfold dict_keys. rewrite !length_map. lia. }
    destruct (dict_get k d1) as [v|] eqn:E.
    + specialize (Hall (k, v) (dict_get_In _ _ _ E)). simpl in Hall.
      destruct (dict_get k d2); simpl; [assumption|discriminate].
    + destruct (dict_get k d2) as [v'|] eqn:E'; simpl; auto.
      apply dict_get_None_keys in E. apply E, Hincl'.
      apply dict_mem_In_keys. unfold dict_mem. now rewrite E'.
  - intros Hall. split.
    + assert (Hi1 : incl (dict_keys d1) (dict_keys d2)).
      { intros k Hk. specialize (Hall k).
        apply dict_mem_In_keys in Hk. unfold dict_mem in Hk.
        apply dict_mem_In_keys. unfold dict_mem.
        destruct (dict_get k d1); try discriminate.
        destruct (dict_get k d2); [reflexivity|contradiction]. }
      assert (Hi2 : incl (dict_keys d2) (dict_keys d1)).
      { intros k Hk. specialize (Hall k).
        apply dict_mem_In_keys in Hk. unfold dict_mem in Hk.
        apply dict_mem_In_keys. unfold dict_mem.
        destruct (dict_get k d2); try discriminate.
        destruct (dict_get k d1); [reflexivity|contradiction]. }
      pose proof (NoDup_incl_length N1 Hi1) as L1.
      pose proof (NoDup_incl_length N2 Hi2) as L2.
      unfold dict_keys in L1, L2. rewrite !length_map in L1, L2. lia.
    + intros [k v] Hin. simpl. specialize (Hall k).
      rewrite (In_dict_get _ _ _ H1 Hin) in Hall.
      destruct (dict_get k d2); simpl in Hall; [assumption|contradiction].
Qed.

Lemma forallb_skip_raw (f : string * value -> bool) (d : dict) :
  forallb (fun kv => if String.eqb (fst kv) "_raw" then true else f kv) d =
  forallb f (norm_dict d).
Proof.
  unfold norm_dict. induction d as [|[k v] d IH]; simpl; auto.
  destruct (String.eqb k "_raw"); simpl; now rewrite IH.
Qed.

(** The [__eq__] of an instance is [compare]. *)
Lemma py_eq_inst cls attrs (other : value) :
  py_eq (VInst cls attrs) other = compare (VInst cls attrs) other.
Proof.
  destruct other; try reflexivity.
  simpl. unfold dict_eqb. now rewrite forallb_skip_raw.
Qed.

(** C5.  [compare] holds of two values exactly when both have a [__dict__]
    and the two dicts, without their ['_raw'] key, have the same keys with
    values that Python's [==] holds equal.  A value without [__dict__] is
    equal to nothing, and the classes of the two values play no part. *)
Theorem compare_property (first second : value) :
  attrs_nodup first = true ->
  attrs_nodup second = true ->
  (compare first second = true <->
   exists d1 d2,
     get__dict__ first = Some d1 /\ get__dict__ second = Some d2 /\
     forall k, k <> "_raw" -> attr_eq py_eq (dict_get k d1) (dict_get k d2))
  /\
  (get__dict__ first = None ->
   compare first second = false /\ compare second first = false)
  /\
  (forall c1 c2 d1 d2,
     get__dict__ first = Some d1 -> get__dict__ second = Some d2 ->
     compare (VInst c1 d1) (VInst c2 d2) = compare first second).
Proof.
  intros W1 W2. unfold attrs_nodup in *. split; [|split].
  - unfold compare.
    destruct (get__dict__ first) as [d1|]; [|split; [discriminate|]].
    + destruct (get__dict__ second) as [d2|]; [|split; [discriminate|]].
      * rewrite dict_eqb_spec by now apply nodup_keys_norm.
        split.
        -- intros H. exists d1, d2. repeat split; auto.
           intros k Hk. specialize (H k). rewrite !dict_get_norm in H.
           apply String.eqb_neq in Hk. now rewrite Hk in H.
        -- intros (d1' & d2' & [= <-] & [= <-] & H) k.
           rewrite !dict_get_norm.
           destruct (String.eqb k "_raw") eqn:E; simpl; auto.
           apply H. now apply String.eqb_neq.
      * intros (? & ? & _ & ? & _). discriminate.
    + intros (? & ? & ? & _). discriminate.
  - intros Hn. unfold compare. rewrite Hn.
    split; [reflexivity|]. now destruct (get__dict__ second).
  - intros c1 c2 d1 d2 H1 H2. unfold compare. rewrite H1, H2. reflexivity.
Qed.

Lemma compare_property_witness :
  let first := VInst Pet [("id", VInt 1); ("name", VStr "x"); ("_raw", VStr "a")] in
  let second := VInst Tag [("name", VStr "x"); ("_raw", VInt 0); ("id", VBool true)] in
  attrs_nodup first = true /\ attrs_nodup second = true /\
  exists d1 d2,
    get__dict__ first = Some d1 /\ get__dict__ second = Some d2 /\
    forall k, k <> "_raw" -> attr_eq py_eq (dict_get k d1) (dict_get k d2).
Proof.
  intros first second.
  split; [reflexivity|]. split; [reflexivity|].
  apply (proj1 (proj1 (compare_property first second eq_refl eq_refl))).
  reflexivity.
Defined.

(** ** Tagging *)

Lemma py_eq_object (t : value) : py_eq t (VStr "object") = is_object t.
Proof. destruct t; reflexivity. Qed.

Lemma tag_model_tagged (name : string) (d : dict) :
  exists d', tag_model name (VDict d) = Ok (VDict d') /\
             tagged name (VDict d) (VDict d').
Proof.
  unfold tag_model. fold (declared_type d).
  assert (Hmarker : "type" <> MODEL_MARKER) by discriminate.
  destruct (is_none (declared_type d)) eqn:En; simpl fst; simpl snd.
  - rewrite py_eq_object. simpl.
    eexists. split; [reflexivity|].
    exists d, (dict_set MODEL_MARKER (VStr name) (dict_set "type" (VStr "object") d)).
    unfold effective_type. rewrite En. simpl is_object. cbv iota.
    split; [reflexivity|]. split; [reflexivity|]. split; [|split; [|split]].
    + rewrite dict_get_set_other by assumption. apply dict_get_set_same.
    + intros k Hk1 Hk2. now rewrite !dict_get_set_other by assumption.
    + apply dict_get_set_same.
    + reflexivity.
  - assert (Ht : dict_get "type" d = Some (declared_type d)).
    { unfold declared_type in *. destruct (dict_get "type" d); [reflexivity|discriminate]. }
    rewrite py_eq_object.
    destruct (is_object (declared_type d)) eqn:Eo.
    + eexists. split; [reflexivity|].
      exists d, (dict_set MODEL_MARKER (VStr name) d).
      unfold effective_type. rewrite En, Eo.
      split; [reflexivity|]. split; [reflexivity|]. split; [|split; [|split]].
      * now rewrite dict_get_set_other by assumption.
      * intros k Hk1 Hk2. now rewrite dict_get_set_other by assumption.
      * apply dict_get_set_same.
      * reflexivity.
    + exists d. split; [reflexivity|].
      exists d, d. unfold effective_type. rewrite En, Eo.
      split; [reflexivity|]. split; [reflexivity|]. split; [|split; [|split]];
        auto.
Qed.

Lemma tag_models_loop_tagged (models_dict : dict) :
  (forall name spec, In (name, spec) models_dict -> is_dict_like spec = true) ->
  exists models_dict',
    tag_models_loop models_dict = Ok models_dict' /\
    Forall2 (fun e e' => fst e' = fst e /\ tagged (fst e) (snd e) (snd e'))
            models_dict models_dict'.
Proof.
  induction models_dict as [|[name spec] rest IH]; intros Hd.
  - exists []. split; [reflexivity|constructor].
  - destruct IH as (rest' & Hrest & Hall); [intros; eapply Hd; right; eauto|].
    assert (Hs : is_dict_like spec = true) by (eapply Hd; left; reflexivity).
    destruct spec; try discriminate.
    destruct (tag_model_tagged name items) as (d' & Ht & Htag).
    exists ((name, VDict d') :: rest'). split.
    + change (tag_models_loop ((name, VDict items) :: rest))
        with (model_spec' <- tag_model name (VDict items) ;;
              rest' <- tag_models_loop rest ;;
              Ok ((name, model_spec') :: rest')).
      rewrite Ht. simpl. rewrite Hrest. reflexivity.
    + constructor; auto.
Qed.

(** C6.  Tagging a document whose [definitions] are model schemas: every
    entry keeps its name; an entry that declares no type gets the type
    ["object"]; exactly when the type, after this defaulting, is ["object"]
    the entry gets the model marker, with the entry's own name as its value,
    and an entry of another type is left as it was; nothing else in an entry
    changes.  [is_model] of a fragment tells whether it carries the marker.
    A document without [definitions] is left as it was. *)
Theorem tag_models_property (sd : dict) :
  (forall models_dict,
     dict_get "definitions" sd = Some (VDict models_dict) ->
     (forall name spec, In (name, spec) models_dict -> is_dict_like spec = true) ->
     exists models_dict',
       tag_models (VDict sd) =
         Ok (VDict (dict_set "definitions" (VDict models_dict') sd)) /\
       Forall2 (fun e e' => fst e' = fst e /\ tagged (fst e) (snd e) (snd e'))
               models_dict models_dict')
  /\
  (dict_get "definitions" sd = None -> tag_models (VDict sd) = Ok (VDict sd))
  /\
  (forall d, is_model (VDict d) = Ok (dict_mem MODEL_MARKER d)).
Proof.
  split; [|split].
  - intros models_dict Hdefs Hd.
    destruct (tag_models_loop_tagged models_dict Hd) as (md' & Hl & Hall).
    exists md'. split; [|exact Hall].
    unfold tag_models. rewrite Hdefs, Hl. reflexivity.
  - intros Hdefs. unfold tag_models. now rewrite Hdefs.
  - reflexivity.
Qed.

Lemma tag_models_property_witness :
  let sd := [("swagger", VStr "2.0"); ("definitions", VDict petstore_definitions)] in
  dict_get "definitions" sd = Some (VDict petstore_definitions) /\
  (forall name spec, In (name, spec) petstore_definitions -> is_dict_like spec = true) /\
  exists models_dict',
    tag_models (VDict sd) =
      Ok (VDict (dict_set "definitions" (VDict models_dict') sd)) /\
    Forall2 (fun e e' => fst e' = fst e /\ tagged (fst e) (snd e) (snd e'))
            petstore_definitions models_dict'.
Proof.
  intros sd.
  assert (Hd : forall name spec,
             In (name, spec) petstore_definitions -> is_dict_like spec = true).
  { intros name spec Hin. simpl in Hin.
    destruct Hin as [Hin|[Hin|[Hin|[]]]]; injection Hin as <- <-; reflexivity. }
  split; [reflexivity|]. split; [exact Hd|].
  exact (proj1 (tag_models_property sd) petstore_definitions eq_refl Hd).
Defined.

(** ** Reference normalization *)

Lemma dict_set_app_fresh {V : Type} (pre : list (string * V)) k v y rest :
  dict_mem k pre = false ->
  dict_set k y (pre ++ (k, v) :: rest) = pre ++ (k, y) :: rest.
Proof.
  unfold dict_mem. induction pre as [|[k0 v0] pre IH]; simpl; intros Hk.
  - now rewrite String.eqb_refl.
  - destruct (String.eqb k k0); [discriminate|]. now rewrite IH.
Qed.

Lemma nodup_keys_app_head {V : Type} (pre : list (string * V)) k v rest :
  nodup_keys (pre ++ (k, v) :: rest) = true ->
  dict_mem k pre = false /\ nodup_keys ((pre ++ [(k, v)]) ++ rest) = true.
Proof.
  intros H. split.
  - apply nodup_keys_NoDup in H. unfold dict_keys in H. rewrite map_app in H.
    simpl in H. apply NoDup_remove_2 in H.
    destruct (dict_mem k pre) eqn:E; auto.
    apply dict_mem_In_keys in E. exfalso. apply H. apply in_or_app. now left.
  - now rewrite <- app_assoc.
Qed.

Section Normalizer.
Context `{Collaborators}.
Variable model_names : list value.

Lemma descend_items_map (rec : value -> value) (items : list (string * value)) :
  forall pre,
    nodup_keys (pre ++ items) = true ->
    descend_items rec model_names items (pre ++ items) =
    pre ++ map (fun kv =>
                  (fst kv,
                   if is_bare_ref model_names (fst kv) (snd kv)
                   then VStr (canonical (format0 (snd kv)))
                   else rec (snd kv))) items.
Proof.
  induction items as [|[k v] items IH]; intros pre Hnd; [reflexivity|].
  destruct (nodup_keys_app_head _ _ _ _ Hnd) as [Hk Hnd'].
  simpl. unfold is_bare_ref. simpl.
  destruct (String.eqb k "$ref" && py_in v model_names).
  - rewrite dict_set_app_fresh by assumption.
    change (pre ++ (k, VStr (canonical (format0 v))) :: items)
      with (pre ++ [(k, VStr (canonical (format0 v)))] ++ items).
    rewrite app_assoc. rewrite IH.
    + now rewrite <- app_assoc.
    + rewrite <- app_assoc. simpl. rewrite <- app_assoc in Hnd'. simpl in Hnd'.
      apply nodup_keys_NoDup. apply nodup_keys_NoDup in Hnd'.
      unfold dict_keys in *. rewrite map_app in *. exact Hnd'.
  - rewrite dict_set_app_fresh by assumption.
    change (pre ++ (k, rec v) :: items) with (pre ++ [(k, rec v)] ++ items).
    rewrite app_assoc. rewrite IH.
    + now rewrite <- app_assoc.
    + rewrite <- app_assoc. simpl. rewrite <- app_assoc in Hnd'. simpl in Hnd'.
      apply nodup_keys_NoDup. apply nodup_keys_NoDup in Hnd'.
      unfold dict_keys in *. rewrite map_app in *. exact Hnd'.
Qed.

(** On a document whose dicts have distinct keys, the loop of the source,
    which assigns into the dict it walks, computes the normalizer of the
    specification. *)
Lemma descend_normalize (v : value) :
  wf_value v = true -> descend model_names v = normalize model_names v.
Proof.
  induction v as [| | | |l IH|d IH|cls d IH] using value_ind';
    intros Hwf; try reflexivity.
  - simpl. f_equal. simpl in Hwf. rewrite forallb_forall in Hwf.
    apply map_ext_in. intros x Hx. rewrite Forall_forall in IH. auto.
  - simpl in Hwf. apply andb_true_iff in Hwf as [Hnd Hall].
    rewrite forallb_forall in Hall. rewrite Forall_forall in IH.
    simpl. f_equal.
    rewrite (descend_items_map (descend model_names) d [] Hnd). simpl.
    apply map_ext_in. intros kv Hkv.
    destruct (is_bare_ref model_names (fst kv) (snd kv)); [reflexivity|].
    f_equal. auto.
Qed.
End Normalizer.

Lemma py_in_strings (names : list string) (v : value) :
  py_in v (map VStr names) =
  match v with VStr n => mem_string n names | _ => false end.
Proof.
  unfold py_in. induction names as [|m names IH]; simpl.
  - now destruct v.
  - rewrite IH. destruct v; reflexivity.
Qed.

Lemma dict_get_map_entry {A B : Type} (g : string -> A -> B)
    (d : list (string * A)) k :
  dict_get k (map (fun kv => (fst kv, g (fst kv) (snd kv))) d) =
  option_map (g k) (dict_get k d).
Proof.
  induction d as [|[k0 v0] d IH]; simpl; auto.
  destruct (String.eqb k k0) eqn:E; auto.
  apply String.eqb_eq in E. now subst.
Qed.

Section NormalizerPaths.
Context `{Collaborators}.
Variable model_names : list string.

Lemma normalized_entry k c :
  (if is_bare_ref (map VStr model_names) k c
   then VStr (canonical (format0 c))
   else normalize (map VStr model_names) c) =
  normalized_at model_names (Some (Key k)) c.
Proof.
  unfold is_bare_ref, normalized_at. rewrite py_in_strings.
  destruct c; try (rewrite andb_false_r; reflexivity).
  destruct (String.eqb k "$ref" && mem_string s model_names); reflexivity.
Qed.

Lemma get_path_string_step s p last n :
  get_path (s :: p) (normalized_at model_names last (VStr n)) = None.
Proof.
  unfold normalized_at.
  destruct last as [[k|i]|]; simpl; try (destruct s; reflexivity).
  destruct (String.eqb k "$ref" && mem_string n model_names); destruct s; reflexivity.
Qed.

Lemma normalized_at_container last v :
  is_scalar v = false ->
  normalized_at model_names last v = normalize (map VStr model_names) v.
Proof.
  unfold normalized_at. destruct v; try discriminate;
    destruct last as [[k|i]|]; reflexivity.
Qed.

Lemma get_path_normalized p : forall last v,
  get_path p (normalized_at model_names last v) =
  option_map (normalized_at model_names (last_step_from last p)) (get_path p v).
Proof.
  induction p as [|s p IH]; intros last v; [reflexivity|].
  change (last_step_from last (s :: p)) with (last_step_from (Some s) p).
  destruct v as [| | |n|l|d|cls d].
  - unfold normalized_at. destruct last as [[k|i]|]; destruct s; reflexivity.
  - unfold normalized_at. destruct last as [[k|i]|]; destruct s; reflexivity.
  - unfold normalized_at. destruct last as [[k|i]|]; destruct s; reflexivity.
  - rewrite get_path_string_step. destruct s; reflexivity.
  - rewrite normalized_at_container by reflexivity.
    destruct s as [k|i]; [reflexivity|].
    simpl. rewrite nth_error_map.
    destruct (nth_error l i) as [c|]; [|reflexivity]. simpl.
    change (normalize (map VStr model_names) c)
      with (normalized_at model_names (Some (Index i)) c).
    apply IH.
  - rewrite normalized_at_container by reflexivity.
    destruct s as [k|i]; [|reflexivity].
    simpl.
    rewrite (dict_get_map_entry
               (fun k c => if is_bare_ref (map VStr model_names) k c
                           then VStr (canonical (format0 c))
                           else normalize (map VStr model_names) c)).
    destruct (dict_get k d) as [c|]; [|reflexivity]. simpl.
    rewrite normalized_entry. apply IH.
  - unfold normalized_at. destruct last as [[k|i]|]; destruct s; reflexivity.
Qed.

Lemma normalized_at_scalar last v :
  is_scalar v = true ->
  is_declared_ref model_names last v = false ->
  normalized_at model_names last v = v.
Proof.
  unfold normalized_at, is_declared_ref.
  destruct v; try discriminate; intros _ Hr;
    destruct last as [[k|i]|]; try reflexivity.
  now rewrite Hr.
Qed.

Lemma fix_malformed_model_refs_descend (sd : dict) :
  declared_names sd = Some model_names ->
  fix_malformed_model_refs (VDict sd) =
  Ok (descend (map VStr model_names) (VDict sd)).
Proof.
  unfold declared_names, fix_malformed_model_refs.
  destruct (dict_get "definitions" sd) as [[| | | | |defs|]|];
    try discriminate; intros [= <-]; reflexivity.
Qed.
End NormalizerPaths.

(** C7 (as amended).  Normalizing a document whose dicts have distinct
    keys, [names] being the model names it declares: at every place, at any
    depth through mappings and sequences, the entry ['$ref'] of a mapping
    whose value is a declared model name holds the canonical pointer of that
    name afterwards; any other scalar is left as it was, among them the
    ['$ref'] values that are no declared name, and those in canonical pointer
    form that are no declared name themselves; mappings keep their keys and
    sequences their length, and no place appears or disappears. *)
Theorem fix_malformed_model_refs_property `{Collaborators}
    (sd : dict) (names : list string) :
  wf_value (VDict sd) = true ->
  declared_names sd = Some names ->
  exists out,
    fix_malformed_model_refs (VDict sd) = Ok out /\
    (forall p n,
       get_path p (VDict sd) = Some (VStr n) ->
       last_step p = Some (Key "$ref") -> mem_string n names = true ->
       get_path p out = Some (VStr (canonical n))) /\
    (forall p v,
       get_path p (VDict sd) = Some v -> is_scalar v = true ->
       is_declared_ref names (last_step p) v = false ->
       get_path p out = Some v) /\
    (forall p n,
       get_path p (VDict sd) = Some (VStr (canonical n)) ->
       mem_string (canonical n) names = false ->
       get_path p out = Some (VStr (canonical n))) /\
    (forall p d,
       get_path p (VDict sd) = Some (VDict d) ->
       exists d', get_path p out = Some (VDict d') /\ dict_keys d' = dict_keys d) /\
    (forall p l,
       get_path p (VDict sd) = Some (VList l) ->
       exists l', get_path p out = Some (VList l') /\
                  List.length l' = List.length l) /\
    (forall p, get_path p (VDict sd) = None -> get_path p out = None).
Proof.
  intros Hwf Hnames.
  exists (descend (map VStr names) (VDict sd)).
  split; [now apply fix_malformed_model_refs_descend|].
  rewrite descend_normalize by assumption.
  assert (Hpath : forall p,
    get_path p (normalize (map VStr names) (VDict sd)) =
    option_map (normalized_at names (last_step p)) (get_path p (VDict sd))).
  { intros p. apply (get_path_normalized names p None (VDict sd)). }
  repeat match goal with |- _ /\ _ => split end.
  - intros p n Hp Hlast Hmem. rewrite Hpath, Hp, Hlast. simpl.
    now rewrite Hmem.
  - intros p v Hp Hs Hr. rewrite Hpath, Hp. simpl.
    now rewrite normalized_at_scalar.
  - intros p n Hp Hmem. rewrite Hpath, Hp. simpl.
    rewrite normalized_at_scalar; auto.
    unfold is_declared_ref. destruct (last_step p) as [[k|i]|]; auto.
    rewrite Hmem. apply andb_false_r.
  - intros p d Hp. rewrite Hpath, Hp. simpl.
    rewrite normalized_at_container by reflexivity. simpl.
    eexists. split; [reflexivity|].
    unfold dict_keys. rewrite map_map. reflexivity.
  - intros p l Hp. rewrite Hpath, Hp. simpl.
    rewrite normalized_at_container by reflexivity. simpl.
    eexists. split; [reflexivity|]. apply length_map.
  - intros p Hp. now rewrite Hpath, Hp.
Qed.

Lemma fix_malformed_model_refs_property_witness :
  wf_value (VDict category_document) = true /\
  declared_names category_document = Some ["Category"] /\
  exists out,
    @fix_malformed_model_refs sample_collaborators (VDict category_document) = Ok out /\
    get_path [Key "paths"; Index 0; Key "$ref"] out
      = Some (VStr "#/definitions/Category") /\
    get_path [Key "paths"; Index 1; Key "$ref"] out = Some (VStr "Unknown").
Proof.
  split; [reflexivity|]. split; [reflexivity|].
  destruct (@fix_malformed_model_refs_property sample_collaborators
              category_document ["Category"] eq_refl eq_refl)
    as (out & Hout & Href & Hscalar & _).
  exists out. split; [exact Hout|]. split.
  - apply (Href [Key "paths"; Index 0; Key "$ref"] "Category"); reflexivity.
  - apply (Hscalar [Key "paths"; Index 1; Key "$ref"] (VStr "Unknown")); reflexivity.
Defined.

(** C7, as stated, fails: a ['$ref'] value in canonical pointer form is
    rewritten when the string is itself the name of a definition. *)
Lemma canonical_pointer_rewritten :
  exists out,
    @fix_malformed_model_refs sample_collaborators pointer_named_definition = Ok out /\
    get_path [Key "x"; Key "$ref"] pointer_named_definition
      = Some (VStr (canonical "A")) /\
    get_path [Key "x"; Key "$ref"] out
      = Some (VStr (canonical (canonical "A"))) /\
    get_path [Key "x"; Key "$ref"] out
      <> get_path [Key "x"; Key "$ref"] pointer_named_definition.
Proof.
  eexists. split; [reflexivity|]. split; [reflexivity|]. split; [reflexivity|].
  discriminate.
Qed.

(** ** The registry *)

Lemma canonical_inj a b : canonical a = canonical b -> a = b.
Proof. unfold canonical. simpl. now intros [= ->]. Qed.

Section Registry.
Context `{Collaborators}.

Lemma create_model_type_ok model_name model_spec :
  is_ok (create_model_type model_name model_spec) = has_properties model_spec.
Proof.
  unfold create_model_type, has_properties, dict_mem.
  destruct model_spec; try reflexivity.
  simpl. destruct (dict_get "properties" items); reflexivity.
Qed.

Lemma build_models_loop_cons model_name model_spec rest models s t :
  create_model_type model_name model_spec = Ok t ->
  build_models_loop ((model_name, model_spec) :: rest) models s =
  build_models_loop rest
    (dict_set (canonical model_name) (List.length s)
       (dict_set model_name (List.length s) models))
    (s ++ [t]).
Proof.
  intros Ht. simpl. rewrite Ht. simpl. now rewrite dict_get_set_same.
Qed.

Lemma build_models_loop_total items : forall models s,
  (forall name spec, In (name, spec) items -> has_properties spec = true) ->
  exists models' types,
    build_models_loop items models s = Ok (models', s ++ types) /\
    Forall2 (fun e t => create_model_type (fst e) (snd e) = Ok t) items types.
Proof.
  induction items as [|[name spec] rest IH]; intros models s Hall.
  - exists models, []. rewrite app_nil_r. split; [reflexivity|constructor].
  - assert (Hs : is_ok (create_model_type name spec) = true).
    { rewrite create_model_type_ok. apply (Hall name). now left. }
    destruct (create_model_type name spec) as [t|] eqn:Ht; try discriminate.
    rewrite (build_models_loop_cons _ _ _ _ _ _ Ht).
    edestruct IH as (models' & types & Hl & Hf);
      [intros; eapply Hall; right; eauto|].
    exists models', (t :: types). rewrite Hl. split.
    + now rewrite <- app_assoc.
    + constructor; auto.
Qed.


Lemma build_models_loop_registry items : forall models s models' s',
  nodup_keys items = true ->
  pointer_free items ->
  build_models_loop items models s = Ok (models', s') ->
  (forall name spec, In (name, spec) items ->
     exists ref t,
       dict_get name models' = Some ref /\
       dict_get (canonical name) models' = Some ref /\
       nth_error s' ref = Some t /\
       create_model_type name spec = Ok t /\
       List.length s <= ref) /\
  (forall k, dict_mem k items = false ->
     (forall n, dict_mem n items = true -> k <> canonical n) ->
     dict_get k models' = dict_get k models) /\
  (exists types, s' = s ++ types).
Proof.
  induction items as [|[name0 spec0] rest IH]; intros models s models' s' Hnd Hpf Hl.
  - simpl in Hl. injection Hl as <- <-.
    split; [intros ? ? []|]. split; [reflexivity|].
    exists []. now rewrite app_nil_r.
  - destruct (create_model_type name0 spec0) as [t0|e] eqn:Ht;
      [|simpl in Hl; rewrite Ht in Hl; discriminate].
    rewrite (build_models_loop_cons _ _ _ _ _ _ Ht) in Hl.
    pose proof Hnd as Hnd0. simpl in Hnd0.
    apply andb_true_iff in Hnd0 as [Hfresh Hnd'].
    apply negb_true_iff in Hfresh.
    assert (Hmem0 : dict_mem name0 ((name0, spec0) :: rest) = true).
    { rewrite dict_mem_cons. now rewrite String.eqb_refl. }
    assert (Hmem : forall n, dict_mem n rest = true ->
                             dict_mem n ((name0, spec0) :: rest) = true).
    { intros n Hn. rewrite dict_mem_cons, Hn. apply orb_true_r. }
    assert (Hpf' : pointer_free rest).
    { intros n Hn. specialize (Hpf n (Hmem n Hn)).
      rewrite dict_mem_cons in Hpf. now apply orb_false_iff in Hpf as [_ Hpf]. }
    destruct (IH _ _ _ _ Hnd' Hpf' Hl) as (Hin & Hframe & types & Hs').
    assert (Hne0 : name0 <> canonical name0).
    { intros E. specialize (Hpf name0 Hmem0). rewrite <- E in Hpf. congruence. }
    assert (Hc0 : dict_mem (canonical name0) rest = false).
    { specialize (Hpf name0 Hmem0).
      rewrite dict_mem_cons in Hpf. now apply orb_false_iff in Hpf as [_ Hpf]. }
    split; [|split].
    + intros name spec [[= -> ->]|Hrest].
      * exists (List.length s), t0.
        split; [|split; [|split; [|split]]]; auto.
        -- rewrite Hframe; auto.
           ++ rewrite dict_get_set_other by exact Hne0. apply dict_get_set_same.
           ++ intros n Hn E. specialize (Hpf n (Hmem n Hn)).
              rewrite <- E in Hpf. congruence.
        -- rewrite Hframe; auto.
           ++ apply dict_get_set_same.
           ++ intros n Hn E. apply canonical_inj in E. subst n. congruence.
        -- rewrite Hs'. rewrite <- app_assoc.
           rewrite nth_error_app2 by lia. now rewrite Nat.sub_diag.
      * destruct (Hin name spec Hrest) as (ref & t & H1 & H2 & H3 & H4 & H5).
        exists ref, t. repeat split; auto.
        rewrite length_app in H5. simpl in H5. lia.
    + intros k Hk Hcan.
      assert (Hk0 : k <> name0).
      { intros ->. congruence. }
      assert (Hkc : k <> canonical name0) by (apply Hcan; exact Hmem0).
      assert (Hkr : dict_mem k rest = false).
      { rewrite dict_mem_cons in Hk. now apply orb_false_iff in Hk as [_ Hk]. }
      rewrite Hframe; auto.
      rewrite !dict_get_set_other; auto.
    + exists (t0 :: types). rewrite Hs'. now rewrite <- app_assoc.
Qed.
End Registry.

Section RegistryBuilt.
Context `{Collaborators}.


Lemma build_models_loop_keys items : forall models s models' s',
  build_models_loop items models s = Ok (models', s') ->
  forall k,
    dict_mem k models' =
    dict_mem k models
    || existsb (fun e => String.eqb k (fst e) || String.eqb k (canonical (fst e))) items.
Proof.
  induction items as [|[name0 spec0] rest IH]; intros models s models' s' Hl k.
  - simpl in Hl. injection Hl as <- <-. simpl. now rewrite orb_false_r.
  - destruct (create_model_type name0 spec0) as [t0|e] eqn:Ht;
      [|simpl in Hl; rewrite Ht in Hl; discriminate].
    rewrite (build_models_loop_cons _ _ _ _ _ _ Ht) in Hl.
    rewrite (IH _ _ _ _ Hl k). rewrite !dict_mem_set. simpl.
    destruct (String.eqb k name0), (String.eqb k (canonical name0)),
             (dict_mem k models); reflexivity.
Qed.

End RegistryBuilt.




(** C4 (as amended).  When no key of the definitions is the canonical
    pointer of a key, the registry that the build returns maps the name of
    every model and its canonical pointer to one and the same address, that
    of the descriptor synthesized for the model, allocated by this build.
    The build succeeds when every entry has [properties]. *)
Theorem build_models_registry `{Collaborators} (defs : dict) (s : type_store) :
  nodup_keys defs = true ->
  pointer_free defs ->
  (forall models s',
     build_models (VDict defs) s = Ok (models, s') ->
     forall name spec, In (name, spec) defs ->
     exists ref t,
       dict_get name models = Some ref /\
       dict_get (canonical name) models = Some ref /\
       nth_error s' ref = Some t /\
       create_model_type name spec = Ok t /\
       List.length s <= ref)
  /\
  ((forall name spec, In (name, spec) defs -> has_properties spec = true) ->
   exists models s', build_models (VDict defs) s = Ok (models, s')).
Proof.
  intros Hnd Hpf. split.
  - intros models s' Hb. simpl in Hb.
    apply (build_models_loop_registry defs [] s models s' Hnd Hpf Hb).
  - intros Hall.
    destruct (build_models_loop_total defs [] s Hall) as (models & types & Hl & _).
    exists models, (s ++ types). exact Hl.
Qed.

Lemma uniform_definitions_pointer_free : pointer_free uniform_definitions.
Proof.
  intros name Hn. unfold uniform_definitions in Hn.
  rewrite !dict_mem_cons in Hn.
  apply orb_true_iff in Hn as [Hn|Hn].
  - apply String.eqb_eq in Hn. subst. reflexivity.
  - apply orb_true_iff in Hn as [Hn|Hn]; [|discriminate].
    apply String.eqb_eq in Hn. subst. reflexivity.
Qed.

Lemma build_models_registry_witness :
  nodup_keys uniform_definitions = true /\
  pointer_free uniform_definitions /\
  exists models s' ref,
    @build_models sample_collaborators (VDict uniform_definitions) [] = Ok (models, s') /\
    dict_get "Pet" models = Some ref /\
    dict_get "#/definitions/Pet" models = Some ref.
Proof.
  split; [reflexivity|]. split; [exact uniform_definitions_pointer_free|].
  destruct (@build_models_registry sample_collaborators uniform_definitions []
              eq_refl uniform_definitions_pointer_free) as [Hreg Htotal].
  destruct Htotal as (models & s' & Hb).
  - intros name spec Hin. simpl in Hin.
    destruct Hin as [Hin|[Hin|[]]]; injection Hin as <- <-; reflexivity.
  - destruct (Hreg models s' Hb "Pet" _ (or_introl eq_refl))
      as (ref & t & H1 & H2 & _).
    exists models, s', ref. auto.
Defined.

(** C4, as stated, fails: with a definition named like the canonical
    pointer of another, in either order of the two, the name of a model and
    its canonical pointer lead to different descriptors. *)
Lemma build_models_pointer_clash :
  (exists models s',
     @build_models sample_collaborators (VDict clashing_definitions) []
       = Ok (models, s') /\
     dict_get "Pet" models = Some 0 /\
     dict_get (canonical "Pet") models = Some 1) /\
  (exists models s',
     @build_models sample_collaborators (VDict clashing_definitions') []
       = Ok (models, s') /\
     dict_get "#/definitions/Pet" models = Some 1 /\
     dict_get (canonical "#/definitions/Pet") models = Some 0).
Proof.
  split; eexists; eexists; (split; [reflexivity|]); split; reflexivity.
Qed.

(** ** Construction *)

Lemma mem_string_In k l : mem_string k l = true <-> In k l.
Proof.
  induction l as [|k' l IH]; simpl; [easy|].
  rewrite orb_true_iff, IH, String.eqb_eq. split; intros [?|?]; auto.
Qed.

Lemma mem_string_remove_other k k0 l :
  k <> k0 -> mem_string k (list_remove k0 l) = mem_string k l.
Proof.
  intros Hne. induction l as [|k' l IH]; simpl; auto.
  destruct (String.eqb k0 k') eqn:E; simpl.
  - apply String.eqb_eq in E. subst k'.
    apply String.eqb_neq in Hne. now rewrite Hne.
  - now rewrite IH.
Qed.

Lemma NoDup_list_remove k l : NoDup l -> NoDup (list_remove k l).
Proof.
  induction l as [|k' l IH]; simpl; auto.
  intros Hnd. inversion Hnd as [|? ? Hk Hl]; subst.
  destruct (String.eqb k k') eqn:E; auto.
  constructor; auto.
  intros Hin. apply Hk. apply mem_string_In.
  rewrite <- (mem_string_remove_other k' k l).
  - now apply mem_string_In.
  - intros ->. rewrite String.eqb_refl in E. discriminate.
Qed.

Lemma filter_list_remove (f : string -> bool) k l :
  NoDup l -> f k = false ->
  filter f (list_remove k l) = filter f l.
Proof.
  intros Hnd Hf. induction l as [|k' l IH]; simpl; auto.
  inversion Hnd as [|? ? Hk Hl]; subst.
  destruct (String.eqb k k') eqn:E; simpl.
  - apply String.eqb_eq in E. subst k'. now rewrite Hf.
  - now rewrite IH.
Qed.

Lemma dict_keys_set_fresh {V : Type} (d : list (string * V)) k v :
  dict_mem k d = false -> dict_keys (dict_set k v d) = dict_keys d ++ [k].
Proof.
  unfold dict_keys. induction d as [|[k0 v0] d IH]; simpl; auto.
  rewrite dict_mem_cons. intros Hk. apply orb_false_iff in Hk as [E Hk].
  rewrite E. simpl. now rewrite IH.
Qed.

Lemma list_remove_absent k l : mem_string k l = false -> list_remove k l = l.
Proof.
  induction l as [|k' l IH]; simpl; auto.
  intros Hk. apply orb_false_iff in Hk as [E Hk]. rewrite E. now rewrite IH.
Qed.

Lemma unknown_keys_cons p0 t0 (types : dict) l :
  NoDup l ->
  unknown_keys ((p0, t0) :: types) l = unknown_keys types (list_remove p0 l).
Proof.
  unfold unknown_keys. induction l as [|k l IH]; intros Hnd; [reflexivity|].
  inversion Hnd as [|? ? Hk Hl]; subst.
  simpl. rewrite dict_mem_cons, (String.eqb_sym p0 k).
  destruct (String.eqb k p0) eqn:E; simpl.
  - apply String.eqb_eq in E. subst k.
    apply filter_ext_in. intros a Ha. rewrite dict_mem_cons.
    assert (Hne : a <> p0) by (intros ->; contradiction).
    apply String.eqb_neq in Hne. now rewrite Hne.
  - now rewrite IH.
Qed.

Section Construction.
Context `{Collaborators}.
Variable kwargs : dict.

Lemma set_props_loop_spec types : forall arg_keys attrs,
  nodup_keys types = true ->
  NoDup arg_keys ->
  (forall p, dict_mem p types = true -> mem_string p arg_keys = dict_mem p kwargs) ->
  exists attrs',
    set_props_loop kwargs types arg_keys attrs = Ok (unknown_keys types arg_keys, attrs') /\
    (forall p t, In (p, t) types -> dict_get p attrs' = Some (prop_value kwargs p t)) /\
    (forall k, dict_mem k types = false -> dict_get k attrs' = dict_get k attrs) /\
    ((forall p, dict_mem p types = true -> dict_mem p attrs = false) ->
     dict_keys attrs' = dict_keys attrs ++ dict_keys types).
Proof.
  induction types as [|[p0 t0] types IH]; intros arg_keys attrs Hnd Hargs Hmem.
  - exists attrs. simpl.
    assert (Hu : unknown_keys [] arg_keys = arg_keys).
    { unfold unknown_keys. apply forallb_filter_id.
      apply forallb_forall. reflexivity. }
    rewrite Hu. repeat split; auto.
    + intros ? ? [].
    + intros _. now rewrite app_nil_r.
  - simpl in Hnd. apply andb_true_iff in Hnd as [Hp0 Hnd].
    apply negb_true_iff in Hp0.
    assert (Hself : dict_mem p0 ((p0, t0) :: types) = true)
      by (rewrite dict_mem_cons, String.eqb_refl; reflexivity).
    assert (Hin_rest : forall p, dict_mem p types = true ->
                                 dict_mem p ((p0, t0) :: types) = true /\ p <> p0).
    { intros p Hp. split.
      - rewrite dict_mem_cons, Hp. apply orb_true_r.
      - intros ->. congruence. }
    (* the turn of [p0] *)
    assert (Hturn :
      set_props_loop kwargs ((p0, t0) :: types) arg_keys attrs =
      set_props_loop kwargs types (list_remove p0 arg_keys)
        (dict_set p0 (prop_value kwargs p0 t0) attrs)).
    { simpl. unfold prop_value.
      destruct (mem_string p0 arg_keys) eqn:Hp0args.
      - assert (Hkw : dict_mem p0 kwargs = true) by (rewrite <- Hmem; auto).
        unfold dict_mem in Hkw.
        destruct (dict_get p0 kwargs) as [v0|]; try discriminate.
        reflexivity.
      - assert (Hkw : dict_mem p0 kwargs = false) by (rewrite <- Hmem; auto).
        unfold dict_mem in Hkw.
        destruct (dict_get p0 kwargs) as [v0|]; try discriminate.
        now rewrite list_remove_absent. }
    rewrite Hturn.
    destruct (IH (list_remove p0 arg_keys)
                 (dict_set p0 (prop_value kwargs p0 t0) attrs))
      as (attrs' & Hl & Hvals & Hframe & Hkeys); auto.
    { now apply NoDup_list_remove. }
    { intros p Hp. destruct (Hin_rest p Hp) as [Hp' Hne].
      rewrite mem_string_remove_other by assumption. auto. }
    exists attrs'. rewrite Hl.
    split; [|split; [|split]].
    + now rewrite unknown_keys_cons.
    + intros p t [[= -> ->]|Hin]; auto.
      rewrite Hframe by assumption. apply dict_get_set_same.
    + intros k Hk. rewrite dict_mem_cons in Hk.
      apply orb_false_iff in Hk as [E Hk].
      rewrite Hframe by assumption. apply dict_get_set_other.
      now apply String.eqb_neq.
    + intros Hfresh. rewrite Hkeys.
      * rewrite dict_keys_set_fresh by auto. simpl. now rewrite <- app_assoc.
      * intros p Hp. destruct (Hin_rest p Hp) as [Hp' Hne].
        rewrite dict_mem_set. apply String.eqb_neq in Hne. rewrite Hne. simpl. auto.
Qed.

Lemma mem_string_keys {V : Type} (d : list (string * V)) k :
  mem_string k (dict_keys d) = dict_mem k d.
Proof.
  unfold dict_keys. induction d as [|[k0 v0] d IH]; simpl; [reflexivity|].
  now rewrite dict_mem_cons, IH.
Qed.

(** What a construction call does when no supplied name is the name of a
    parameter of [__init__] or of [set_props]: it fails exactly when some
    supplied name is no declared property, and the error then carries those
    names and the model; otherwise the instance has one attribute per
    declared property, with the value supplied or the default of its type. *)
Lemma construct_spec (cls : model_type) :
  nodup_keys kwargs = true ->
  nodup_keys (_swagger_types cls) = true ->
  dict_mem "self" kwargs = false ->
  dict_mem "model" kwargs = false ->
  exists attrs,
    dict_keys attrs = dict_keys (_swagger_types cls) /\
    (forall p t, In (p, t) (_swagger_types cls) ->
       dict_get p attrs = Some (prop_value kwargs p t)) /\
    construct cls kwargs =
      match unknown_keys (_swagger_types cls) (dict_keys kwargs) with
      | [] => Ok (VInst cls attrs)
      | unknown =>
          Raise (Exn AttributeError " %s are not defined for %s."
                     [VList (map VStr unknown); VInst cls attrs])
      end.
Proof.
  intros Hkw Htypes Hself Hmodel.
  destruct (set_props_loop_spec (_swagger_types cls) (dict_keys kwargs) [] Htypes)
    as (attrs & Hl & Hvals & _ & Hkeys).
  { now apply nodup_keys_NoDup. }
  { intros p _. apply mem_string_keys. }
  exists attrs. split; [|split; [exact Hvals|]].
  - rewrite Hkeys; auto.
  - unfold construct, bind_keywords. rewrite Hself. simpl. rewrite Hmodel. simpl.
    unfold getattr_swagger_types. simpl. rewrite Hl. simpl.
    destruct (unknown_keys (_swagger_types cls) (dict_keys kwargs)); reflexivity.
Qed.
End Construction.

(** C3: the code departs from the claim at this input.  Every name
    supplied is a declared property of [Car], so that construction should
    succeed; the keyword [model] meets the parameter [model] of [set_props],
    and the call raises [TypeError]. *)
Theorem construct_declared_model_keyword :
  unknown_keys (_swagger_types Car) (dict_keys [("model", VStr "T")]) = [] /\
  @construct sample_collaborators Car [("model", VStr "T")] =
    Raise (Exn TypeError "%s() got multiple values for keyword argument '%s'"
               [VStr "set_props"; VStr "model"]).
Proof. split; reflexivity. Qed.

(** C8: the code departs from the claim at this input.  Both names
    supplied are declared properties of [Car], so that construction should
    return an instance whose [model] is ["T"] and whose [year] is [1999]; the
    call raises [TypeError] and returns no instance. *)
Theorem construct_no_instance_for_model_keyword :
  (forall p, In p (dict_keys [("year", VInt 1999); ("model", VStr "T")]) ->
             dict_mem p (_swagger_types Car) = true) /\
  forall attrs,
    @construct sample_collaborators Car [("year", VInt 1999); ("model", VStr "T")]
      <> Ok (VInst Car attrs).
Proof.
  split.
  - intros p [<-|[<-|[]]]; reflexivity.
  - intros attrs. discriminate.
Qed.

(** ** Flattening changes no object *)

Lemma heap_prefix_refl h : heap_prefix h h.
Proof. exists []. now rewrite app_nil_r. Qed.

Lemma heap_prefix_trans h0 h1 h2 :
  heap_prefix h0 h1 -> heap_prefix h1 h2 -> heap_prefix h0 h2.
Proof. intros [e1 ->] [e2 ->]. exists (e1 ++ e2). now rewrite app_assoc. Qed.

Lemma heap_prefix_alloc h0 h o : heap_prefix h0 h -> heap_prefix h0 (h ++ [o]).
Proof. intros [e ->]. exists (e ++ [o]). now rewrite app_assoc. Qed.

Lemma heap_prefix_get h0 h l o :
  heap_prefix h0 h -> heap_get h0 l = Some o -> heap_get h l = Some o.
Proof.
  intros [e ->] Hl. unfold heap_get in *. rewrite nth_error_app1; auto.
  apply nth_error_Some. congruence.
Qed.

Lemma heap_prefix_length h0 h : heap_prefix h0 h -> List.length h0 <= List.length h.
Proof. intros [e ->]. rewrite length_app. lia. Qed.

Lemma heap_set_length l o h : List.length (heap_set l o h) = List.length h.
Proof.
  revert l. induction h as [|x h IH]; intros [|l]; simpl; auto.
Qed.

Lemma heap_set_app_right h0 : forall l o ext,
  List.length h0 <= l ->
  heap_set l o (h0 ++ ext) = h0 ++ heap_set (l - List.length h0) o ext.
Proof.
  induction h0 as [|x h0 IH]; intros l o ext Hl; simpl.
  - now rewrite Nat.sub_0_r.
  - destruct l as [|l]; simpl in *; [lia|]. rewrite IH by lia. reflexivity.
Qed.

Lemma heap_prefix_set h0 h l o :
  heap_prefix h0 h -> List.length h0 <= l -> heap_prefix h0 (heap_set l o h).
Proof.
  intros [e ->] Hl. rewrite heap_set_app_right by assumption. now eexists.
Qed.

Lemma heap_get_set_same h : forall l o,
  l < List.length h -> heap_get (heap_set l o h) l = Some o.
Proof.
  unfold heap_get. induction h as [|x h IH]; intros [|l] o Hl; simpl in *;
    try lia; auto.
  apply IH. lia.
Qed.

Lemma building_set h0 ld h k v :
  building h0 ld h -> building h0 ld (store_dict_set ld k v h).
Proof.
  intros (Hp & Hl & d & Hd). unfold store_dict_set. rewrite Hd.
  split; [now apply heap_prefix_set|]. split; [assumption|].
  exists (dict_set k v d). apply heap_get_set_same.
  apply nth_error_Some. unfold heap_get in Hd. congruence.
Qed.

Lemma building_pop h0 ld h k h' :
  building h0 ld h -> store_dict_pop ld k h = Done tt h' -> building h0 ld h'.
Proof.
  intros (Hp & Hl & d & Hd). unfold store_dict_pop. rewrite Hd.
  destruct (dict_mem k d); [|discriminate]. intros [= <-].
  split; [now apply heap_prefix_set|]. split; [assumption|].
  exists (dict_remove k d). apply heap_get_set_same.
  apply nth_error_Some. unfold heap_get in Hd. congruence.
Qed.

Lemma building_prefix h0 ld h h' :
  building h0 ld h -> heap_prefix h h' -> building h0 ld h'.
Proof.
  intros (Hp & Hl & d & Hd) Hh'.
  split; [eapply heap_prefix_trans; eauto|]. split; [assumption|].
  exists d. eapply heap_prefix_get; eauto.
Qed.

Section Frame.
Variable rec : hval -> heap -> res hval.
Hypothesis rec_frame : forall v h r h', rec v h = Done r h' -> heap_prefix h h'.

Lemma st_flat_list_frame xs : forall h ys h',
  st_flat_list rec xs h = Done ys h' -> heap_prefix h h'.
Proof.
  induction xs as [|x xs IH]; intros h ys h' Hc; simpl in Hc.
  - injection Hc as <- <-. apply heap_prefix_refl.
  - destruct (h_is_none x); [eauto|].
    destruct (rec x h) as [| |y h1] eqn:Hx; try discriminate.
    destruct (st_flat_list rec xs h1) as [| |ys' h2] eqn:Hxs; try discriminate.
    injection Hc as <- <-.
    eapply heap_prefix_trans; eauto.
Qed.

Lemma st_flat_entry_frame cls attrs h0 ld k v h h' :
  building h0 ld h ->
  st_flat_entry rec cls attrs ld k v h = Done tt h' ->
  building h0 ld h'.
Proof.
  intros Hb He.
  assert (Hother : forall y h1,
            rec v h = Done y h1 -> Done tt (store_dict_set ld k y h1) = Done tt h' ->
            building h0 ld h').
  { intros y h1 Hr [= <-]. apply building_set.
    eapply building_prefix; eauto. }
  unfold st_flat_entry in He.
  destruct v as [| | | |lv].
  - destruct (h_is_required h cls attrs k) as [[|]|]; try discriminate.
    eapply building_pop; eauto.
  - simpl in He. destruct (rec (HBool b) h) eqn:Hr; try discriminate.
    destruct a; eauto.
  - simpl in He. destruct (rec (HInt n) h) eqn:Hr; try discriminate.
    destruct a; eauto.
  - simpl in He. destruct (rec (HStr s) h) eqn:Hr; try discriminate.
    destruct a; eauto.
  - destruct (heap_get h lv) as [[xs|d|c a]|] eqn:Hlv.
    + destruct (st_flat_list rec xs h) as [| |ys h1] eqn:Hys; try discriminate.
      simpl in He. injection He as <-.
      apply building_set. eapply building_prefix; eauto.
      apply heap_prefix_alloc. eapply st_flat_list_frame; eauto.
    + destruct (rec (HRef lv) h) eqn:Hr; try discriminate. eauto.
    + destruct (rec (HRef lv) h) eqn:Hr; try discriminate. eauto.
    + destruct (rec (HRef lv) h) eqn:Hr; try discriminate. eauto.
Qed.

Lemma st_flat_loop_frame cls attrs h0 ld items : forall h h',
  building h0 ld h ->
  st_flat_loop rec cls attrs ld items h = Done tt h' ->
  building h0 ld h'.
Proof.
  induction items as [|[k v] items IH]; intros h h' Hb Hl; simpl in Hl.
  - now injection Hl as <-.
  - destruct (st_flat_entry rec cls attrs ld k v h) as [| |[] h1] eqn:He;
      try discriminate.
    eapply IH; [|exact Hl]. eapply st_flat_entry_frame; eauto.
Qed.
End Frame.

Lemma st_create_flat_dict_building fuel : forall model h r h',
  st_create_flat_dict fuel model h = Done r h' ->
  heap_prefix h h' /\
  (forall l cls attrs,
     model = HRef l -> heap_get h l = Some (OInst cls attrs) ->
     r = HRef (List.length h) /\ building h (List.length h) h').
Proof.
  induction fuel as [|fuel IH]; intros model h r h' Hc; [discriminate|].
  simpl in Hc.
  destruct (match model with HRef l => heap_get h l | _ => None end)
    as [[xs|d|cls attrs]|] eqn:Hm.
  - injection Hc as <- <-. split; [apply heap_prefix_refl|].
    intros l c a -> Hl. rewrite Hl in Hm. discriminate.
  - injection Hc as <- <-. split; [apply heap_prefix_refl|].
    intros l c a -> Hl. rewrite Hl in Hm. discriminate.
  - simpl in Hc.
    destruct (st_flat_loop (st_create_flat_dict fuel) cls attrs
                (List.length h) attrs (h ++ [ODict attrs])) as [| |[] h2] eqn:Hl;
      try discriminate.
    injection Hc as <- <-.
    assert (Hb : building h (List.length h) h2).
    { eapply st_flat_loop_frame; [|split; [|split]|exact Hl].
      - intros v h1 r1 h1' Hr. exact (proj1 (IH _ _ _ _ Hr)).
      - apply heap_prefix_alloc, heap_prefix_refl.
      - lia.
      - exists attrs. unfold heap_get. rewrite nth_error_app2 by lia.
        now rewrite Nat.sub_diag. }
    split; [exact (proj1 Hb)|]. intros; split; [reflexivity|exact Hb].
  - injection Hc as <- <-. split; [apply heap_prefix_refl|].
    intros l c a -> Hl. rewrite Hl in Hm. discriminate.
Qed.

(** C10.  A successful flattening leaves every object of the store as it
    was: the instance, the instances and lists reached from it, and all the
    others.  When the value flattened is an instance, the result is a dict
    at an address that the store did not have before the call, so it is
    neither the instance nor any object that existed before. *)
Theorem st_create_flat_dict_frame (fuel : nat) (model : hval) (h : heap)
    (r : hval) (h' : heap) :
  st_create_flat_dict fuel model h = Done r h' ->
  (forall l o, heap_get h l = Some o -> heap_get h' l = Some o) /\
  (forall l cls attrs,
     model = HRef l -> heap_get h l = Some (OInst cls attrs) ->
     exists ld d,
       r = HRef ld /\ heap_get h' ld = Some (ODict d) /\
       heap_get h ld = None /\ ld <> l).
Proof.
  intros Hc. destruct (st_create_flat_dict_building _ _ _ _ _ Hc) as [Hp Hinst].
  split.
  - intros l o Hl. eapply heap_prefix_get; eauto.
  - intros l cls attrs Hm Hl.
    destruct (Hinst l cls attrs Hm Hl) as (-> & _ & _ & d & Hd).
    exists (List.length h), d. repeat split; auto.
    + apply nth_error_None. lia.
    + intros <-. unfold heap_get in Hl.
      assert (Hn : nth_error h (List.length h) = None) by (apply nth_error_None; lia).
      congruence.
Qed.

Lemma st_create_flat_dict_frame_witness :
  exists r h',
    st_create_flat_dict 3 (HRef 2) pet_store = Done r h' /\
    (forall l o, heap_get pet_store l = Some o -> heap_get h' l = Some o) /\
    exists ld d,
      r = HRef ld /\ heap_get h' ld = Some (ODict d) /\
      heap_get pet_store ld = None /\ ld <> 2.
Proof.
  eexists. eexists. split; [reflexivity|].
  match goal with
  | |- context [heap_get ?h' _ = Some (ODict _)] =>
      pose proof (st_create_flat_dict_frame 3 (HRef 2) pet_store (HRef 3) h' eq_refl)
        as [Hold Hnew]
  end.
  split; [exact Hold|].
  exact (Hnew 2 Pet _ eq_refl eq_refl).
Defined.

(** ** The store model computes what the value model computes *)

Lemma Forall2_Forall_r {A B : Type} (R R' : A -> B -> Prop) xs ys :
  Forall (fun y => forall x, R x y -> R' x y) ys ->
  Forall2 R xs ys -> Forall2 R' xs ys.
Proof.
  intros Hall H2. induction H2 as [|x y xs ys Hxy H2 IH]; constructor.
  - inversion Hall; subst; auto.
  - apply IH. now inversion Hall.
Qed.

Lemma repr_transfer (P Q : nat -> Prop) (h h' : heap) (v : value) :
  (forall l, P l -> Q l) ->
  (forall l o, P l -> heap_get h l = Some o -> heap_get h' l = Some o) ->
  forall hv, repr P h hv v -> repr Q h' hv v.
Proof.
  intros HPQ Hagree.
  induction v as [| | | |vs IH|vd IH|cls va IH] using value_ind';
    intros hv Hr; inversion Hr; subst; try constructor.
  - econstructor; eauto.
    eapply Forall2_Forall_r; [|eassumption]. exact IH.
  - econstructor; eauto.
    eapply Forall2_Forall_r; [|eassumption].
    eapply Forall_impl; [|exact IH].
    intros kv Hkv e [He Hre]. split; auto.
  - econstructor; eauto.
    eapply Forall2_Forall_r; [|eassumption].
    eapply Forall_impl; [|exact IH].
    intros kv Hkv e [He Hre]. split; auto.
Qed.

Lemma repr_prefix (P Q : nat -> Prop) (h h' : heap) hv v :
  (forall l, P l -> Q l) -> heap_prefix h h' ->
  repr P h hv v -> repr Q h' hv v.
Proof.
  intros HPQ Hp. apply repr_transfer; auto.
  intros l o _ Hl. eapply heap_prefix_get; eauto.
Qed.

Lemma repr_entries_transfer (P Q : nat -> Prop) (h h' : heap) d vd :
  (forall l, P l -> Q l) ->
  (forall l o, P l -> heap_get h l = Some o -> heap_get h' l = Some o) ->
  repr_entries P h d vd -> repr_entries Q h' d vd.
Proof.
  intros HPQ Hagree Hd. unfold repr_entries in *.
  eapply Forall2_impl; [|exact Hd].
  intros e ve [He Hr]. split; auto. eapply repr_transfer; eauto.
Qed.

Lemma repr_is_none P h hv v : repr P h hv v -> h_is_none hv = is_none v.
Proof. intros Hr. inversion Hr; reflexivity. Qed.

Lemma repr_bool_value P h hv v : repr P h hv v -> h_bool h hv = py_bool v.
Proof.
  intros Hr. inversion Hr as [| | | |l xs vs Hl Hg Hf|l d vd Hl Hg Hf|l cls a va Hl Hg Hf];
    subst; simpl; try reflexivity; rewrite Hg.
  - inversion Hf; reflexivity.
  - inversion Hf; reflexivity.
  - reflexivity.
Qed.

Lemma repr_str_eq P h k hv v : repr P h hv v -> h_str_eq k hv = py_eq (VStr k) v.
Proof. intros Hr. inversion Hr; reflexivity. Qed.

Lemma repr_entries_get P h d vd k :
  repr_entries P h d vd ->
  match dict_get k d, dict_get k vd with
  | Some x, Some v => repr P h x v
  | None, None => True
  | _, _ => False
  end.
Proof.
  intros Hd. induction Hd as [|[k1 x] [k2 v] d vd [He Hr] Hd IH]; simpl; auto.
  simpl in He. subst k2. destruct (String.eqb k k1); auto.
Qed.

Lemma repr_entries_mem P h d vd k :
  repr_entries P h d vd -> dict_mem k d = dict_mem k vd.
Proof.
  intros Hd. pose proof (repr_entries_get P h d vd k Hd) as Hg.
  unfold dict_mem. destruct (dict_get k d), (dict_get k vd); tauto.
Qed.

Lemma repr_entries_set P h d vd k x v :
  repr_entries P h d vd -> repr P h x v ->
  repr_entries P h (dict_set k x d) (dict_set k v vd).
Proof.
  intros Hd Hx. induction Hd as [|[k1 y] [k2 w] d vd [He Hr] Hd IH]; simpl.
  - constructor; [split; auto|constructor].
  - simpl in He. subst k2. destruct (String.eqb k k1).
    + constructor; auto.
    + constructor; auto.
Qed.

Lemma repr_entries_remove P h d vd k :
  repr_entries P h d vd ->
  repr_entries P h (dict_remove k d) (dict_remove k vd).
Proof.
  intros Hd. induction Hd as [|[k1 y] [k2 w] d vd [He Hr] Hd IH]; simpl.
  - constructor.
  - simpl in He. subst k2. destruct (String.eqb k k1); auto.
    constructor; auto.
Qed.

Lemma repr_existsb P h k xs vs :
  Forall2 (repr P h) xs vs ->
  existsb (h_str_eq k) xs = existsb (py_eq (VStr k)) vs.
Proof.
  intros Hf. induction Hf as [|x y xs vs Hxy Hf IH]; simpl; auto.
  now rewrite IH, (repr_str_eq _ _ _ _ _ Hxy).
Qed.

Lemma repr_str_in P h k hv v : repr P h hv v -> h_str_in h k hv = str_in k v.
Proof.
  intros Hr. inversion Hr as [| | | |l xs vs Hl Hg Hf|l d vd Hl Hg Hf|l cls a va Hl Hg Hf];
    subst; simpl; try reflexivity; rewrite Hg; try reflexivity.
  - f_equal. eapply repr_existsb; eauto.
  - f_equal. eapply repr_entries_mem; eauto.
Qed.

Lemma repr_is_required P h cls a va k :
  repr_entries P h a va ->
  h_is_required h cls a k = is_required (getattr_required cls va) k.
Proof.
  intros Ha. unfold h_is_required, getattr_required.
  pose proof (repr_entries_get P h a va "_required" Ha) as Hg.
  destruct (dict_get "_required" a) as [r|], (dict_get "_required" va) as [vr|];
    try contradiction; auto.
  unfold is_required.
  now rewrite (repr_bool_value _ _ _ _ Hg), (repr_str_in _ _ k _ _ Hg).
Qed.

Lemma depth_list_elem x vs : In x vs -> depth x < depth (VList vs).
Proof.
  intros Hin. simpl. apply Nat.lt_succ_r.
  assert (H : Forall (fun n => n <= list_max (map depth vs)) (map depth vs))
    by (apply list_max_le; lia).
  rewrite Forall_forall in H. apply H. now apply in_map.
Qed.

Lemma depth_attr_value cls k v va : In (k, v) va -> depth v < depth (VInst cls va).
Proof.
  intros Hin. simpl. apply Nat.lt_succ_r.
  assert (H : Forall (fun n => n <= list_max (map (fun kv => depth (snd kv)) va))
                     (map (fun kv => depth (snd kv)) va))
    by (apply list_max_le; lia).
  rewrite Forall_forall in H. apply H.
  change (depth v) with ((fun kv => depth (snd kv)) (k, v)). now apply in_map.
Qed.

Lemma heap_get_set_other h : forall l l' o,
  l <> l' -> heap_get (heap_set l o h) l' = heap_get h l'.
Proof.
  unfold heap_get. induction h as [|x h IH]; intros [|l] [|l'] o Hne; simpl;
    try reflexivity; try congruence.
  apply IH. congruence.
Qed.

Lemma st_create_flat_dict_prefix fuel model h r h' :
  st_create_flat_dict fuel model h = Done r h' -> heap_prefix h h'.
Proof. intros Hc. exact (proj1 (st_create_flat_dict_building _ _ _ _ _ Hc)). Qed.

Section Simulation.
Variable fuel : nat.
Hypothesis IHrec : forall v hv h P,
  depth v < fuel -> (forall l, P l -> l < List.length h) ->
  repr P h hv v -> simulates fuel P hv h v.

Lemma sim_flat_list (P : nat -> Prop) vs : forall xs hc,
  (forall l, P l -> l < List.length hc) ->
  (forall x, In x vs -> depth x < fuel) ->
  Forall2 (repr P hc) xs vs ->
  match flat_list create_flat_dict vs with
  | Ok vs' =>
      exists ys h',
        st_flat_list (st_create_flat_dict fuel) xs hc = Done ys h' /\
        heap_prefix hc h' /\
        Forall2 (repr (or_from P (List.length hc)) h') ys vs'
  | Raise e => st_flat_list (st_create_flat_dict fuel) xs hc = Fail e
  end.
Proof.
  induction vs as [|v vs IH]; intros xs hc HP Hdepth Hf;
    inversion Hf as [|x ? xs' ? Hxv Hf']; subst.
  - simpl. exists [], hc. repeat split; auto using heap_prefix_refl.
  - simpl. rewrite (repr_is_none _ _ _ _ Hxv).
    destruct (is_none v).
    + apply IH; auto. intros; apply Hdepth; now right.
    + pose proof (IHrec v x hc P (Hdepth v (or_introl eq_refl)) HP Hxv) as Hsim.
      unfold simulates in Hsim.
      destruct (create_flat_dict v) as [v'|e]; simpl.
      * destruct Hsim as (r & h1 & Hr & Hrv). rewrite Hr.
        pose proof (st_create_flat_dict_prefix _ _ _ _ _ Hr) as Hp1.
        pose proof (heap_prefix_length _ _ Hp1) as Hlen1.
        specialize (IH xs' h1).
        destruct (flat_list create_flat_dict vs) as [vs'|e]; simpl.
        -- destruct IH as (ys & h2 & Hys & Hp2 & Hall).
           { intros l Hl. specialize (HP l Hl). lia. }
           { intros; apply Hdepth; now right. }
           { eapply Forall2_impl; [|exact Hf'].
             intros a b Hab. eapply repr_prefix; eauto. }
           rewrite Hys. exists (r :: ys), h2. split; [reflexivity|].
           split; [eapply heap_prefix_trans; eauto|].
           constructor.
           ++ eapply repr_prefix; eauto.
           ++ eapply Forall2_impl; [|exact Hall].
              intros a b Hab. eapply repr_transfer; [| |exact Hab]; auto.
              intros l [Hl|Hl]; [now left|right; lia].
        -- rewrite IH; auto.
           ++ intros l Hl. specialize (HP l Hl). lia.
           ++ intros; apply Hdepth; now right.
           ++ eapply Forall2_impl; [|exact Hf'].
              intros a b Hab. eapply repr_prefix; eauto.
      * now rewrite Hsim.
Qed.

Variable h0 : heap.
Variable P : nat -> Prop.
Hypothesis P_old : forall l, P l -> l < List.length h0.
Variable cls : model_type.
Variable a : list (string * hval).
Variable va : dict.
Hypothesis a_va : repr_entries P h0 a va.

Lemma loop_state_length hc md : loop_state h0 P hc md -> List.length h0 < List.length hc.
Proof.
  intros (_ & d & Hd & _). apply nth_error_Some. unfold heap_get in Hd. congruence.
Qed.

Lemma loop_state_set hc md h1 k y v' :
  loop_state h0 P hc md -> heap_prefix hc h1 ->
  repr (or_from P (List.length hc)) h1 y v' ->
  loop_state h0 P (store_dict_set (List.length h0) k y h1) (dict_set k v' md).
Proof.
  intros Hs Hp1 Hy. pose proof (loop_state_length _ _ Hs) as Hlen.
  destruct Hs as (Hp & d & Hd & Hent).
  pose proof (heap_prefix_get _ _ _ _ Hp1 Hd) as Hd1.
  unfold store_dict_set. rewrite Hd1.
  split; [apply heap_prefix_set; [eapply heap_prefix_trans; eauto|lia]|].
  exists (dict_set k y d). split.
  - apply heap_get_set_same. apply nth_error_Some. unfold heap_get in Hd1. congruence.
  - assert (Hagree : forall l o,
              or_from P (S (List.length h0)) l ->
              heap_get h1 l = Some o ->
              heap_get (heap_set (List.length h0) (ODict (dict_set k y d)) h1) l = Some o).
    { intros l o Hl Hg. rewrite heap_get_set_other; auto.
      intros <-. destruct Hl as [Hl|Hl]; [apply P_old in Hl|]; lia. }
    apply repr_entries_set.
    + eapply repr_entries_transfer; [| |exact Hent]; auto.
      intros l o Hl Hg. apply Hagree; auto. eapply heap_prefix_get; eauto.
    + eapply repr_transfer; [| |exact Hy].
      * intros l [Hl|Hl]; [now left|right; lia].
      * intros l o Hl Hg. rewrite heap_get_set_other; auto.
        intros <-. destruct Hl as [Hl|Hl]; [apply P_old in Hl|]; lia.
Qed.

Lemma sim_flat_entry k x v hc md :
  loop_state h0 P hc md ->
  repr P h0 x v ->
  depth v < fuel ->
  (forall vs e, v = VList vs -> In e vs -> depth e < fuel) ->
  match flat_entry create_flat_dict (getattr_required cls va) k v md with
  | Ok md' =>
      exists h',
        st_flat_entry (st_create_flat_dict fuel) cls a (List.length h0) k x hc
          = Done tt h' /\
        loop_state h0 P h' md'
  | Raise e =>
      st_flat_entry (st_create_flat_dict fuel) cls a (List.length h0) k x hc = Fail e
  end.
Proof.
  intros Hs Hxv Hdv Hdl.
  pose proof (loop_state_length _ _ Hs) as Hlen.
  assert (Hp : heap_prefix h0 hc) by apply Hs.
  assert (HPc : forall l, P l -> l < List.length hc).
  { intros l Hl. apply P_old in Hl. lia. }
  assert (Hxc : repr P hc x v) by (eapply repr_prefix; eauto).
  assert (Hrec : forall (Hnl : forall vs, v <> VList vs) (Hnn : v <> VNone),
    match (y <- create_flat_dict v ;; Ok (dict_set k y md)) with
    | Ok md' =>
        exists h',
          match st_create_flat_dict fuel x hc with
          | Done y h1 => Done tt (store_dict_set (List.length h0) k y h1)
          | Fail e => Fail e
          | Diverge => Diverge
          end = Done tt h' /\ loop_state h0 P h' md'
    | Raise e =>
        match st_create_flat_dict fuel x hc with
        | Done y h1 => Done tt (store_dict_set (List.length h0) k y h1)
        | Fail e => Fail e
        | Diverge => Diverge
        end = Fail e
    end).
  { intros _ _. pose proof (IHrec v x hc P Hdv HPc Hxc) as Hsim.
    unfold simulates in Hsim.
    destruct (create_flat_dict v) as [v'|e]; simpl.
    - destruct Hsim as (r & h1 & Hr & Hrv). rewrite Hr.
      eexists. split; [reflexivity|].
      eapply loop_state_set; eauto.
      eapply st_create_flat_dict_prefix; eauto.
    - now rewrite Hsim. }
  inversion Hxv as [| | | |l xs vs Hl Hg Hf|l d vd Hl Hg Hf|l c a' va' Hl Hg Hf]; subst.
  - (* None *)
    simpl.
    assert (Hreq : h_is_required hc cls a k =
                   is_required (getattr_required cls va) k).
    { apply (repr_is_required P). eapply repr_entries_transfer; [| |exact a_va]; auto.
      intros l o _ Hg. eapply heap_prefix_get; eauto. }
    rewrite Hreq.
    destruct (is_required (getattr_required cls va) k) as [[|]|e]; simpl; auto.
    destruct Hs as (_ & d & Hd & Hent).
    unfold store_dict_pop, dict_pop. rewrite Hd.
    rewrite (repr_entries_mem _ _ _ _ k Hent).
    destruct (dict_mem k md); auto.
    eexists. split; [reflexivity|].
    split; [apply heap_prefix_set; auto; lia|].
    exists (dict_remove k d). split.
    + apply heap_get_set_same. lia.
    + apply repr_entries_remove.
      eapply repr_entries_transfer; [| |exact Hent]; auto.
      intros l o Hl Hg. rewrite heap_get_set_other; auto.
      intros <-. destruct Hl as [Hl|Hl]; [apply P_old in Hl|]; lia.
  - apply Hrec; [intros vs|]; discriminate.
  - apply Hrec; [intros vs|]; discriminate.
  - apply Hrec; [intros vs|]; discriminate.
  - (* a list *)
    simpl.
    pose proof (heap_prefix_get _ _ _ _ Hp Hg) as Hgc. rewrite Hgc.
    assert (Hfc : Forall2 (repr P hc) xs vs).
    { eapply Forall2_impl; [|exact Hf]. intros; eapply repr_prefix; eauto. }
    assert (Hel : forall e, In e vs -> depth e < fuel) by (intros; eapply Hdl; eauto).
    pose proof (sim_flat_list P vs xs hc HPc Hel Hfc) as Hlist.
    destruct (flat_list create_flat_dict vs) as [vs'|e]; simpl.
    + destruct Hlist as (ys & h1 & Hys & Hp1 & Hall). rewrite Hys.
      eexists. split; [reflexivity|].
      eapply (loop_state_set hc md (h1 ++ [OList ys]) k
                (HRef (List.length h1)) (VList vs')); auto.
      * apply heap_prefix_alloc. exact Hp1.
      * apply repr_list with (xs := ys).
        -- right. apply heap_prefix_length in Hp1. exact Hp1.
        -- unfold heap_get. rewrite nth_error_app2 by lia. now rewrite Nat.sub_diag.
        -- eapply Forall2_impl; [|exact Hall].
           intros; eapply repr_prefix; eauto.
           apply heap_prefix_alloc, heap_prefix_refl.
    + now rewrite Hlist.
  - (* a dict *)
    simpl st_flat_entry.
    pose proof (heap_prefix_get _ _ _ _ Hp Hg) as Hgc. rewrite Hgc.
    apply Hrec; [intros vs|]; discriminate.
  - (* an instance *)
    simpl st_flat_entry.
    pose proof (heap_prefix_get _ _ _ _ Hp Hg) as Hgc. rewrite Hgc.
    apply Hrec; [intros vs|]; discriminate.
Qed.
Lemma sim_flat_loop items : forall hitems hc md,
  loop_state h0 P hc md ->
  repr_entries P h0 hitems items ->
  (forall k v, In (k, v) items ->
     depth v < fuel /\ forall vs e, v = VList vs -> In e vs -> depth e < fuel) ->
  match flat_loop create_flat_dict (getattr_required cls va) items md with
  | Ok md' =>
      exists h',
        st_flat_loop (st_create_flat_dict fuel) cls a (List.length h0) hitems hc
          = Done tt h' /\
        loop_state h0 P h' md'
  | Raise e =>
      st_flat_loop (st_create_flat_dict fuel) cls a (List.length h0) hitems hc = Fail e
  end.
Proof.
  induction items as [|[k v] items IH]; intros hitems hc md Hs Hit Hdepth;
    inversion Hit as [|[k' x] ? hitems' ? [Hk Hxv] Hit']; subst; simpl in *.
  - exists hc. split; auto.
  - subst k'.
    destruct (Hdepth k v (or_introl eq_refl)) as [Hdv Hdl].
    pose proof (sim_flat_entry k x v hc md Hs Hxv Hdv Hdl) as He.
    destruct (flat_entry create_flat_dict (getattr_required cls va) k v md)
      as [md1|e]; simpl.
    + destruct He as (h1 & He & Hs1). rewrite He.
      apply IH; auto. intros k0 v0 Hin. apply (Hdepth k0 v0). now right.
    + now rewrite He.
Qed.
End Simulation.

(** With fuel beyond the depth of the value, the store model of
    [create_flat_dict] does what the value model does: it raises the same
    exception, or returns a result that is the value model's result, in
    cells that are the argument's or new. *)
Theorem st_create_flat_dict_simulates : forall fuel v hv h P,
  depth v < fuel ->
  (forall l, P l -> l < List.length h) ->
  repr P h hv v ->
  simulates fuel P hv h v.
Proof.
  induction fuel as [|fuel IH]; intros v hv h P Hd HP Hr; [lia|].
  unfold simulates.
  inversion Hr as [| | | |l xs vs Hl Hg Hf|l d vd Hl Hg Hf|l cls a va Hl Hg Hf];
    subst; simpl; try rewrite Hg;
    try (exists hv, h; split; [reflexivity|];
         eapply repr_transfer; [| |exact Hr]; auto; intros; now left);
    try (eexists _, h; split; [reflexivity|];
         eapply repr_transfer; [| |exact Hr]; auto; intros; now left).
  assert (Hs : loop_state h P (h ++ [ODict a]) va).
  { split; [apply heap_prefix_alloc, heap_prefix_refl|].
    exists a. split.
    - unfold heap_get. rewrite nth_error_app2 by lia. now rewrite Nat.sub_diag.
    - eapply repr_entries_transfer; [| |exact Hf].
      + intros; now left.
      + intros l' o _ Hg'. unfold heap_get in *.
        rewrite nth_error_app1; auto. apply nth_error_Some. congruence. }
  assert (Hdepth : forall k v, In (k, v) va ->
            depth v < fuel /\
            forall vs e, v = VList vs -> In e vs -> depth e < fuel).
  { intros k v Hin. pose proof (depth_attr_value cls k v va Hin) as Hlt.
    split; [lia|]. intros vs e -> He.
    pose proof (depth_list_elem e vs He). lia. }
  pose proof (sim_flat_loop fuel IH h P HP cls a va Hf va a (h ++ [ODict a]) va
                Hs Hf Hdepth) as Hloop.
  destruct (flat_loop create_flat_dict (getattr_required cls va) va va)
    as [md|e]; simpl.
  - destruct Hloop as (h' & Hrun & _ & d & Hd' & Hent). rewrite Hrun.
    exists (HRef (List.length h)), h'. split; [reflexivity|].
    apply repr_dict with (d := d); auto.
    + right. lia.
    + eapply repr_entries_transfer; [| |exact Hent]; auto.
      intros l' [Hl'|Hl']; [now left|right; lia].
  - now rewrite Hloop.
Qed.

(** ** [compare] is an equivalence on well-formed values *)

Lemma wf_value_dict_get (d : dict) k x :
  forallb (fun kv => wf_value (snd kv)) d = true ->
  dict_get k d = Some x -> wf_value x = true.
Proof.
  intros Hwf Hg. apply dict_get_In in Hg.
  rewrite forallb_forall in Hwf. exact (Hwf _ Hg).
Qed.

Lemma Forall_dict_get (Q : value -> Prop) (d : dict) k x :
  Forall (fun kv => Q (snd kv)) d -> dict_get k d = Some x -> Q x.
Proof.
  intros HQ Hg. apply dict_get_In in Hg.
  rewrite Forall_forall in HQ. exact (HQ _ Hg).
Qed.

Lemma wf_value_norm (d : dict) :
  forallb (fun kv => wf_value (snd kv)) d = true ->
  forallb (fun kv => wf_value (snd kv)) (norm_dict d) = true.
Proof.
  intros Hwf. apply forallb_forall. intros kv Hin.
  unfold norm_dict in Hin. apply filter_In in Hin.
  rewrite forallb_forall in Hwf. apply Hwf, Hin.
Qed.

Lemma Forall_norm (Q : value -> Prop) (d : dict) :
  Forall (fun kv => Q (snd kv)) d -> Forall (fun kv => Q (snd kv)) (norm_dict d).
Proof.
  intros HQ. apply Forall_forall. intros kv Hin.
  unfold norm_dict in Hin. apply filter_In in Hin.
  rewrite Forall_forall in HQ. apply HQ, Hin.
Qed.

Lemma dict_eqb_refl (d : dict) :
  nodup_keys d = true ->
  Forall (fun kv => py_eq (snd kv) (snd kv) = true) d ->
  dict_eqb py_eq d d = true.
Proof.
  intros Hnd HQ. apply dict_eqb_spec; auto.
  intros k. destruct (dict_get k d) as [x|] eqn:Hg; simpl; auto.
  exact (Forall_dict_get (fun x => py_eq x x = true) d k x HQ Hg).
Qed.

Lemma py_eq_refl (v : value) : wf_value v = true -> py_eq v v = true.
Proof.
  induction v as [| b | n | s |l IH|d IH|cls d IH] using value_ind';
    intros Hwf; simpl in Hwf.
  - reflexivity.
  - simpl. now destruct b.
  - simpl. apply Z.eqb_refl.
  - simpl. apply String.eqb_refl.
  - simpl. induction l as [|x l IHl]; simpl; auto.
    simpl in Hwf. apply andb_true_iff in Hwf as [Hx Hl].
    inversion IH as [|? ? IHx IHrest]; subst.
    rewrite (IHx Hx). simpl. auto.
  - apply andb_true_iff in Hwf as [Hnd Hall].
    change (dict_eqb py_eq d d = true). apply dict_eqb_refl; auto.
    apply Forall_forall. intros kv Hin.
    rewrite Forall_forall in IH. apply IH; auto.
    rewrite forallb_forall in Hall. auto.
  - apply andb_true_iff in Hwf as [Hnd Hall].
    rewrite py_eq_inst. unfold compare. simpl.
    apply dict_eqb_refl; [now apply nodup_keys_norm|].
    apply (Forall_norm (fun x => py_eq x x = true)).
    apply Forall_forall. intros kv Hin.
    rewrite Forall_forall in IH. apply IH; auto.
    rewrite forallb_forall in Hall. auto.
Qed.

Lemma dict_eqb_sym (d1 d2 : dict) :
  nodup_keys d1 = true -> nodup_keys d2 = true ->
  (forall k x y, dict_get k d1 = Some x -> dict_get k d2 = Some y ->
                 py_eq x y = py_eq y x) ->
  dict_eqb py_eq d1 d2 = dict_eqb py_eq d2 d1.
Proof.
  intros Hn1 Hn2 Hsym. apply Bool.eq_true_iff_eq.
  rewrite (dict_eqb_spec py_eq d1 d2 Hn1 Hn2), (dict_eqb_spec py_eq d2 d1 Hn2 Hn1).
  split; intros Hk k; specialize (Hk k);
    destruct (dict_get k d1) as [x|] eqn:H1, (dict_get k d2) as [y|] eqn:H2;
    simpl in *; auto.
  - now rewrite <- (Hsym k x y H1 H2).
  - now rewrite (Hsym k x y H1 H2).
Qed.

Lemma dict_eqb_trans (d1 d2 d3 : dict) :
  nodup_keys d1 = true -> nodup_keys d2 = true -> nodup_keys d3 = true ->
  (forall k x y z, dict_get k d1 = Some x -> dict_get k d2 = Some y ->
                   dict_get k d3 = Some z ->
                   py_eq x y = true -> py_eq y z = true -> py_eq x z = true) ->
  dict_eqb py_eq d1 d2 = true -> dict_eqb py_eq d2 d3 = true ->
  dict_eqb py_eq d1 d3 = true.
Proof.
  intros Hn1 Hn2 Hn3 Htr H12 H23.
  rewrite dict_eqb_spec in H12, H23 by assumption.
  apply dict_eqb_spec; auto. intros k.
  specialize (H12 k). specialize (H23 k).
  destruct (dict_get k d1) as [x|] eqn:H1, (dict_get k d2) as [y|] eqn:H2,
           (dict_get k d3) as [z|] eqn:H3; simpl in *; auto; try contradiction.
  eapply Htr; eauto.
Qed.

Lemma list_eqb_sym (l1 : list value) : forall l2,
  Forall (fun x => forall y, wf_value x = true -> wf_value y = true ->
                             py_eq x y = py_eq y x) l1 ->
  forallb wf_value l1 = true -> forallb wf_value l2 = true ->
  list_eqb py_eq l1 l2 = list_eqb py_eq l2 l1.
Proof.
  induction l1 as [|x l1 IH]; intros [|y l2] HQ H1 H2; simpl; auto.
  simpl in H1, H2.
  apply andb_true_iff in H1 as [Hx H1]. apply andb_true_iff in H2 as [Hy H2].
  inversion HQ as [|? ? Hxy HQ']; subst.
  rewrite (Hxy y Hx Hy). f_equal. apply IH; auto.
Qed.

Lemma py_eq_sym (a : value) : forall b,
  wf_value a = true -> wf_value b = true -> py_eq a b = py_eq b a.
Proof.
  induction a as [| x | m | s |l IH|d IH|cls d IH] using value_ind';
    intros b Ha Hb; destruct b as [| y | n | t |l'|d'|cls' d']; simpl;
    try reflexivity.
  - now destruct x, y.
  - apply Z.eqb_sym.
  - apply Z.eqb_sym.
  - apply Z.eqb_sym.
  - apply String.eqb_sym.
  - simpl in Ha, Hb. apply list_eqb_sym; auto.
  - simpl in Ha, Hb.
    apply andb_true_iff in Ha as [Hn1 Hw1]. apply andb_true_iff in Hb as [Hn2 Hw2].
    apply dict_eqb_sym; auto.
    intros k x y Hx Hy.
    pose proof (Forall_dict_get
                  (fun x => forall b, wf_value x = true -> wf_value b = true ->
                                      py_eq x b = py_eq b x) d k x IH Hx) as Hq.
    apply Hq; eauto using wf_value_dict_get.
  - simpl in Ha, Hb.
    apply andb_true_iff in Ha as [Hn1 Hw1]. apply andb_true_iff in Hb as [Hn2 Hw2].
    change (py_eq (VInst cls d) (VInst cls' d') = py_eq (VInst cls' d') (VInst cls d)).
    rewrite !py_eq_inst. unfold compare. simpl.
    apply dict_eqb_sym; auto using nodup_keys_norm.
    intros k x y Hx Hy.
    pose proof (Forall_dict_get
                  (fun x => forall b, wf_value x = true -> wf_value b = true ->
                                      py_eq x b = py_eq b x)
                  (norm_dict d) k x (Forall_norm _ d IH) Hx) as Hq.
    apply Hq; eauto using wf_value_dict_get, wf_value_norm.
Qed.

Lemma list_eqb_trans (l1 : list value) : forall l2 l3,
  Forall (fun x => forall y z,
            wf_value x = true -> wf_value y = true -> wf_value z = true ->
            py_eq x y = true -> py_eq y z = true -> py_eq x z = true) l1 ->
  forallb wf_value l1 = true -> forallb wf_value l2 = true ->
  forallb wf_value l3 = true ->
  list_eqb py_eq l1 l2 = true -> list_eqb py_eq l2 l3 = true ->
  list_eqb py_eq l1 l3 = true.
Proof.
  induction l1 as [|x l1 IH]; intros [|y l2] [|z l3] HQ H1 H2 H3 H12 H23;
    simpl in *; auto; try discriminate.
  apply andb_true_iff in H12 as [Hxy H12]. apply andb_true_iff in H23 as [Hyz H23].
  apply andb_true_iff in H1 as [Hx H1]. apply andb_true_iff in H2 as [Hy H2].
  apply andb_true_iff in H3 as [Hz H3].
  inversion HQ as [|? ? Hq HQ']; subst.
  rewrite (Hq y z Hx Hy Hz Hxy Hyz). simpl. apply (IH l2 l3); assumption.
Qed.

Lemma py_eq_trans (a : value) : forall b c,
  wf_value a = true -> wf_value b = true -> wf_value c = true ->
  py_eq a b = true -> py_eq b c = true -> py_eq a c = true.
Proof.
  induction a as [| x | m | s |l IH|d IH|cls d IH] using value_ind';
    intros b c Ha Hb Hc Hab Hbc;
    destruct b as [| y | n | t |l'|d'|cls' d']; simpl in Hab; try discriminate;
    destruct c as [| z | p | u |l''|d''|cls'' d'']; simpl in Hbc; try discriminate;
    simpl.
  - reflexivity.
  - destruct x, y, z; simpl in *; congruence.
  - apply Bool.eqb_prop in Hab. now subst.
  - apply Z.eqb_eq in Hab. apply Z.eqb_eq in Hbc. subst.
    apply Bool.eqb_true_iff. destruct x, z; simpl in *; congruence.
  - apply Z.eqb_eq in Hab. apply Z.eqb_eq in Hbc. apply Z.eqb_eq. congruence.
  - apply Z.eqb_eq in Hab. apply Bool.eqb_prop in Hbc. subst. now apply Z.eqb_eq.
  - apply Z.eqb_eq in Hab. apply Z.eqb_eq in Hbc. apply Z.eqb_eq. congruence.
  - apply Z.eqb_eq in Hab. apply Z.eqb_eq in Hbc. apply Z.eqb_eq. congruence.
  - apply Z.eqb_eq in Hab. apply Z.eqb_eq in Hbc. apply Z.eqb_eq. congruence.
  - apply String.eqb_eq in Hab. apply String.eqb_eq in Hbc. apply String.eqb_eq.
    congruence.
  - simpl in Ha, Hb, Hc. apply (list_eqb_trans l l' l''); assumption.
  - simpl in Ha, Hb, Hc.
    apply andb_true_iff in Ha as [Hn1 Hw1]. apply andb_true_iff in Hb as [Hn2 Hw2].
    apply andb_true_iff in Hc as [Hn3 Hw3].
    apply (dict_eqb_trans d d' d''); auto.
    intros k x y z Hx Hy Hz.
    pose proof (Forall_dict_get
                  (fun x => forall b c, wf_value x = true -> wf_value b = true ->
                     wf_value c = true -> py_eq x b = true -> py_eq b c = true ->
                     py_eq x c = true) d k x IH Hx) as Hq.
    apply Hq; eauto using wf_value_dict_get.
  - simpl in Ha, Hb, Hc.
    apply andb_true_iff in Ha as [Hn1 Hw1]. apply andb_true_iff in Hb as [Hn2 Hw2].
    apply andb_true_iff in Hc as [Hn3 Hw3].
    change (py_eq (VInst cls d) (VInst cls' d') = true) in Hab.
    change (py_eq (VInst cls' d') (VInst cls'' d'') = true) in Hbc.
    change (py_eq (VInst cls d) (VInst cls'' d'') = true).
    rewrite py_eq_inst in *. unfold compare in *. simpl in *.
    apply (dict_eqb_trans (norm_dict d) (norm_dict d') (norm_dict d''));
      auto using nodup_keys_norm.
    intros k x y z Hx Hy Hz.
    pose proof (Forall_dict_get
                  (fun x => forall b c, wf_value x = true -> wf_value b = true ->
                     wf_value c = true -> py_eq x b = true -> py_eq b c = true ->
                     py_eq x c = true)
                  (norm_dict d) k x (Forall_norm _ d IH) Hx) as Hq.
    apply Hq; eauto using wf_value_dict_get, wf_value_norm.
Qed.

(** X1.  [compare] is an equivalence on model instances whose dicts have
    distinct keys: an instance equals itself, [compare] gives the same
    answer with its arguments exchanged, and two instances that both equal
    a third one are equal. *)
Theorem compare_equivalence (a b c : value) :
  wf_value a = true -> wf_value b = true -> wf_value c = true ->
  (get__dict__ a <> None -> compare a a = true) /\
  compare a b = compare b a /\
  (compare a b = true -> compare b c = true -> compare a c = true).
Proof.
  intros Ha Hb Hc. split; [|split].
  - destruct a; simpl; try congruence. intros _.
    rewrite <- py_eq_inst. now apply py_eq_refl.
  - destruct a as [| | | | | |ca da]; destruct b as [| | | | | |cb db];
      try reflexivity.
    rewrite <- !py_eq_inst. now apply py_eq_sym.
  - destruct a as [| | | | | |ca da]; try discriminate.
    destruct b as [| | | | | |cb db]; try discriminate.
    destruct c as [| | | | | |cc dc]; try discriminate.
    rewrite <- !py_eq_inst. now apply py_eq_trans.
Qed.

Lemma compare_equivalence_witness :
  compare pet_one pet_one = true /\
  compare pet_one pet_one' = compare pet_one' pet_one /\
  compare pet_one pet_one'' = true.
Proof.
  destruct (compare_equivalence pet_one pet_one' pet_one'' eq_refl eq_refl eq_refl)
    as (Hrefl & Hsym & Htrans).
  split; [apply Hrefl; discriminate|]. split; [exact Hsym|].
  apply Htrans; reflexivity.
Defined.

(** ** What [create_flat_dict] raises, and when it cannot raise *)

Section FlatLoopRaises.
Variable rec : value -> outcome value.
Variable required : value.
Variable Q : exn -> Prop.

Lemma flat_loop_raises items : forall md e,
  nodup_keys items = true ->
  pending items md ->
  (forall k v e, In (k, v) items -> flat_value rec required k v = Raise e -> Q e) ->
  flat_loop rec required items md = Raise e ->
  Q e.
Proof.
  induction items as [|[k0 v0] items IH]; intros md e Hnd Hp HQ Hl;
    simpl in Hl; try discriminate.
  destruct (flat_entry rec required k0 v0 md) as [md1|e1] eqn:He; simpl in Hl.
  - pose proof (pending_step _ _ _ _ _ _ _ Hnd Hp He) as Hp1.
    simpl in Hnd. apply andb_true_iff in Hnd as [_ Hnd].
    apply (IH md1 e Hnd Hp1); auto.
    intros k v e' Hin. apply (HQ k v e'). now right.
  - injection Hl as <-.
    rewrite flat_entry_value in He.
    destruct (flat_value rec required k0 v0) as [[y|]|e2] eqn:Hv; try discriminate.
    + unfold dict_pop in He.
      rewrite (Hp k0 (or_introl eq_refl)) in He. discriminate.
    + injection He as <-. apply (HQ k0 v0 e2); auto. now left.
Qed.

Lemma flat_list_raises xs : forall e,
  flat_list rec xs = Raise e -> exists x, In x xs /\ rec x = Raise e.
Proof.
  induction xs as [|x xs IH]; intros e Hl; simpl in Hl; try discriminate.
  destruct (is_none x).
  - destruct (IH e Hl) as (x' & Hin & Hx). exists x'. split; auto. now right.
  - destruct (rec x) as [y|e1] eqn:Hx; simpl in Hl.
    + destruct (flat_list rec xs) as [ys|e2]; simpl in Hl; try discriminate.
      injection Hl as <-.
      destruct (IH e2 eq_refl) as (x' & Hin & Hx'). exists x'. split; auto. now right.
    + injection Hl as <-. exists x. split; auto. now left.
Qed.
End FlatLoopRaises.

Lemma wf_value_attr cls attrs k v :
  wf_value (VInst cls attrs) = true -> In (k, v) attrs -> wf_value v = true.
Proof.
  simpl. intros Hwf Hin. apply andb_true_iff in Hwf as [_ Hall].
  rewrite forallb_forall in Hall. exact (Hall _ Hin).
Qed.

Lemma wf_value_elem xs x :
  wf_value (VList xs) = true -> In x xs -> wf_value x = true.
Proof. simpl. intros Hwf Hin. rewrite forallb_forall in Hwf. auto. Qed.

Lemma is_required_raises required k e :
  is_required required k = Raise e ->
  exists t, e = Exn TypeError "argument of type '%s' is not iterable" [VStr t].
Proof.
  unfold is_required. destruct (py_bool required); try discriminate.
  destruct required; simpl; try discriminate;
    intros [= <-]; eexists; reflexivity.
Qed.

Lemma create_flat_dict_raises_depth (n : nat) : forall v e,
  depth v < n ->
  wf_value v = true ->
  create_flat_dict v = Raise e ->
  flat_error e.
Proof.
  induction n as [|n IH]; intros v e Hd Hwf Hc; [lia|].
  destruct v as [| | | | | |cls attrs]; try discriminate.
  rewrite create_flat_dict_inst in Hc.
  destruct (flat_loop create_flat_dict (getattr_required cls attrs) attrs attrs)
    as [md|e1] eqn:Hl; try discriminate.
  injection Hc as <-.
  pose proof Hwf as Hwf'. simpl in Hwf'. apply andb_true_iff in Hwf' as [Hnd _].
  apply (flat_loop_raises create_flat_dict (getattr_required cls attrs) flat_error
           attrs attrs e1 Hnd (pending_self attrs)); auto.
  intros k v e Hin Hv.
  pose proof (depth_attr_value cls k v attrs Hin) as Hdv.
  pose proof (wf_value_attr cls attrs k v Hwf Hin) as Hwv.
  destruct v as [| | | |xs| |]; simpl in Hv; unfold bind in Hv.
  - destruct (is_required (getattr_required cls attrs) k) as [[|]|e2] eqn:Hr;
      try discriminate; injection Hv as <-.
    + left. now exists k.
    + right. eapply is_required_raises; eauto.
  - discriminate.
  - discriminate.
  - discriminate.
  - destruct (flat_list create_flat_dict xs) as [ys|e2] eqn:Hxs; try discriminate.
    injection Hv as <-.
    destruct (flat_list_raises _ _ _ Hxs) as (x & Hx & Hcx).
    pose proof (depth_list_elem x xs Hx).
    apply (IH x e2); auto; [lia|]. eapply wf_value_elem; eauto.
  - discriminate.
  - destruct (flat_loop _ _ _ _) as [md|e2] eqn:Hinner in Hv; try discriminate.
    injection Hv as <-.
    apply (IH (VInst cls0 attrs0) e2); auto; [lia|].
    rewrite create_flat_dict_inst. now rewrite Hinner.
Qed.

Lemma flat_list_no_instance xs :
  (forall x, In x xs -> get__dict__ x = None) ->
  flat_list create_flat_dict xs = Ok (filter not_none xs).
Proof.
  induction xs as [|x xs IH]; intros Hxs; simpl; auto.
  unfold not_none at 1.
  destruct (is_none x) eqn:Hn; simpl.
  - apply IH. intros; apply Hxs; now right.
  - assert (Hx : create_flat_dict x = Ok x).
    { specialize (Hxs x (or_introl eq_refl)). destruct x; simpl in *; auto.
      discriminate. }
    rewrite Hx. simpl. rewrite IH; auto. intros; apply Hxs; now right.
Qed.

Lemma flat_value_none rec required k v r :
  flat_value rec required k v = Ok r ->
  match r with Some _ => true | None => false end = not_none v.
Proof.
  unfold not_none.
  destruct v; simpl; unfold bind; intros Hv;
    try solve [destruct (rec _); try discriminate; injection Hv as <-; reflexivity].
  - destruct (is_required required k) as [[|]|]; try discriminate.
    injection Hv as <-. reflexivity.
  - destruct (flat_list rec items); try discriminate.
    injection Hv as <-. reflexivity.
Qed.

Lemma create_flat_dict_lenient_depth (n : nat) : forall v,
  depth v < n ->
  wf_value v = true ->
  no_required_set v = true ->
  is_ok (create_flat_dict v) = true.
Proof.
  induction n as [|n IH]; intros v Hd Hwf Hnr; [lia|].
  destruct v as [| | | | | |cls attrs]; try reflexivity.
  pose proof Hwf as Hwf'. simpl in Hwf'. apply andb_true_iff in Hwf' as [Hnd _].
  simpl in Hnr. apply andb_true_iff in Hnr as [Hreq Hall].
  apply negb_true_iff in Hreq. rewrite forallb_forall in Hall.
  destruct (create_flat_dict_total cls attrs Hnd) as [d Hok]; [|now rewrite Hok].
  intros k v Hin.
  pose proof (depth_attr_value cls k v attrs Hin) as Hdv.
  pose proof (wf_value_attr cls attrs k v Hwf Hin) as Hwv.
  specialize (Hall _ Hin). simpl in Hall.
  destruct v as [| | | |xs| |]; try reflexivity.
  - simpl. unfold is_required. now rewrite Hreq.
  - simpl.
    destruct (flat_list_total create_flat_dict xs) as [ys Hys]; [|now rewrite Hys].
    intros x Hx _. rewrite forallb_forall in Hall.
    pose proof (depth_list_elem x xs Hx).
    apply IH; auto; [lia|]. eapply wf_value_elem; eauto.
  - assert (Hin' : is_ok (create_flat_dict (VInst cls0 attrs0)) = true)
      by (apply IH; auto; lia).
    unfold flat_value, bind.
    destruct (create_flat_dict (VInst cls0 attrs0)); auto.
Qed.

(** X2.  The only exceptions that flattening a value with distinct keys
    raises are the [AttributeError] for a required attribute that is [None]
    and the [TypeError] of the membership test on a required set that is
    not a container; [model_dict.pop(k)] never fails with a [KeyError]. *)
Theorem create_flat_dict_raises (v : value) (e : exn) :
  wf_value v = true ->
  create_flat_dict v = Raise e ->
  flat_error e /\ exn_cls e <> KeyError.
Proof.
  intros Hwf Hc.
  assert (He : flat_error e)
    by (apply (create_flat_dict_raises_depth (S (depth v)) v e); auto).
  split; [exact He|].
  destruct He as [[k ->]|[t ->]]; discriminate.
Qed.

Lemma create_flat_dict_raises_witness :
  exists e,
    create_flat_dict (VInst Pet pet_unnamed_attrs) = Raise e /\
    flat_error e /\ exn_cls e <> KeyError.
Proof.
  eexists. split; [reflexivity|].
  apply (create_flat_dict_raises (VInst Pet pet_unnamed_attrs)); reflexivity.
Defined.

(** X3.  The mapping that flattening returns has exactly the attributes of
    the instance whose value is not [None]: an attribute is a key of the
    result when the instance has it with a value other than [None], and
    the result has no other key. *)
Theorem create_flat_dict_keys (cls : model_type) (attrs d : dict) (k : string) :
  nodup_keys attrs = true ->
  create_flat_dict (VInst cls attrs) = Ok (VDict d) ->
  dict_mem k d = match dict_get k attrs with
                 | Some v => not_none v
                 | None => false
                 end.
Proof.
  intros Hnd Hc.
  destruct (create_flat_dict_entries cls attrs _ Hnd Hc) as (d' & [= <-] & Hin & Hout).
  unfold dict_mem at 1.
  destruct (dict_get k attrs) as [v|] eqn:Hk.
  - destruct (Hin k v (dict_get_In _ _ _ Hk)) as (r & Hr & Hg).
    rewrite Hg. eapply flat_value_none; eauto.
  - rewrite Hout; auto. unfold dict_mem. now rewrite Hk.
Qed.

Lemma create_flat_dict_keys_witness :
  exists d,
    create_flat_dict (VInst Pet pet_rex_attrs) = Ok (VDict d) /\
    dict_mem "id" d = false /\ dict_mem "name" d = true /\
    dict_mem "colour" d = false.
Proof.
  eexists. split; [reflexivity|].
  split; [|split].
  - apply (create_flat_dict_keys Pet pet_rex_attrs _ "id"); reflexivity.
  - apply (create_flat_dict_keys Pet pet_rex_attrs _ "name"); reflexivity.
  - apply (create_flat_dict_keys Pet pet_rex_attrs _ "colour"); reflexivity.
Defined.

(** X4.  Flattening goes one level into an instance: an attribute that
    holds a plain dict or a scalar keeps its value as it is, with the
    instances and the [None]s that a dict holds; and of a list-valued
    attribute whose elements are not instances, the [None] elements are
    dropped and the others kept as they are, lists among them. *)
Theorem create_flat_dict_one_level (cls : model_type) (attrs d : dict)
    (k : string) (v : value) :
  nodup_keys attrs = true ->
  In (k, v) attrs ->
  create_flat_dict (VInst cls attrs) = Ok (VDict d) ->
  match v with
  | VNone => dict_get k d = None
  | VList xs =>
      (forall x, In x xs -> get__dict__ x = None) ->
      dict_get k d = Some (VList (filter not_none xs))
  | VInst _ _ => True
  | _ => dict_get k d = Some v
  end.
Proof.
  intros Hnd Hin Hc.
  destruct (create_flat_dict_entries cls attrs _ Hnd Hc) as (d' & [= <-] & Hattrs & _).
  destruct (Hattrs k v Hin) as (r & Hr & Hg). rewrite Hg. clear Hg Hattrs.
  destruct v as [| | | |xs| |]; simpl in Hr; unfold bind in Hr; auto;
    try (injection Hr as <-; reflexivity).
  - destruct (is_required (getattr_required cls attrs) k) as [[|]|]; try discriminate.
    now injection Hr as <-.
  - intros Hxs. rewrite (flat_list_no_instance xs Hxs) in Hr. now injection Hr as <-.
Qed.

Lemma create_flat_dict_one_level_witness :
  exists d,
    create_flat_dict (VInst Tag nested_attrs) = Ok (VDict d) /\
    dict_get "meta" d = Some (VDict [("owner", tag 1 "a"); ("note", VNone)]) /\
    dict_get "rows" d = Some (VList [VList [tag 2 "b"; VNone]; VInt 7]).
Proof.
  eexists. split; [reflexivity|]. split.
  - apply (create_flat_dict_one_level Tag nested_attrs _ "meta"
             (VDict [("owner", tag 1 "a"); ("note", VNone)]));
      [reflexivity|simpl; auto|reflexivity].
  - apply (create_flat_dict_one_level Tag nested_attrs _ "rows"
             (VList [VList [tag 2 "b"; VNone]; VNone; VInt 7]));
      [reflexivity|simpl; auto|reflexivity|].
    intros x [<-|[<-|[<-|[]]]]; reflexivity.
Defined.

(** X5.  Flattening fails only through a required set: a value with
    distinct keys flattens when no model that flattening reaches - the
    instance, the instances its attributes hold and those in the lists its
    attributes hold - has a required set. *)
Theorem create_flat_dict_no_required_set (v : value) :
  wf_value v = true ->
  no_required_set v = true ->
  exists out, create_flat_dict v = Ok out.
Proof.
  intros Hwf Hnr.
  pose proof (create_flat_dict_lenient_depth (S (depth v)) v (Nat.lt_succ_diag_r _)
                Hwf Hnr) as Hok.
  destruct (create_flat_dict v) as [out|]; try discriminate. now exists out.
Qed.

Lemma create_flat_dict_no_required_set_witness :
  exists out, create_flat_dict (VInst Tag nested_attrs) = Ok out.
Proof.
  apply (create_flat_dict_no_required_set (VInst Tag nested_attrs)); reflexivity.
Defined.

(** ** Construction: every case of the call, and what does not matter *)

Lemma dict_ext (a : dict) : forall b : dict,
  nodup_keys a = true ->
  dict_keys a = dict_keys b ->
  (forall k, In k (dict_keys a) -> dict_get k a = dict_get k b) ->
  a = b.
Proof.
  induction a as [|[k v] a IH]; intros [|[k' v'] b] Hnd Hk Hg;
    simpl in Hk; try discriminate; auto.
  injection Hk as <- Hk.
  simpl in Hnd. apply andb_true_iff in Hnd as [Hfresh Hnd].
  apply negb_true_iff in Hfresh.
  pose proof (Hg k (or_introl eq_refl)) as Hhead. simpl in Hhead.
  rewrite String.eqb_refl in Hhead. injection Hhead as <-.
  f_equal. apply IH; auto.
  intros k1 Hin. specialize (Hg k1 (or_intror Hin)). simpl in Hg.
  destruct (String.eqb k1 k) eqn:E; auto.
  apply String.eqb_eq in E. subst k1.
  apply dict_mem_In_keys in Hin. congruence.
Qed.

Lemma unknown_keys_nil (types : dict) (keys : list string) :
  unknown_keys types keys = [] <->
  forall k, In k keys -> dict_mem k types = true.
Proof.
  unfold unknown_keys. induction keys as [|k keys IH]; simpl.
  - split; [intros _ ? []|reflexivity].
  - destruct (dict_mem k types) eqn:E; simpl.
    + rewrite IH. split.
      * intros Hall k' [<-|Hin]; auto.
      * intros Hall k' Hin. apply Hall. now right.
    + split; [discriminate|].
      intros Hall. specialize (Hall k (or_introl eq_refl)). congruence.
Qed.

Lemma dict_mem_ext {V : Type} (a b : list (string * V)) :
  (forall k, dict_get k a = dict_get k b) ->
  forall k, dict_mem k a = dict_mem k b.
Proof. intros H k. unfold dict_mem. now rewrite H. Qed.

Lemma Pet_plain_names (p : string) :
  dict_mem p (_swagger_types Pet) = true -> is_dunder p = false.
Proof.
  intros Hp. apply dict_mem_In_keys in Hp.
  destruct Hp as [<-|[<-|[<-|[]]]]; reflexivity.
Qed.



(** X7.  The instance that a construction call returns does not depend
    on the order of the keywords: two keyword dicts that hold the same
    values under the same names give the same instance. *)
Theorem construct_keyword_order `{Collaborators} (cls : model_type)
    (kwargs kwargs' : dict) (m : value) :
  nodup_keys kwargs = true ->
  nodup_keys kwargs' = true ->
  nodup_keys (_swagger_types cls) = true ->
  (forall k, dict_get k kwargs' = dict_get k kwargs) ->
  construct cls kwargs = Ok m ->
  construct cls kwargs' = Ok m.
Proof.
  intros Hkw Hkw' Htypes Hsame Hc.
  pose proof (dict_mem_ext _ _ Hsame) as Hmem.
  destruct (dict_mem "self" kwargs) eqn:Hself.
  { unfold construct, bind_keywords in Hc. rewrite Hself in Hc. discriminate. }
  destruct (dict_mem "model" kwargs) eqn:Hmodel.
  { unfold construct, bind_keywords in Hc. rewrite Hself in Hc. simpl in Hc.
    rewrite Hmodel in Hc. discriminate. }
  destruct (construct_spec kwargs cls Hkw Htypes Hself Hmodel)
    as (attrs & Hkeys & Hvals & Hres).
  destruct (construct_spec kwargs' cls Hkw' Htypes) as (attrs' & Hkeys' & Hvals' & Hres');
    try (rewrite Hmem; assumption).
  rewrite Hres in Hc.
  destruct (unknown_keys (_swagger_types cls) (dict_keys kwargs)) eqn:Hu;
    try discriminate.
  injection Hc as <-.
  assert (Hu' : unknown_keys (_swagger_types cls) (dict_keys kwargs') = []).
  { apply unknown_keys_nil. intros k Hin.
    rewrite unknown_keys_nil in Hu. apply Hu.
    apply dict_mem_In_keys. rewrite <- Hmem. now apply dict_mem_In_keys. }
  rewrite Hres', Hu'. do 2 f_equal.
  apply dict_ext.
  - apply nodup_keys_NoDup. rewrite Hkeys'. now apply nodup_keys_NoDup.
  - congruence.
  - intros k Hin. rewrite Hkeys' in Hin.
    apply dict_mem_In_keys in Hin. unfold dict_mem in Hin.
    destruct (dict_get k (_swagger_types cls)) as [t|] eqn:Ht; try discriminate.
    apply dict_get_In in Ht.
    rewrite (Hvals' k t Ht), (Hvals k t Ht). unfold prop_value. now rewrite Hsame.
Qed.

Lemma construct_keyword_order_witness :
  @construct sample_collaborators Pet [("id", VInt 3); ("name", VStr "Rex")]
    = Ok (VInst Pet [("id", VInt 3); ("name", VStr "Rex"); ("tags", VNone)]).
Proof.
  apply (@construct_keyword_order sample_collaborators Pet
           [("name", VStr "Rex"); ("id", VInt 3)]
           [("id", VInt 3); ("name", VStr "Rex")]); try reflexivity.
  intros k. simpl.
  destruct (String.eqb k "id") eqn:E1, (String.eqb k "name") eqn:E2; auto.
  apply String.eqb_eq in E1. apply String.eqb_eq in E2. congruence.
Defined.

(** X8.  [set_props] on a model that already has attributes, no declared
    property having a name of the form [__x]: every declared property is
    overwritten - by the keyword of its name, or by the default of its type
    when there is none, whatever it held before - and every attribute that
    is no declared property is left as it was. *)
Theorem set_props_assigns `{Collaborators} (cls : model_type)
    (attrs kwargs : dict) (m' : value) :
  nodup_keys kwargs = true ->
  nodup_keys (_swagger_types cls) = true ->
  (forall p, dict_mem p (_swagger_types cls) = true -> is_dunder p = false) ->
  dict_get "_swagger_types" attrs = None ->
  set_props (VInst cls attrs) kwargs = Ok m' ->
  exists attrs',
    m' = VInst cls attrs' /\
    (forall p t, In (p, t) (_swagger_types cls) ->
       dict_get p attrs' = Some (prop_value kwargs p t)) /\
    (forall k, dict_mem k (_swagger_types cls) = false ->
       dict_get k attrs' = dict_get k attrs).
Proof.
  intros Hkw Htypes _ Hown Hs.
  unfold set_props, getattr_swagger_types in Hs. rewrite Hown in Hs.
  destruct (set_props_loop_spec kwargs (_swagger_types cls) (dict_keys kwargs) attrs
              Htypes) as (attrs' & Hl & Hvals & Hframe & _).
  { now apply nodup_keys_NoDup. }
  { intros p _. apply mem_string_keys. }
  rewrite Hl in Hs. simpl in Hs.
  destruct (unknown_keys (_swagger_types cls) (dict_keys kwargs)); try discriminate.
  injection Hs as <-. exists attrs'. auto.
Qed.

Lemma set_props_assigns_witness :
  exists attrs',
    @set_props sample_collaborators
      (VInst Pet [("_raw", VStr "{}"); ("id", VInt 1)]) [("name", VStr "Rex")]
      = Ok (VInst Pet attrs') /\
    dict_get "id" attrs' = Some VNone /\
    dict_get "name" attrs' = Some (VStr "Rex") /\
    dict_get "_raw" attrs' = Some (VStr "{}").
Proof.
  destruct (@set_props_assigns sample_collaborators Pet
              [("_raw", VStr "{}"); ("id", VInt 1)] [("name", VStr "Rex")]
              _ eq_refl eq_refl Pet_plain_names eq_refl eq_refl)
    as (attrs' & Heq & Hvals & Hframe).
  exists attrs'. split; [rewrite <- Heq; reflexivity|]. split; [|split].
  - apply (Hvals "id" (VStr "integer")). simpl. auto.
  - apply (Hvals "name" (VStr "string")). simpl. auto.
  - apply (Hframe "_raw"). reflexivity.
Defined.

(** X9.  Construction followed by flattening, no declared property having
    a name of the form [__x]: the flattened mapping of a freshly constructed
    instance has exactly the declared properties whose value - the keyword
    of that name, or the default of the type - is not [None]. *)
Theorem construct_then_flatten `{Collaborators} (cls : model_type)
    (kwargs d : dict) (m : value) (k : string) :
  nodup_keys kwargs = true ->
  nodup_keys (_swagger_types cls) = true ->
  (forall p, dict_mem p (_swagger_types cls) = true -> is_dunder p = false) ->
  construct cls kwargs = Ok m ->
  create_flat_dict m = Ok (VDict d) ->
  dict_mem k d = match dict_get k (_swagger_types cls) with
                 | Some t => not_none (prop_value kwargs k t)
                 | None => false
                 end.
Proof.
  intros Hkw Htypes _ Hc Hf.
  destruct (dict_mem "self" kwargs) eqn:Hself.
  { unfold construct, bind_keywords in Hc. rewrite Hself in Hc. discriminate. }
  destruct (dict_mem "model" kwargs) eqn:Hmodel.
  { unfold construct, bind_keywords in Hc. rewrite Hself in Hc. simpl in Hc.
    rewrite Hmodel in Hc. discriminate. }
  destruct (construct_spec kwargs cls Hkw Htypes Hself Hmodel)
    as (attrs & Hkeys & Hvals & Hres).
  rewrite Hres in Hc.
  destruct (unknown_keys (_swagger_types cls) (dict_keys kwargs)); try discriminate.
  injection Hc as <-.
  assert (Hnd : nodup_keys attrs = true).
  { apply nodup_keys_NoDup. rewrite Hkeys. now apply nodup_keys_NoDup. }
  destruct (create_flat_dict_entries cls attrs _ Hnd Hf) as (d' & [= <-] & Hin & Hout).
  unfold dict_mem at 1.
  destruct (dict_get k (_swagger_types cls)) as [t|] eqn:Ht.
  - apply dict_get_In in Ht.
    pose proof (Hvals k t Ht) as Hk. apply dict_get_In in Hk.
    destruct (Hin k _ Hk) as (r & Hr & Hg). rewrite Hg.
    eapply flat_value_none; eauto.
  - rewrite Hout; auto.
    apply dict_get_None_keys in Ht. rewrite <- Hkeys in Ht.
    apply dict_get_None_keys in Ht. unfold dict_mem. now rewrite Ht.
Qed.

Lemma construct_then_flatten_witness :
  exists m d,
    @construct sample_collaborators Pet [("name", VStr "Rex")] = Ok m /\
    create_flat_dict m = Ok (VDict d) /\
    dict_mem "name" d = true /\ dict_mem "id" d = false.
Proof.
  eexists. eexists. split; [reflexivity|]. split; [reflexivity|]. split.
  - eapply (@construct_then_flatten sample_collaborators Pet [("name", VStr "Rex")]
              _ _ "name"); try reflexivity. exact Pet_plain_names.
  - eapply (@construct_then_flatten sample_collaborators Pet [("name", VStr "Rex")]
              _ _ "id"); try reflexivity. exact Pet_plain_names.
Defined.

(** ** The registry: which class a name gets, which names it has, how it fails *)

Section RegistryClasses.
Context `{Collaborators}.

Lemma build_models_loop_positions items : forall models s models' s',
  nodup_keys items = true ->
  pointer_free items ->
  build_models_loop items models s = Ok (models', s') ->
  (forall i name spec, nth_error items i = Some (name, spec) ->
     dict_get name models' = Some (List.length s + i) /\
     dict_get (canonical name) models' = Some (List.length s + i)) /\
  List.length s' = List.length s + List.length items.
Proof.
  induction items as [|[name0 spec0] rest IH]; intros models s models' s' Hnd Hpf Hl.
  - simpl in Hl. injection Hl as <- <-. split; [|simpl; lia].
    intros [|i] name spec Hi; discriminate.
  - destruct (create_model_type name0 spec0) as [t0|e] eqn:Ht;
      [|simpl in Hl; rewrite Ht in Hl; discriminate].
    rewrite (build_models_loop_cons _ _ _ _ _ _ Ht) in Hl.
    pose proof Hnd as Hnd0. simpl in Hnd0.
    apply andb_true_iff in Hnd0 as [Hfresh Hnd'].
    apply negb_true_iff in Hfresh.
    assert (Hmem0 : dict_mem name0 ((name0, spec0) :: rest) = true).
    { rewrite dict_mem_cons. now rewrite String.eqb_refl. }
    assert (Hmem : forall n, dict_mem n rest = true ->
                             dict_mem n ((name0, spec0) :: rest) = true).
    { intros n Hn. rewrite dict_mem_cons, Hn. apply orb_true_r. }
    assert (Hpf' : pointer_free rest).
    { intros n Hn. specialize (Hpf n (Hmem n Hn)).
      rewrite dict_mem_cons in Hpf. now apply orb_false_iff in Hpf as [_ Hpf]. }
    destruct (IH _ _ _ _ Hnd' Hpf' Hl) as (Hpos & Hlen).
    destruct (build_models_loop_registry _ _ _ _ _ Hnd' Hpf' Hl) as (_ & Hframe & _).
    assert (Hne0 : name0 <> canonical name0).
    { intros E. specialize (Hpf name0 Hmem0). rewrite <- E in Hpf. congruence. }
    assert (Hc0 : dict_mem (canonical name0) rest = false).
    { specialize (Hpf name0 Hmem0).
      rewrite dict_mem_cons in Hpf. now apply orb_false_iff in Hpf as [_ Hpf]. }
    split.
    + intros [|i] name spec Hi; simpl in Hi.
      * injection Hi as <- <-. rewrite Nat.add_0_r. split.
        -- rewrite Hframe; auto.
           ++ rewrite dict_get_set_other by exact Hne0. apply dict_get_set_same.
           ++ intros n Hn E. specialize (Hpf n (Hmem n Hn)).
              rewrite <- E in Hpf. congruence.
        -- rewrite Hframe; auto.
           ++ apply dict_get_set_same.
           ++ intros n Hn E. apply canonical_inj in E. subst n. congruence.
      * destruct (Hpos i name spec Hi) as [H1 H2].
        rewrite length_app in H1, H2. simpl in H1, H2.
        replace (List.length s + S i) with (List.length s + 1 + i) by lia. auto.
    + rewrite Hlen, length_app. simpl. lia.
Qed.

Lemma build_models_loop_prefix items : forall models s models' s',
  build_models_loop items models s = Ok (models', s') ->
  exists types, s' = s ++ types.
Proof.
  induction items as [|[name0 spec0] rest IH]; intros models s models' s' Hl.
  - simpl in Hl. injection Hl as <- <-. exists []. now rewrite app_nil_r.
  - destruct (create_model_type name0 spec0) as [t0|e] eqn:Ht;
      [|simpl in Hl; rewrite Ht in Hl; discriminate].
    rewrite (build_models_loop_cons _ _ _ _ _ _ Ht) in Hl.
    destruct (IH _ _ _ _ Hl) as [types ->].
    exists (t0 :: types). now rewrite <- app_assoc.
Qed.
End RegistryClasses.

(** X10.  [build_models] makes one class per definition, in the order of
    the definitions and after the classes that the store already holds,
    which it leaves as they are: when no name is the canonical pointer of a
    name, the two names of the [i]-th definition resolve to the [i]-th class
    made by the call, so that the names of different definitions never
    resolve to the same class. *)
Theorem build_models_classes `{Collaborators} (defs : dict) (s s' : type_store)
    (models : registry) :
  nodup_keys defs = true ->
  pointer_free defs ->
  build_models (VDict defs) s = Ok (models, s') ->
  (forall i name spec, nth_error defs i = Some (name, spec) ->
     dict_get name models = Some (List.length s + i) /\
     dict_get (canonical name) models = Some (List.length s + i)) /\
  (forall n1 n2 r, n1 <> n2 ->
     dict_mem n1 defs = true -> dict_mem n2 defs = true ->
     dict_get n1 models = Some r -> dict_get n2 models <> Some r) /\
  List.length s' = List.length s + List.length defs /\
  (forall r t, nth_error s r = Some t -> nth_error s' r = Some t).
Proof.
  intros Hnd Hpf Hb. simpl in Hb.
  destruct (build_models_loop_positions _ _ _ _ _ Hnd Hpf Hb) as [Hpos Hlen].
  destruct (build_models_loop_prefix _ _ _ _ _ Hb) as [types ->].
  split; [exact Hpos|]. split; [|split; [exact Hlen|]].
  - intros n1 n2 r Hne H1 H2 Hr1 Hr2.
    unfold dict_mem in H1, H2.
    destruct (dict_get n1 defs) as [sp1|] eqn:E1; try discriminate.
    destruct (dict_get n2 defs) as [sp2|] eqn:E2; try discriminate.
    apply dict_get_In, In_nth_error in E1 as [i Hi].
    apply dict_get_In, In_nth_error in E2 as [j Hj].
    destruct (Hpos i _ _ Hi) as [Hi1 _]. destruct (Hpos j _ _ Hj) as [Hj1 _].
    assert (i = j) by (rewrite Hi1 in Hr1; rewrite Hj1 in Hr2; injection Hr1;
                       injection Hr2; lia).
    subst j. congruence.
  - intros r t Hr. rewrite nth_error_app1; auto.
    apply nth_error_Some. congruence.
Qed.

Lemma build_models_classes_witness :
  exists models s',
    @build_models sample_collaborators (VDict uniform_definitions) [Tag]
      = Ok (models, s') /\
    dict_get "Pet" models = Some 1 /\
    dict_get "#/definitions/Ids" models = Some 2 /\
    nth_error s' 0 = Some Tag.
Proof.
  eexists. eexists. split; [reflexivity|].
  destruct (@build_models_classes sample_collaborators uniform_definitions [Tag] _ _
              eq_refl uniform_definitions_pointer_free eq_refl)
    as (Hpos & _ & _ & Hold).
  split; [|split].
  - exact (proj1 (Hpos 0 _ _ eq_refl)).
  - exact (proj2 (Hpos 1 _ _ eq_refl)).
  - apply Hold. reflexivity.
Defined.

(** X11.  The registry that [build_models] returns has the bare name and
    the canonical pointer of every definition as its keys, and no other
    key. *)
Theorem build_models_names `{Collaborators} (defs : dict) (s s' : type_store)
    (models : registry) (k : string) :
  build_models (VDict defs) s = Ok (models, s') ->
  (dict_mem k models = true <->
   exists name, dict_mem name defs = true /\ (k = name \/ k = canonical name)).
Proof.
  intros Hb. simpl in Hb.
  rewrite (build_models_loop_keys _ _ _ _ _ Hb k). simpl.
  rewrite existsb_exists. split.
  - intros ([name spec] & Hin & Hk). exists name. split.
    + eapply In_dict_mem; eauto.
    + simpl in Hk. apply orb_true_iff in Hk as [Hk|Hk];
        apply String.eqb_eq in Hk; auto.
  - intros (name & Hm & Hk). unfold dict_mem in Hm.
    destruct (dict_get name defs) as [spec|] eqn:Hg; try discriminate.
    exists (name, spec). split; [now apply dict_get_In|].
    simpl. apply orb_true_iff.
    destruct Hk as [->| ->]; [left|right]; apply String.eqb_refl.
Qed.

Lemma build_models_names_witness :
  exists models s',
    @build_models sample_collaborators (VDict uniform_definitions) []
      = Ok (models, s') /\
    dict_mem "#/definitions/Ids" models = true /\
    dict_mem "properties" models = false.
Proof.
  eexists. eexists. split; [reflexivity|]. split.
  - apply (@build_models_names sample_collaborators uniform_definitions [] _ _
             "#/definitions/Ids" eq_refl).
    exists "Ids". split; [reflexivity|now right].
  - apply not_true_is_false. intros Hk.
    apply (@build_models_names sample_collaborators uniform_definitions [] _ _
             "properties" eq_refl) in Hk.
    destruct Hk as (name & Hm & Hk).
    apply dict_mem_In_keys in Hm. simpl in Hm.
    destruct Hm as [<-|[<-|[]]]; destruct Hk; discriminate.
Defined.

(** ** Tagging twice, and tagging what is not a dict *)

Lemma dict_set_idem {V : Type} (d : list (string * V)) k v :
  dict_set k v (dict_set k v d) = dict_set k v d.
Proof.
  induction d as [|[k0 v0] d IH]; simpl.
  - now rewrite String.eqb_refl.
  - destruct (String.eqb k k0) eqn:E; simpl; rewrite E; [reflexivity|].
    now rewrite IH.
Qed.

Lemma tag_model_idem (name : string) (d d' : dict) :
  tag_model name (VDict d) = Ok (VDict d') ->
  tag_model name (VDict d') = Ok (VDict d').
Proof.
  unfold tag_model.
  assert (Hmarker : "type" <> MODEL_MARKER) by discriminate.
  destruct (is_none match dict_get "type" d with Some v => v | None => VNone end)
    eqn:Hnone; simpl.
  - intros [= <-].
    rewrite dict_get_set_other by exact Hmarker.
    rewrite dict_get_set_same. simpl. now rewrite dict_set_idem.
  - destruct (py_eq match dict_get "type" d with Some v => v | None => VNone end
                    (VStr "object")) eqn:Hobj; intros [= <-].
    + rewrite dict_get_set_other by exact Hmarker.
      rewrite Hnone. simpl. rewrite Hobj. now rewrite dict_set_idem.
    + rewrite Hnone. simpl. now rewrite Hobj.
Qed.

Lemma tag_model_dict (name : string) (spec spec' : value) :
  tag_model name spec = Ok spec' ->
  exists d d', spec = VDict d /\ spec' = VDict d'.
Proof.
  destruct spec as [| | | | |d|]; try discriminate.
  destruct (tag_model_tagged name d) as (d' & Ht & _).
  rewrite Ht. intros [= <-]. now exists d, d'.
Qed.

Lemma tag_models_loop_idem (models_dict : dict) : forall models_dict',
  tag_models_loop models_dict = Ok models_dict' ->
  tag_models_loop models_dict' = Ok models_dict'.
Proof.
  induction models_dict as [|[name spec] rest IH]; intros out Hl; simpl in Hl.
  - now injection Hl as <-.
  - destruct (tag_model name spec) as [spec'|] eqn:Ht; simpl in Hl; try discriminate.
    destruct (tag_models_loop rest) as [rest'|] eqn:Hr; simpl in Hl; try discriminate.
    injection Hl as <-.
    destruct (tag_model_dict _ _ _ Ht) as (d & d' & -> & ->).
    change (tag_models_loop ((name, VDict d') :: rest'))
      with (model_spec' <- tag_model name (VDict d') ;;
            rest'' <- tag_models_loop rest' ;;
            Ok ((name, model_spec') :: rest'')).
    rewrite (tag_model_idem _ _ _ Ht). simpl.
    now rewrite (IH rest' eq_refl).
Qed.

Lemma tag_models_loop_fails (models_dict : dict) (name : string) (spec : value) :
  In (name, spec) models_dict ->
  (forall d, spec <> VDict d) ->
  exists e, tag_models_loop models_dict = Raise e /\ exn_cls e = AttributeError.
Proof.
  intros Hin Hnd.
  induction models_dict as [|[name0 spec0] rest IH]; [destruct Hin|].
  simpl.
  destruct (tag_model name0 spec0) as [spec0'|e0] eqn:Ht; simpl.
  - destruct Hin as [[= -> ->]|Hin].
    + destruct (tag_model_dict _ _ _ Ht) as (d & _ & -> & _).
      now destruct (Hnd d).
    + destruct (IH Hin) as (e & -> & He). simpl. now exists e.
  - exists e0. split; auto.
    destruct spec0 as [| | | | |d0|]; try (simpl in Ht; now injection Ht as <-).
    destruct (tag_model_tagged name0 d0) as (d' & Ht' & _). congruence.
Qed.

(** X13.  Tagging is idempotent: a document that [tag_models] has tagged
    is left as it is by a second call. *)
Theorem tag_models_idempotent (spec_dict out : value) :
  tag_models spec_dict = Ok out ->
  tag_models out = Ok out.
Proof.
  destruct spec_dict as [| | | | |sd|]; try discriminate.
  unfold tag_models at 1.
  destruct (dict_get "definitions" sd) as [defs|] eqn:Hd.
  - destruct defs as [| | | | |models_dict|]; try discriminate.
    destruct (tag_models_loop models_dict) as [models_dict'|] eqn:Hl;
      simpl; try discriminate.
    intros [= <-]. unfold tag_models.
    rewrite dict_get_set_same.
    rewrite (tag_models_loop_idem _ _ Hl). simpl.
    now rewrite dict_set_idem.
  - intros [= <-]. unfold tag_models. now rewrite Hd.
Qed.

Lemma tag_models_idempotent_witness :
  exists out,
    tag_models (VDict [("definitions", VDict petstore_definitions)]) = Ok out /\
    tag_models out = Ok out.
Proof.
  eexists. split; [reflexivity|].
  apply (tag_models_idempotent (VDict [("definitions", VDict petstore_definitions)])).
  reflexivity.
Defined.

(** X14.  [tag_models] does not guard against a malformed [definitions]
    section: when the section is present and is not a dict, or one of the
    definitions is not a dict, the call raises [AttributeError]. *)
Theorem tag_models_malformed (sd : dict) (defs : value) :
  dict_get "definitions" sd = Some defs ->
  (forall models_dict, defs <> VDict models_dict) \/
  (exists models_dict name spec,
     defs = VDict models_dict /\ In (name, spec) models_dict /\
     forall d, spec <> VDict d) ->
  exists e, tag_models (VDict sd) = Raise e /\ exn_cls e = AttributeError.
Proof.
  intros Hd [Hnd|(models_dict & name & spec & -> & Hin & Hspec)];
    unfold tag_models; rewrite Hd.
  - destruct defs; try (eexists; split; reflexivity).
    now destruct (Hnd items).
  - destruct (tag_models_loop_fails _ _ _ Hin Hspec) as (e & -> & He).
    simpl. now exists e.
Qed.

Lemma tag_models_malformed_witness :
  exists e,
    tag_models (VDict [("definitions", VDict [("Pet", VDict []); ("Name", VStr "string")])])
      = Raise e /\
    exn_cls e = AttributeError.
Proof.
  apply (tag_models_malformed
           [("definitions", VDict [("Pet", VDict []); ("Name", VStr "string")])]
           (VDict [("Pet", VDict []); ("Name", VStr "string")]) eq_refl).
  right. exists [("Pet", VDict []); ("Name", VStr "string")], "Name", (VStr "string").
  split; [reflexivity|]. split; [simpl; auto|discriminate].
Defined.

(** ** When the normalizer changes nothing, and normalizing twice *)

Lemma string_length_append (a b : string) :
  String.length (a ++ b) = String.length a + String.length b.
Proof. induction a as [|c a IH]; simpl; auto. Qed.

Lemma canonical_neq (n : string) : canonical n <> n.
Proof.
  intros E. apply (f_equal String.length) in E.
  unfold canonical in E. rewrite string_length_append in E. simpl in E. lia.
Qed.

Lemma map_eq_self {A : Type} (f : A -> A) (l : list A) :
  map f l = l <-> forall x, In x l -> f x = x.
Proof.
  induction l as [|a l IH]; simpl.
  - split; auto. intros _ ? [].
  - split.
    + intros [= Ha Hl] x [<-|Hin]; auto. now apply IH.
    + intros Hall. f_equal; auto. apply IH. auto.
Qed.

Lemma existsb_false_iff {A : Type} (f : A -> bool) (l : list A) :
  existsb f l = false <-> forall x, In x l -> f x = false.
Proof.
  induction l as [|a l IH]; simpl.
  - split; auto. intros _ ? [].
  - rewrite orb_false_iff, IH. split.
    + intros [Ha Hl] x [<-|Hin]; auto.
    + intros Hall. split; auto.
Qed.

Lemma nodup_keys_same_keys {V W : Type} (d : list (string * V)) :
  forall d' : list (string * W),
  dict_keys d' = dict_keys d -> nodup_keys d' = nodup_keys d.
Proof.
  intros d' Hk.
  apply Bool.eq_true_iff_eq. rewrite !nodup_keys_NoDup. now rewrite Hk.
Qed.

Section NormalizerFixpoints.
Context `{Collaborators}.
Variable names : list string.

Lemma dict_keys_normalize_entries (g : string -> value -> value) (d : dict) :
  dict_keys (map (fun kv => (fst kv, g (fst kv) (snd kv))) d) = dict_keys d.
Proof. unfold dict_keys. rewrite map_map. now apply map_ext. Qed.

Lemma is_bare_ref_true k v :
  is_bare_ref (map VStr names) k v = true ->
  exists n, v = VStr n /\ mem_string n names = true.
Proof.
  unfold is_bare_ref. rewrite py_in_strings. intros Hb.
  apply andb_true_iff in Hb as [_ Hb].
  destruct v; try discriminate. eauto.
Qed.

Lemma is_bare_ref_normalize k v :
  is_bare_ref (map VStr names) k (normalize (map VStr names) v) =
  is_bare_ref (map VStr names) k v.
Proof. unfold is_bare_ref. rewrite !py_in_strings. now destruct v. Qed.

Lemma normalize_unchanged (v : value) :
  normalize (map VStr names) v = v <->
  has_declared_ref (map VStr names) v = false.
Proof.
  induction v as [| | | |l IH|d IH|cls d IH] using value_ind';
    try (simpl; split; reflexivity).
  - simpl. rewrite existsb_false_iff. rewrite Forall_forall in IH. split.
    + intros [= Hl] x Hx. apply IH; auto.
      rewrite map_eq_self in Hl. auto.
    + intros Hall. f_equal. apply map_eq_self. intros x Hx. apply IH; auto.
  - simpl. rewrite existsb_false_iff. rewrite Forall_forall in IH. split.
    + intros [= Hd] [k v] Hin. rewrite map_eq_self in Hd.
      specialize (Hd _ Hin). simpl in *.
      destruct (is_bare_ref (map VStr names) k v) eqn:Hb; simpl.
      * destruct (is_bare_ref_true _ _ Hb) as (n & -> & _).
        injection Hd as Hd. simpl in Hd. now apply canonical_neq in Hd.
      * injection Hd as Hd. apply (IH (k, v) Hin). exact Hd.
    + intros Hall. f_equal. apply map_eq_self. intros [k v] Hin.
      specialize (Hall _ Hin). simpl in *.
      apply orb_false_iff in Hall as [Hb Hv]. rewrite Hb.
      f_equal. apply (IH (k, v) Hin). exact Hv.
Qed.

Lemma forallb_map_ext {A B : Type} (f : B -> bool) (g : A -> B) (h : A -> bool)
    (l : list A) :
  (forall x, In x l -> f (g x) = h x) ->
  forallb f (map g l) = forallb h l.
Proof.
  induction l as [|a l IH]; intros Hall; simpl; auto.
  rewrite (Hall a (or_introl eq_refl)), IH; auto.
  intros x Hx. apply Hall. now right.
Qed.

Lemma wf_value_normalize (v : value) :
  wf_value (normalize (map VStr names) v) = wf_value v.
Proof.
  induction v as [| | | |l IH|d IH|cls d IH] using value_ind'; try reflexivity.
  - simpl. apply forallb_map_ext. rewrite Forall_forall in IH. auto.
  - simpl. f_equal.
    + apply nodup_keys_same_keys.
      apply (dict_keys_normalize_entries
               (fun k v => if is_bare_ref (map VStr names) k v
                           then VStr (canonical (format0 v))
                           else normalize (map VStr names) v)).
    + apply forallb_map_ext.
      rewrite Forall_forall in IH. intros kv Hin. simpl.
      destruct (is_bare_ref (map VStr names) (fst kv) (snd kv)) eqn:Hb; auto.
      destruct (is_bare_ref_true _ _ Hb) as (n & -> & _). reflexivity.
Qed.

Lemma normalize_idem (v : value) :
  (forall n, mem_string n names = true -> mem_string (canonical n) names = false) ->
  normalize (map VStr names) (normalize (map VStr names) v) =
  normalize (map VStr names) v.
Proof.
  intros Hclosed.
  induction v as [| | | |l IH|d IH|cls d IH] using value_ind'; try reflexivity.
  - simpl. f_equal. rewrite map_map. apply map_ext_in.
    rewrite Forall_forall in IH. auto.
  - simpl. f_equal. rewrite map_map. apply map_ext_in.
    rewrite Forall_forall in IH. intros [k v] Hin. simpl. f_equal.
    destruct (is_bare_ref (map VStr names) k v) eqn:Hb.
    + destruct (is_bare_ref_true _ _ Hb) as (n & -> & Hn). simpl.
      unfold is_bare_ref. rewrite py_in_strings, (Hclosed n Hn).
      now rewrite andb_false_r.
    + rewrite is_bare_ref_normalize, Hb. apply (IH (k, v) Hin).
Qed.

Lemma declared_names_normalize (sd : dict) (names' : list string) :
  declared_names sd = Some names' ->
  exists sd', normalize (map VStr names) (VDict sd) = VDict sd' /\
              declared_names sd' = Some names'.
Proof.
  intros Hd. eexists. split; [reflexivity|].
  unfold declared_names in *.
  rewrite (dict_get_map_entry
             (fun k v => if is_bare_ref (map VStr names) k v
                         then VStr (canonical (format0 v))
                         else normalize (map VStr names) v) sd "definitions").
  destruct (dict_get "definitions" sd) as [[| | | | |defs|]|]; try discriminate;
    simpl; auto.
  injection Hd as <-. f_equal.
  apply (dict_keys_normalize_entries
           (fun k v => if is_bare_ref (map VStr names) k v
                       then VStr (canonical (format0 v))
                       else normalize (map VStr names) v)).
Qed.
End NormalizerFixpoints.

(** X15.  The normalizer leaves a document as it is exactly when no
    ['$ref'] entry of its mappings holds a declared model name; so it does
    when the document declares no model. *)
Theorem fix_malformed_model_refs_unchanged `{Collaborators}
    (sd : dict) (names : list string) :
  wf_value (VDict sd) = true ->
  declared_names sd = Some names ->
  (fix_malformed_model_refs (VDict sd) = Ok (VDict sd) <->
   has_declared_ref (map VStr names) (VDict sd) = false)
  /\
  (names = [] -> fix_malformed_model_refs (VDict sd) = Ok (VDict sd)).
Proof.
  intros Hwf Hd.
  rewrite (fix_malformed_model_refs_descend names sd Hd).
  rewrite (descend_normalize _ _ Hwf).
  assert (Hiff : Ok (normalize (map VStr names) (VDict sd)) = Ok (VDict sd) <->
                 has_declared_ref (map VStr names) (VDict sd) = false).
  { pose proof (normalize_unchanged names (VDict sd)) as Hn. split.
    - intros E. apply Hn. injection E as E. simpl. f_equal. exact E.
    - intros E. apply Hn in E. now rewrite E. }
  split; [exact Hiff|].
  intros ->. apply Hiff. clear.
  induction (VDict sd) as [| | | |l IH|d IH|cls d IH] using value_ind'; auto.
  - simpl. apply existsb_false_iff. rewrite Forall_forall in IH. auto.
  - simpl. apply existsb_false_iff. rewrite Forall_forall in IH.
    intros kv Hin. unfold is_bare_ref. simpl. rewrite andb_false_r. simpl. auto.
Qed.

Lemma fix_malformed_model_refs_unchanged_witness :
  @fix_malformed_model_refs sample_collaborators (VDict unreferenced_document)
    = Ok (VDict unreferenced_document).
Proof.
  destruct (@fix_malformed_model_refs_unchanged sample_collaborators
              unreferenced_document ["Category"] eq_refl eq_refl) as [Hiff _].
  apply Hiff. reflexivity.
Defined.

(** X16.  When no declared model name is the canonical pointer of a
    declared model name, normalizing is idempotent: the normalizer leaves a
    document that it has normalized as it is. *)
Theorem fix_malformed_model_refs_idempotent `{Collaborators}
    (sd : dict) (names : list string) (out : value) :
  wf_value (VDict sd) = true ->
  declared_names sd = Some names ->
  (forall n, mem_string n names = true -> mem_string (canonical n) names = false) ->
  fix_malformed_model_refs (VDict sd) = Ok out ->
  fix_malformed_model_refs out = Ok out.
Proof.
  intros Hwf Hd Hclosed Hfix.
  rewrite (fix_malformed_model_refs_descend names sd Hd) in Hfix.
  rewrite (descend_normalize _ _ Hwf) in Hfix.
  destruct (declared_names_normalize names sd names Hd) as (sd' & Hn & Hd').
  rewrite Hn in Hfix. injection Hfix as <-.
  rewrite (fix_malformed_model_refs_descend names sd' Hd').
  rewrite descend_normalize.
  - rewrite <- Hn. now rewrite normalize_idem.
  - rewrite <- Hn. now rewrite wf_value_normalize.
Qed.

Lemma fix_malformed_model_refs_idempotent_witness :
  exists out,
    @fix_malformed_model_refs sample_collaborators (VDict category_document) = Ok out /\
    @fix_malformed_model_refs sample_collaborators out = Ok out.
Proof.
  eexists. split; [reflexivity|].
  apply (@fix_malformed_model_refs_idempotent sample_collaborators
           category_document ["Category"]); reflexivity.
Defined.

(** ** [create_model_repr]: the order of the properties, and what is shown *)

Lemma string_leb_refl (a : string) : String.leb a a = true.
Proof. destruct (String.leb_total a a); assumption. Qed.

Lemma string_leb_cases (a b : string) :
  String.leb a b = true <-> a = b \/ String.compare a b = Lt.
Proof.
  unfold String.leb.
  destruct (String.compare a b) eqn:E; split; auto; try discriminate.
  - intros _. left. now apply String.compare_eq_iff.
  - intros [->|]; try discriminate.
    pose proof (string_leb_refl b) as Hr. unfold String.leb in Hr.
    rewrite E in Hr. discriminate.
Qed.

Lemma string_leb_trans (a b c : string) :
  String.leb a b = true -> String.leb b c = true -> String.leb a c = true.
Proof.
  rewrite !string_leb_cases.
  intros [->|Hab] [->|Hbc]; auto.
  right.
  apply OrderedTypeEx.String_as_OT.cmp_lt.
  apply OrderedTypeEx.String_as_OT.cmp_lt in Hab, Hbc.
  eapply OrderedTypeEx.String_as_OT.lt_trans; eauto.
Qed.

Lemma insert_sorted_perm k l : Permutation (k :: l) (insert_sorted k l).
Proof.
  induction l as [|x l IH]; simpl; auto.
  destruct (String.leb k x); auto.
  eapply perm_trans; [apply perm_swap|]. now constructor.
Qed.

Lemma py_sorted_perm l : Permutation l (py_sorted l).
Proof.
  induction l as [|k l IH]; simpl; auto.
  eapply perm_trans; [|apply insert_sorted_perm]. now constructor.
Qed.

Lemma insert_sorted_sorted k l :
  StronglySorted (fun a b => String.leb a b = true) l ->
  StronglySorted (fun a b => String.leb a b = true) (insert_sorted k l).
Proof.
  induction l as [|x l IH]; intros Hs; simpl.
  - constructor; constructor.
  - apply StronglySorted_inv in Hs as [Hs Hx].
    destruct (String.leb k x) eqn:E.
    + constructor; [constructor; auto|].
      constructor; auto.
      eapply Forall_impl; [|exact Hx]. intros b Hb.
      eapply string_leb_trans; eauto.
    + constructor; auto.
      assert (Hxk : String.leb x k = true).
      { destruct (String.leb_total k x); congruence. }
      apply Forall_forall. intros b Hb.
      apply (Permutation_in _ (Permutation_sym (insert_sorted_perm k l))) in Hb.
      destruct Hb as [<-|Hb]; auto.
      rewrite Forall_forall in Hx. auto.
Qed.

Lemma py_sorted_sorted l :
  StronglySorted (fun a b => String.leb a b = true) (py_sorted l).
Proof.
  induction l as [|k l IH]; simpl; [constructor|].
  now apply insert_sorted_sorted.
Qed.

Lemma sorted_perm_eq (l1 : list string) : forall l2,
  StronglySorted (fun a b => String.leb a b = true) l1 ->
  StronglySorted (fun a b => String.leb a b = true) l2 ->
  Permutation l1 l2 ->
  l1 = l2.
Proof.
  induction l1 as [|a l1 IH]; intros l2 H1 H2 Hp.
  - symmetry. now apply Permutation_nil.
  - destruct l2 as [|b l2].
    { apply Permutation_sym, Permutation_nil in Hp. discriminate. }
    apply StronglySorted_inv in H1 as [H1 Ha].
    apply StronglySorted_inv in H2 as [H2 Hb].
    rewrite Forall_forall in Ha, Hb.
    assert (Hab : a = b).
    { assert (Hin_a : In a (b :: l2))
        by (apply (Permutation_in _ Hp); now left).
      assert (Hin_b : In b (a :: l1))
        by (apply (Permutation_in _ (Permutation_sym Hp)); now left).
      destruct Hin_a as [->|Hin_a]; auto.
      destruct Hin_b as [->|Hin_b]; auto.
      apply String.leb_antisym; auto. }
    subst b. f_equal. apply IH; auto.
    eapply Permutation_cons_inv; eauto.
Qed.

(** Whatever way the keys are sorted, the list is this one. *)
Lemma py_sorted_unique (l l' : list string) :
  Permutation l l' ->
  StronglySorted (fun a b => String.leb a b = true) l' ->
  l' = py_sorted l.
Proof.
  intros Hp Hs. apply sorted_perm_eq; auto using py_sorted_sorted.
  eapply perm_trans; [apply Permutation_sym; exact Hp|apply py_sorted_perm].
Qed.

Lemma py_sorted_In l k : In k (py_sorted l) <-> In k l.
Proof.
  split; apply Permutation_in;
    [apply Permutation_sym|]; apply py_sorted_perm.
Qed.

Section ReprProps.
Context `{Printer}.

Lemma repr_props_present cls attrs props :
  (forall p, In p props ->
     is_dunder p = false /\
     exists v, dict_get p attrs = Some v /\ is_ok (py_repr v) = true) ->
  exists shown,
    repr_props cls attrs props = Some (Ok shown) /\
    Forall2 (fun p s => exists v r,
               dict_get p attrs = Some v /\ py_repr v = Ok r /\
               s = (p ++ "=" ++ r)%string) props shown.
Proof.
  induction props as [|p props IH]; intros Hall.
  - exists []. split; [reflexivity|constructor].
  - destruct (Hall p (or_introl eq_refl)) as (Hd & v & Hv & Hr).
    destruct IH as (shown & Hs & Hf); [intros; apply Hall; now right|].
    destruct (py_repr v) as [r|] eqn:Hrv; try discriminate.
    exists ((p ++ "=" ++ r)%string :: shown). split.
    + simpl. unfold repr_prop, getattr_prop. rewrite Hd, Hv, Hrv. simpl.
      now rewrite Hs.
    + constructor; auto. now exists v, r.
Qed.

Lemma repr_props_ext cls cls' attrs attrs' props :
  (forall p, In p props ->
     exists v, dict_get p attrs = Some v /\ dict_get p attrs' = Some v) ->
  repr_props cls attrs props = repr_props cls' attrs' props.
Proof.
  induction props as [|p props IH]; intros Hall; simpl; auto.
  destruct (Hall p (or_introl eq_refl)) as (v & Hv & Hv').
  rewrite IH by (intros; apply Hall; now right).
  unfold repr_prop, getattr_prop. now rewrite Hv, Hv'.
Qed.
End ReprProps.

(** X17.  The repr of a freshly constructed instance: no attribute lookup
    fails, and the string is the name of the class followed by one
    [name=value] per declared property, in ascending order of the names,
    the value being the repr of what construction assigned: the keyword of
    that name or the default of the type.  (No property is named [__x] or
    [_swagger_types].) *)
Theorem construct_then_repr `{Collaborators} `{Printer} (cls : model_type)
    (kwargs : dict) (m : value) :
  nodup_keys kwargs = true ->
  nodup_keys (_swagger_types cls) = true ->
  (forall p, dict_mem p (_swagger_types cls) = true -> is_dunder p = false) ->
  dict_mem "_swagger_types" (_swagger_types cls) = false ->
  construct cls kwargs = Ok m ->
  (forall p t, In (p, t) (_swagger_types cls) ->
     is_ok (py_repr (prop_value kwargs p t)) = true) ->
  exists shown,
    create_model_repr m =
      Some (Ok (type_name cls ++ "(" ++ join ", " shown ++ ")")%string) /\
    Forall2 (fun p s => exists t r,
               In (p, t) (_swagger_types cls) /\
               py_repr (prop_value kwargs p t) = Ok r /\
               s = (p ++ "=" ++ r)%string)
            (py_sorted (dict_keys (_swagger_types cls))) shown.
Proof.
  intros Hkw Htypes Hdunder Hown Hc Hrepr.
  destruct (dict_mem "self" kwargs) eqn:Hself.
  { unfold construct, bind_keywords in Hc. rewrite Hself in Hc. discriminate. }
  destruct (dict_mem "model" kwargs) eqn:Hmodel.
  { unfold construct, bind_keywords in Hc. rewrite Hself in Hc. simpl in Hc.
    rewrite Hmodel in Hc. discriminate. }
  destruct (construct_spec kwargs cls Hkw Htypes Hself Hmodel)
    as (attrs & Hkeys & Hvals & Hres).
  rewrite Hres in Hc.
  destruct (unknown_keys (_swagger_types cls) (dict_keys kwargs)); try discriminate.
  injection Hc as <-.
  assert (Hdecl : forall p, In p (py_sorted (dict_keys (_swagger_types cls))) ->
                            exists t, In (p, t) (_swagger_types cls)).
  { intros p Hp. apply py_sorted_In, dict_mem_In_keys in Hp.
    unfold dict_mem in Hp.
    destruct (dict_get p (_swagger_types cls)) as [t|] eqn:Ht; try discriminate.
    exists t. now apply dict_get_In. }
  destruct (repr_props_present cls attrs (py_sorted (dict_keys (_swagger_types cls))))
    as (shown & Hs & Hf).
  { intros p Hp. destruct (Hdecl p Hp) as [t Ht]. split.
    - apply Hdunder. eapply In_dict_mem; eauto.
    - exists (prop_value kwargs p t). split; auto. }
  exists shown. split.
  - simpl.
    assert (Hnone : dict_get "_swagger_types" attrs = None).
    { apply dict_get_None_keys. rewrite Hkeys. apply dict_get_None_keys.
      now apply dict_mem_false_get. }
    now rewrite Hnone, Hs.
  - clear Hs.
    induction Hf as [|p s props shown' (v & r & Hv & Hr & ->) Hf IH]; constructor.
    + destruct (Hdecl p (or_introl eq_refl)) as [t Ht].
      exists t, r. rewrite (Hvals p t Ht) in Hv. injection Hv as <-. auto.
    + apply IH. intros p' Hp'. apply Hdecl. now right.
Qed.

Lemma construct_then_repr_witness :
  exists shown,
    @create_model_repr sample_printer (VInst Tag [("id", VNone); ("name", VStr "a")])
      = Some (Ok ("Tag(" ++ join ", " shown ++ ")")%string) /\
    List.length shown = 2.
Proof.
  destruct (@construct_then_repr sample_collaborators sample_printer Tag
              [("name", VStr "a")] (VInst Tag [("id", VNone); ("name", VStr "a")])
              eq_refl eq_refl) as (shown & Hs & Hf).
  - intros p Hp. apply dict_mem_In_keys in Hp.
    destruct Hp as [<-|[<-|[]]]; reflexivity.
  - reflexivity.
  - reflexivity.
  - intros p t [[= <- <-]|[[= <- <-]|[]]]; reflexivity.
  - exists shown. split; [exact Hs|].
    apply Forall2_length in Hf. now rewrite <- Hf.
Defined.

(** X18.  The repr of an instance is settled by the name of its class
    and the values of its declared properties: two instances whose classes
    have the same name and declare the same properties, in whatever order,
    and which hold the same value under every declared property, have the
    same repr, whatever other attributes they have and in whatever order
    the attributes were assigned. *)
Theorem create_model_repr_declared `{Printer} (cls cls' : model_type)
    (attrs attrs' : dict) :
  type_name cls = type_name cls' ->
  nodup_keys (_swagger_types cls) = true ->
  nodup_keys (_swagger_types cls') = true ->
  (forall p, dict_mem p (_swagger_types cls) = dict_mem p (_swagger_types cls')) ->
  dict_get "_swagger_types" attrs = None ->
  dict_get "_swagger_types" attrs' = None ->
  (forall p, dict_mem p (_swagger_types cls) = true ->
     exists v, dict_get p attrs = Some v /\ dict_get p attrs' = Some v) ->
  create_model_repr (VInst cls attrs) = create_model_repr (VInst cls' attrs').
Proof.
  intros Hname Hnd Hnd' Hsame Hown Hown' Hvals.
  assert (Hsorted : py_sorted (dict_keys (_swagger_types cls')) =
                    py_sorted (dict_keys (_swagger_types cls))).
  { apply py_sorted_unique; [|apply py_sorted_sorted].
    eapply perm_trans; [|apply py_sorted_perm].
    apply NoDup_Permutation; try (now apply nodup_keys_NoDup).
    intros p. rewrite <- !dict_mem_In_keys. now rewrite Hsame. }
  simpl. rewrite Hown, Hown', Hsorted, Hname.
  rewrite (repr_props_ext cls cls' attrs attrs'); auto.
  intros p Hp. apply Hvals. now apply dict_mem_In_keys, py_sorted_In.
Qed.

Lemma create_model_repr_declared_witness :
  @create_model_repr sample_printer
    (VInst Pet [("id", VNone); ("name", VStr "Rex"); ("tags", VNone)]) =
  @create_model_repr sample_printer
    (VInst Pet' [("_raw", VStr "{}"); ("tags", VNone); ("name", VStr "Rex");
                 ("id", VNone)]).
Proof.
  apply (@create_model_repr_declared sample_printer Pet Pet'); try reflexivity.
  - intros p. simpl. unfold dict_mem. simpl.
    destruct (String.eqb p "id"), (String.eqb p "name"), (String.eqb p "tags");
      reflexivity.
  - intros p Hp. apply dict_mem_In_keys in Hp.
    destruct Hp as [<-|[<-|[<-|[]]]]; eexists; split; reflexivity.
Defined.

(** ** The two passes over a schema commute *)

Lemma wf_value_dict_set (d : dict) k v :
  wf_value (VDict d) = true -> wf_value v = true ->
  wf_value (VDict (dict_set k v d)) = true.
Proof.
  simpl. intros Hd Hv. apply andb_true_iff in Hd as [Hnd Hall].
  apply andb_true_iff. split; [now apply nodup_keys_set|].
  clear Hnd. induction d as [|[k0 v0] d IH]; simpl in *.
  - now rewrite Hv.
  - apply andb_true_iff in Hall as [H0 Hall].
    destruct (String.eqb k k0); simpl; rewrite ?Hv, ?H0; auto.
Qed.

Lemma wf_tag_model name spec spec' :
  wf_value spec = true -> tag_model name spec = Ok spec' -> wf_value spec' = true.
Proof.
  destruct spec as [| | | | |d|]; try discriminate.
  unfold tag_model. intros Hwf.
  destruct (is_none _); simpl;
    [|destruct (py_eq _ _)]; intros [= <-]; auto;
    repeat apply wf_value_dict_set; auto.
Qed.

Lemma wf_tag_models_loop defs : forall defs',
  forallb (fun kv => wf_value (snd kv)) defs = true ->
  tag_models_loop defs = Ok defs' ->
  forallb (fun kv => wf_value (snd kv)) defs' = true /\ dict_keys defs' = dict_keys defs.
Proof.
  induction defs as [|[name spec] rest IH]; intros defs' Hwf Hl; simpl in Hl.
  - injection Hl as <-. auto.
  - simpl in Hwf. apply andb_true_iff in Hwf as [Hs Hrest].
    destruct (tag_model name spec) as [spec'|] eqn:Ht; simpl in Hl; try discriminate.
    destruct (tag_models_loop rest) as [rest'|] eqn:Hr; simpl in Hl; try discriminate.
    injection Hl as <-. destruct (IH rest' Hrest eq_refl) as [Hw Hk].
    simpl. rewrite (wf_tag_model _ _ _ Hs Ht), Hw, Hk. auto.
Qed.

Section PassesCommute.
Context `{Collaborators}.
Variable names : list string.

Lemma normalize_dict (d : dict) :
  normalize (map VStr names) (VDict d) =
  VDict (map (normalize_entry (map VStr names)) d).
Proof. reflexivity. Qed.

Lemma normalize_entry_other k v :
  k <> "$ref" ->
  normalize_entry (map VStr names) (k, v) = (k, normalize (map VStr names) v).
Proof.
  intros Hk. unfold normalize_entry, is_bare_ref. simpl.
  apply String.eqb_neq in Hk. now rewrite Hk.
Qed.

Lemma normalize_entry_dict k (d : dict) :
  normalize_entry (map VStr names) (k, VDict d)
  = (k, normalize (map VStr names) (VDict d)).
Proof.
  unfold normalize_entry, is_bare_ref. simpl fst. simpl snd.
  rewrite py_in_strings. now rewrite andb_false_r.
Qed.

Lemma normalize_entries_set k v (d : dict) :
  k <> "$ref" ->
  map (normalize_entry (map VStr names)) (dict_set k v d) =
  dict_set k (normalize (map VStr names) v)
    (map (normalize_entry (map VStr names)) d).
Proof.
  intros Hk. induction d as [|[k0 v0] d IH]; simpl.
  - now rewrite normalize_entry_other.
  - destruct (String.eqb k k0) eqn:E; simpl.
    + apply String.eqb_eq in E. subst k0.
      rewrite !normalize_entry_other by assumption. reflexivity.
    + rewrite IH. reflexivity.
Qed.

Lemma normalize_entries_get k (d : dict) :
  k <> "$ref" ->
  dict_get k (map (normalize_entry (map VStr names)) d) =
  option_map (normalize (map VStr names)) (dict_get k d).
Proof.
  intros Hk. induction d as [|[k0 v0] d IH]; auto.
  destruct (String.eqb k k0) eqn:E.
  - apply String.eqb_eq in E. subst k0.
    simpl map. rewrite normalize_entry_other by assumption.
    simpl. now rewrite String.eqb_refl.
  - simpl. now rewrite E.
Qed.

Lemma tag_model_normalize name d d' :
  tag_model name (VDict d) = Ok (VDict d') ->
  tag_model name (normalize (map VStr names) (VDict d)) =
  Ok (normalize (map VStr names) (VDict d')).
Proof.
  rewrite !normalize_dict. unfold tag_model.
  assert (Htype : "type" <> "$ref") by discriminate.
  assert (Hmarker : MODEL_MARKER <> "$ref") by discriminate.
  assert (Hnone : forall t, is_none (normalize (map VStr names) t) = is_none t)
    by (now intros []).
  assert (Hobj : forall t, py_eq (normalize (map VStr names) t) (VStr "object")
                           = py_eq t (VStr "object")) by (now intros []).
  assert (Hoo : py_eq (VStr "object") (VStr "object") = true) by reflexivity.
  rewrite (normalize_entries_get "type" d Htype).
  destruct (dict_get "type" d) as [t|] eqn:Ht; simpl option_map; cbv beta iota.
  - rewrite Hnone. destruct (is_none t); simpl fst; simpl snd.
    + rewrite Hoo. intros [= <-].
      now rewrite !normalize_entries_set by assumption.
    + rewrite Hobj. destruct (py_eq t (VStr "object")); intros [= <-]; auto.
      now rewrite !normalize_entries_set by assumption.
  - simpl is_none. cbv beta iota. simpl fst; simpl snd.
    rewrite Hoo. intros [= <-].
    now rewrite !normalize_entries_set by assumption.
Qed.

Lemma tag_models_loop_normalize defs : forall defs',
  tag_models_loop defs = Ok defs' ->
  tag_models_loop (map (normalize_entry (map VStr names)) defs) =
  Ok (map (normalize_entry (map VStr names)) defs').
Proof.
  induction defs as [|[name spec] rest IH]; intros defs' Hl; simpl in Hl.
  - now injection Hl as <-.
  - destruct (tag_model name spec) as [spec'|] eqn:Ht; simpl in Hl; try discriminate.
    destruct (tag_models_loop rest) as [rest'|] eqn:Hr; simpl in Hl; try discriminate.
    injection Hl as <-.
    destruct (tag_model_dict _ _ _ Ht) as (d & d' & -> & ->).
    simpl map. rewrite !normalize_entry_dict.
    change (tag_models_loop
              ((name, normalize (map VStr names) (VDict d))
               :: map (normalize_entry (map VStr names)) rest))
      with (model_spec' <- tag_model name (normalize (map VStr names) (VDict d)) ;;
            rest'' <- tag_models_loop (map (normalize_entry (map VStr names)) rest) ;;
            Ok ((name, model_spec') :: rest'')).
    rewrite (tag_model_normalize _ _ _ Ht). simpl bind.
    now rewrite (IH rest' eq_refl).
Qed.
End PassesCommute.

(** X19.  The two passes over a schema commute: tagging the models and
    then normalizing the references leaves the document that normalizing
    the references and then tagging the models leaves. *)
Theorem tag_models_fix_malformed_model_refs_commute `{Collaborators}
    (sd : dict) (names : list string) (tagged : value) :
  wf_value (VDict sd) = true ->
  declared_names sd = Some names ->
  tag_models (VDict sd) = Ok tagged ->
  exists out,
    fix_malformed_model_refs tagged = Ok out /\
    (fixed <- fix_malformed_model_refs (VDict sd) ;; tag_models fixed) = Ok out.
Proof.
  intros Hwf Hd Ht.
  rewrite (fix_malformed_model_refs_descend names sd Hd).
  rewrite (descend_normalize _ _ Hwf).
  rewrite normalize_dict. cbv beta iota delta [bind].
  assert (Hdef : "definitions" <> "$ref") by discriminate.
  unfold tag_models in Ht |- *.
  rewrite (normalize_entries_get names "definitions" sd Hdef).
  unfold declared_names in Hd.
  destruct (dict_get "definitions" sd) as [defs|] eqn:Hg.
  - destruct defs as [| | | | |defs|]; try discriminate.
    injection Hd as <-.
    destruct (tag_models_loop defs) as [defs'|] eqn:Hl; simpl in Ht; try discriminate.
    injection Ht as <-.
    cbv beta iota delta [option_map]. rewrite normalize_dict.
    rewrite (tag_models_loop_normalize _ _ _ Hl). cbv beta iota delta [bind].
    eexists. split; [|reflexivity].
    assert (Hwf' : wf_value (VDict (dict_set "definitions" (VDict defs') sd)) = true).
    { pose proof (wf_value_dict_get sd "definitions" (VDict defs)) as Hwd.
      simpl in Hwf. apply andb_true_iff in Hwf as [Hnd Hall].
      specialize (Hwd Hall Hg). simpl in Hwd.
      apply andb_true_iff in Hwd as [Hnd' Hall'].
      destruct (wf_tag_models_loop _ _ Hall' Hl) as [Hw Hk].
      apply wf_value_dict_set.
      - simpl. now rewrite Hnd, Hall.
      - simpl. rewrite Hw.
        rewrite (nodup_keys_same_keys defs defs' Hk), Hnd'. reflexivity. }
    assert (Hd' : declared_names (dict_set "definitions" (VDict defs') sd)
                  = Some (dict_keys defs)).
    { unfold declared_names. rewrite dict_get_set_same.
      simpl in Hwf. apply andb_true_iff in Hwf as [_ Hall].
      pose proof (wf_value_dict_get sd "definitions" (VDict defs) Hall Hg) as Hwd.
      simpl in Hwd. apply andb_true_iff in Hwd as [_ Hall'].
      now destruct (wf_tag_models_loop _ _ Hall' Hl) as [_ ->]. }
    rewrite (fix_malformed_model_refs_descend _ _ Hd').
    rewrite (descend_normalize _ _ Hwf').
    rewrite normalize_dict.
    rewrite (normalize_entries_set _ _ _ _ Hdef).
    now rewrite normalize_dict.
  - injection Hd as <-. injection Ht as <-. cbv beta iota delta [option_map].
    exists (VDict (map (normalize_entry (map VStr [])) sd)). split; [|reflexivity].
    assert (Hd' : declared_names sd = Some []).
    { unfold declared_names. now rewrite Hg. }
    rewrite (fix_malformed_model_refs_descend _ _ Hd').
    now rewrite (descend_normalize _ _ Hwf).
Qed.

Lemma tag_models_fix_malformed_model_refs_commute_witness :
  exists tagged out,
    tag_models (VDict category_document) = Ok tagged /\
    @fix_malformed_model_refs sample_collaborators tagged = Ok out /\
    (fixed <- @fix_malformed_model_refs sample_collaborators (VDict category_document) ;;
     tag_models fixed) = Ok out.
Proof.
  destruct (@tag_models_fix_malformed_model_refs_commute sample_collaborators
              category_document ["Category"] _ eq_refl eq_refl eq_refl)
    as (out & Hfix & Htag).
  eexists. exists out. split; [reflexivity|]. split; [exact Hfix|exact Htag].
Defined.

(** ** What the flattened mapping shares with the instance *)

Section Sharing.
Variable rec : hval -> heap -> res hval.
Hypothesis rec_frame : forall v h r h', rec v h = Done r h' -> heap_prefix h h'.
Hypothesis rec_dict : forall lv d h r h',
  heap_get h lv = Some (ODict d) -> rec (HRef lv) h = Done r h' ->
  r = HRef lv /\ h' = h.

Variable h0 : heap.
Variable ld : nat.
Hypothesis ld_new : List.length h0 <= ld.

Lemma store_dict_set_get h1 k y d :
  heap_get h1 ld = Some (ODict d) ->
  heap_get (store_dict_set ld k y h1) ld = Some (ODict (dict_set k y d)).
Proof.
  intros Hd. unfold store_dict_set. rewrite Hd.
  apply heap_get_set_same. apply nth_error_Some. unfold heap_get in Hd. congruence.
Qed.

Lemma st_flat_entry_dict cls attrs k v h h' d :
  heap_get h ld = Some (ODict d) ->
  st_flat_entry rec cls attrs ld k v h = Done tt h' ->
  exists d', heap_get h' ld = Some (ODict d') /\
             forall k', k' <> k -> dict_get k' d' = dict_get k' d.
Proof.
  intros Hd He.
  assert (Hset : forall y h1, heap_prefix h h1 ->
            Done tt (store_dict_set ld k y h1) = Done tt h' ->
            exists d', heap_get h' ld = Some (ODict d') /\
                       forall k', k' <> k -> dict_get k' d' = dict_get k' d).
  { intros y h1 Hp [= <-]. exists (dict_set k y d). split.
    - apply store_dict_set_get. eapply heap_prefix_get; eauto.
    - intros k' Hk'. now apply dict_get_set_other. }
  unfold st_flat_entry in He.
  destruct v as [| | | |lv].
  - destruct (h_is_required h cls attrs k) as [[|]|]; try discriminate.
    unfold store_dict_pop in He. rewrite Hd in He.
    destruct (dict_mem k d); try discriminate. injection He as <-.
    exists (dict_remove k d). split.
    + apply heap_get_set_same. apply nth_error_Some. unfold heap_get in Hd. congruence.
    + intros k' Hk'. now apply dict_get_remove_other.
  - simpl in He. destruct (rec (HBool b) h) eqn:Hr; try discriminate. eauto.
  - simpl in He. destruct (rec (HInt n) h) eqn:Hr; try discriminate. eauto.
  - simpl in He. destruct (rec (HStr s) h) eqn:Hr; try discriminate. eauto.
  - destruct (heap_get h lv) as [[xs|d1|c a]|] eqn:Hlv.
    + destruct (st_flat_list rec xs h) as [| |ys h1] eqn:Hys; try discriminate.
      simpl in He. apply (Hset (HRef (List.length h1)) (h1 ++ [OList ys])); auto.
      apply heap_prefix_alloc. eapply st_flat_list_frame; eauto.
    + destruct (rec (HRef lv) h) eqn:Hr; try discriminate. eauto.
    + destruct (rec (HRef lv) h) eqn:Hr; try discriminate. eauto.
    + destruct (rec (HRef lv) h) eqn:Hr; try discriminate. eauto.
Qed.

Lemma st_flat_loop_dict cls attrs items : forall h h' d,
  heap_get h ld = Some (ODict d) ->
  st_flat_loop rec cls attrs ld items h = Done tt h' ->
  exists d', heap_get h' ld = Some (ODict d') /\
             forall k', dict_mem k' items = false -> dict_get k' d' = dict_get k' d.
Proof.
  induction items as [|[k v] items IH]; intros h h' d Hd Hl; simpl in Hl.
  - injection Hl as <-. eauto.
  - destruct (st_flat_entry rec cls attrs ld k v h) as [| |[] h1] eqn:He;
      try discriminate.
    destruct (st_flat_entry_dict _ _ _ _ _ _ _ Hd He) as (d1 & Hd1 & Hk1).
    destruct (IH _ _ _ Hd1 Hl) as (d' & Hd' & Hk').
    exists d'. split; auto.
    intros k' Hm. rewrite dict_mem_cons in Hm. apply orb_false_iff in Hm as [E Hm].
    rewrite Hk' by assumption. apply Hk1. now apply String.eqb_neq.
Qed.

Lemma st_flat_entry_shared cls attrs k lv d0 h h' d :
  heap_get h ld = Some (ODict d) ->
  heap_get h lv = Some (ODict d0) ->
  st_flat_entry rec cls attrs ld k (HRef lv) h = Done tt h' ->
  exists d', heap_get h' ld = Some (ODict d') /\ dict_get k d' = Some (HRef lv).
Proof.
  intros Hd Hlv He. unfold st_flat_entry in He. rewrite Hlv in He.
  destruct (rec (HRef lv) h) as [| |y h1] eqn:Hr; try discriminate.
  destruct (rec_dict _ _ _ _ _ Hlv Hr) as [-> ->].
  injection He as <-. exists (dict_set k (HRef lv) d). split.
  - now apply store_dict_set_get.
  - apply dict_get_set_same.
Qed.

Lemma st_flat_loop_shared cls attrs k lv d0 items : forall h h' d,
  heap_prefix h0 h ->
  heap_get h0 lv = Some (ODict d0) ->
  heap_get h ld = Some (ODict d) ->
  nodup_keys items = true ->
  In (k, HRef lv) items ->
  st_flat_loop rec cls attrs ld items h = Done tt h' ->
  exists d', heap_get h' ld = Some (ODict d') /\ dict_get k d' = Some (HRef lv).
Proof.
  induction items as [|[k1 v1] items IH]; intros h h' d Hp Hlv Hd Hnd Hin Hl;
    [destruct Hin|].
  simpl in Hl.
  destruct (st_flat_entry rec cls attrs ld k1 v1 h) as [| |[] h1] eqn:He;
    try discriminate.
  simpl in Hnd. apply andb_true_iff in Hnd as [Hfresh Hnd].
  apply negb_true_iff in Hfresh.
  destruct Hin as [[= -> ->]|Hin].
  - destruct (st_flat_entry_shared _ _ _ _ _ _ _ _ Hd
                (heap_prefix_get _ _ _ _ Hp Hlv) He) as (d1 & Hd1 & Hk).
    destruct (st_flat_loop_dict _ _ _ _ _ _ Hd1 Hl) as (d' & Hd' & Hsame).
    exists d'. split; auto. now rewrite Hsame.
  - destruct (st_flat_entry_dict _ _ _ _ _ _ _ Hd He) as (d1 & Hd1 & _).
    assert (Hb : building h0 ld h1).
    { eapply (st_flat_entry_frame rec rec_frame); [|exact He].
      split; [exact Hp|]. split; [exact ld_new|eauto]. }
    apply (IH h1 h' d1); auto. exact (proj1 Hb).
Qed.
End Sharing.

Lemma st_create_flat_dict_dict fuel lv d h r h' :
  heap_get h lv = Some (ODict d) ->
  st_create_flat_dict fuel (HRef lv) h = Done r h' ->
  r = HRef lv /\ h' = h.
Proof.
  intros Hlv Hc. destruct fuel as [|fuel]; [discriminate|].
  simpl in Hc. rewrite Hlv in Hc. now injection Hc as <- <-.
Qed.

(** X20.  A dict held by an attribute is not copied: the flattened
    mapping holds, under the name of the attribute, the very dict object
    that the instance holds, so that the result and the instance share it. *)
Theorem st_create_flat_dict_shares_dict (fuel : nat) (h h' : heap) (l lv : nat)
    (cls : model_type) (attrs d0 : list (string * hval)) (k : string) (r : hval) :
  heap_get h l = Some (OInst cls attrs) ->
  nodup_keys attrs = true ->
  In (k, HRef lv) attrs ->
  heap_get h lv = Some (ODict d0) ->
  st_create_flat_dict fuel (HRef l) h = Done r h' ->
  exists ld d,
    r = HRef ld /\ ld <> lv /\
    heap_get h' ld = Some (ODict d) /\
    dict_get k d = Some (HRef lv) /\
    heap_get h' lv = Some (ODict d0).
Proof.
  intros Hl Hnd Hin Hlv Hc.
  destruct fuel as [|fuel]; [discriminate|].
  simpl in Hc. rewrite Hl in Hc. simpl in Hc.
  destruct (st_flat_loop (st_create_flat_dict fuel) cls attrs
              (List.length h) attrs (h ++ [ODict attrs])) as [| |[] h2] eqn:Hloop;
    try discriminate.
  injection Hc as <- <-.
  destruct (st_flat_loop_shared (st_create_flat_dict fuel)
              (st_create_flat_dict_prefix fuel) (st_create_flat_dict_dict fuel)
              h (List.length h) (le_n _) cls attrs k lv d0 attrs
              (h ++ [ODict attrs]) h2 attrs) as (d & Hd & Hk); auto.
  - apply heap_prefix_alloc, heap_prefix_refl.
  - unfold heap_get. rewrite nth_error_app2 by lia. now rewrite Nat.sub_diag.
  - exists (List.length h), d.
    assert (Hlt : lv < List.length h).
    { apply nth_error_Some. unfold heap_get in Hlv. congruence. }
    split; [reflexivity|]. split; [lia|]. split; [exact Hd|]. split; [exact Hk|].
    assert (Hb : building h (List.length h) h2).
    { eapply (st_flat_loop_frame (st_create_flat_dict fuel)
                (st_create_flat_dict_prefix fuel)); [|exact Hloop].
      split; [apply heap_prefix_alloc, heap_prefix_refl|]. split; [lia|].
      exists attrs. unfold heap_get. rewrite nth_error_app2 by lia.
      now rewrite Nat.sub_diag. }
    eapply heap_prefix_get; [exact (proj1 Hb)|exact Hlv].
Qed.

Lemma st_create_flat_dict_shares_dict_witness :
  exists r h' ld d,
    st_create_flat_dict 2 (HRef 1) shared_store = Done r h' /\
    r = HRef ld /\ ld <> 0 /\
    heap_get h' ld = Some (ODict d) /\
    dict_get "meta" d = Some (HRef 0) /\
    heap_get h' 0 = Some (ODict [("owner", HStr "a")]).
Proof.
  eexists. eexists.
  destruct (st_create_flat_dict_shares_dict 2 shared_store _ 1 0 Tag _ _ "meta" _
              eq_refl eq_refl (or_intror (or_introl eq_refl)) eq_refl eq_refl)
    as (ld & d & Hr & Hne & Hd & Hk & Hlv).
  exists ld, d. split; [reflexivity|]. auto.
Defined.
